(** * The NOS storage driver: buffered multipart-upload writer

    A shallow embedding of [registry/storage/driver/nos]: the object-store
    client ([NosClient]), the upload-session resolver ([driver.Writer]) and
    the buffered writer ([writer.Write], [flushPart], [Close], [Cancel],
    [Commit]).

    Go values are modelled as follows.
    - [int], [int64] and [int32] values are [Z]; the conversions that can
      wrap ([int32(..)], arithmetic on the [int64] size counter) are written
      out with [int32] and [int64].
    - [[]byte] is [list byte]; [len] is [len]; [p[:k]] and [p[k:]] are
      [firstn] and [skipn].
    - [error] is the type [error]: a message, or the storage driver's
      [PathNotFoundError].
    - The remote store is reached through [http.Client.Do].  What it answers
      is not part of the program, so it is a parameter: a [Remote] maps the
      requests made so far and the current request to a reply.  Every client
      method appends its request to the trace, so the trace is the list of
      network calls the program attempted. *)

From Stdlib Require Import ZArith List String Ascii Bool Lia.
From Stdlib.Strings Require Import Byte.
Import ListNotations.
Open Scope string_scope.
Open Scope list_scope.
Open Scope Z_scope.

(** ** Machine integers and slices *)

Definition int64 (z : Z) : Z := (z + 2 ^ 63) mod 2 ^ 64 - 2 ^ 63.
Definition int32 (z : Z) : Z := (z + 2 ^ 31) mod 2 ^ 32 - 2 ^ 31.

Definition len {A : Type} (l : list A) : Z := Z.of_nat (List.length l).
Arguments len : simpl never.

(** [p[:k]] and [p[k:]] for [0 <= k <= len p]. *)
Definition slice_to {A : Type} (k : Z) (p : list A) : list A := firstn (Z.to_nat k) p.
Definition slice_from {A : Type} (k : Z) (p : list A) : list A := skipn (Z.to_nat k) p.

(** ** Errors *)

Inductive error : Type :=
| Errorf (msg : string)              (* errors.New / fmt.Errorf / transport errors *)
| PathNotFoundError (Path : string). (* storagedriver.PathNotFoundError *)

(** [err.Error()]; for [PathNotFoundError] the storage driver package prints
    the driver name (empty here) and the path. *)
Definition Error (e : error) : string :=
  match e with
  | Errorf msg => msg
  | PathNotFoundError p => String.append ": Path not found: " p
  end.

(** ** nos_request.go, nos_response.go and the [Multi] type *)

(** The structs the writer and the resolver handle.  Fields that the driver
    never reads ([XMLName], [Owner], [StorageClass], [Initiated], the echoed
    bucket, key and markers of the listings) are left out. *)

Record UploadPart := mkUploadPart
  { up_PartNumber : Z;      (* int32 *)
    up_Etag : string;
    up_Size : Z }.          (* int64 *)

(** [UploadParts.Parts]; [Append] is [app] of a singleton. *)
Definition UploadParts := list UploadPart.

Definition UploadParts_Append (uploadParts : UploadParts) (part : UploadPart) : UploadParts :=
  uploadParts ++ [part].

Record InitMultiUploadResult := mkInitMultiUploadResult
  { imr_Bucket : string;
    imr_Object : string;
    imr_UploadId : Z }.

Record CompleteMultipartUploadResult := mkCompleteMultipartUploadResult
  { cmr_Location : string;
    cmr_Bucket : string;
    cmr_Key : string;
    cmr_Etag : string }.

Record UploadPartRet := mkUploadPartRet
  { upr_PartNumber : Z;     (* int *)
    upr_LastModified : string;
    upr_Etag : string;
    upr_Size : Z }.         (* int *)

Record ListPartsResult := mkListPartsResult
  { lpr_NextPartNumberMarker : Z;
    lpr_IsTruncated : bool;
    lpr_Parts : list UploadPartRet }.

Record Upload := mkUpload
  { u_Key : string;
    u_UploadId : Z }.

Record ListMultiResult := mkListMultiResult
  { lmr_NextKeyMarker : string;
    lmr_Uploads : list Upload;
    lmr_IsTruncated : bool }.

Record Multi := mkMulti
  { m_Key : string;
    m_UploadId : Z }.

Definition newMulti (upload : Upload) : Multi :=
  mkMulti (u_Key upload) (u_UploadId upload).

Definition initMulti (result : InitMultiUploadResult) : Multi :=
  mkMulti (imr_Object result) (imr_UploadId result).

(** ** The remote store *)

(** The body of a GET response, read as a stream.  [chunk] is the number of
    bytes the transport hands over in one [Read] at most. *)
Record Body := mkBody
  { content : list byte;
    chunk : nat }.

(** [body.Read(buf)]: overwrites a prefix of [buf] in place, never more than
    [len buf] bytes; the slice keeps its length. *)
Definition Body_Read (body : Body) (buf : list byte) : list byte :=
  let n := Nat.min (List.length buf) (Nat.min (chunk body) (List.length (content body))) in
  firstn n (content body) ++ skipn n buf.

(** An [io.Reader] given to [http.NewRequest] as the request body.
    [NewRequest] knows the length of a [*bytes.Reader]; for any other reader
    (here a response body) [ContentLength] stays 0. *)
Inductive Reader : Type :=
| bytes_NewReader (b : list byte)
| body_Reader (b : Body).

Definition Reader_bytes (r : Reader) : list byte :=
  match r with
  | bytes_NewReader b => b
  | body_Reader b => content b
  end.

Definition ContentLength (r : Reader) : Z :=
  match r with
  | bytes_NewReader b => len b
  | body_Reader _ => 0
  end.

(** The requests the client sends, with the arguments that reach the wire. *)
Inductive Request : Type :=
| ReqInitMultiUpload (bucket object : string)
| ReqUploadPart (bucket object : string) (uploadId partNumber : Z) (body : list byte)
| ReqCompleteMultiUpload (bucket object : string) (uploadId : Z) (uploadParts : UploadParts)
| ReqAbortMultiUpload (bucket object : string) (uploadId : Z)
| ReqGetObject (bucket object : string)
| ReqGetObjectRange (bucket object objRange : string)
| ReqListUploadParts (bucket object : string) (uploadId : Z)
| ReqListMultiResult (bucket keyMarker : string).

Definition Trace := list Request.

(** What [getNosRequest] followed by [httpClient.Do] gives: an error (the
    request could not be built or sent), or a response with its status code,
    status line, [Etag] header and body.  For XML bodies [A] is
    [error + T]: the outcome of [parseXmlBody] into a [T]. *)
Inductive HttpReply (A : Type) : Type :=
| DoError (err : error)
| Response (StatusCode : Z) (Status : string) (HeaderEtag : string) (body : A).
Arguments DoError {A} err.
Arguments Response {A} StatusCode Status HeaderEtag body.

Definition StatusOK : Z := 200.
Definition StatusPartialContent : Z := 206.

(** The store behind the client.  Each reply may depend on every request
    made before it. *)
Record Remote := mkRemote
  { reply_InitMultiUpload :
      Trace -> string -> string -> HttpReply (error + InitMultiUploadResult);
    reply_UploadPart :
      Trace -> string -> string -> Z -> Z -> list byte -> HttpReply unit;
    reply_CompleteMultiUpload :
      Trace -> string -> string -> Z -> UploadParts ->
      HttpReply (error + CompleteMultipartUploadResult);
    reply_AbortMultiUpload :
      Trace -> string -> string -> Z -> HttpReply unit;
    reply_GetObject :
      Trace -> string -> string -> HttpReply Body;
    reply_GetObjectRange :
      Trace -> string -> string -> string -> HttpReply Body;
    reply_ListUploadParts :
      Trace -> string -> string -> Z -> HttpReply (error + ListPartsResult);
    reply_ListMultiResult :
      Trace -> string -> string -> HttpReply (error + ListMultiResult) }.

(** ** A state monad over the trace of requests *)

Definition M (A : Type) : Type := Trace -> A * Trace.

Definition ret {A : Type} (a : A) : M A := fun t => (a, t).

Definition bind {A B : Type} (m : M A) (f : A -> M B) : M B :=
  fun t => let (a, t') := m t in f a t'.

Declare Scope nos_scope.
Delimit Scope nos_scope with nos.
Notation "x <- m ;; k" := (bind m (fun x => k))
  (at level 100, m at next level, right associativity) : nos_scope.
Notation "' p <- m ;; k" := (bind m (fun x => let p := x in k))
  (at level 100, p pattern, m at next level, right associativity) : nos_scope.
Open Scope nos_scope.

(** Sends [req]: the request is appended to the trace and the store's reply
    is returned. *)
Definition Do {A : Type} (req : Request) (reply : Trace -> HttpReply A) : M (HttpReply A) :=
  fun t => (reply t, t ++ [req]).

(** ** nos_client.go: the client methods the writer uses *)

Module NosClient.

(* The methods [UploadPart] and [ListMultiResult] share their names with the
   result types; inside this module the types go by these names. *)
Local Abbreviation UploadPart_t := UploadPart (only parsing).
Local Abbreviation ListMultiResult_t := ListMultiResult (only parsing).

Section Client.

Variable remote : Remote.

Definition MAX_TYR_TIMES : nat := 8.

Definition GetObject (bucket object : string) : M (error + Body) :=
  r <- Do (ReqGetObject bucket object)
          (fun t => reply_GetObject remote t bucket object) ;;
  match r with
  | DoError err => ret (inl err)
  | Response code status _ body =>
      if code =? StatusOK then ret (inr body) else ret (inl (Errorf status))
  end.

Definition GetObjectRange (bucket object objRange : string) : M (error + Body) :=
  r <- Do (ReqGetObjectRange bucket object objRange)
          (fun t => reply_GetObjectRange remote t bucket object objRange) ;;
  match r with
  | DoError err => ret (inl err)
  | Response code status _ body =>
      if code =? StatusPartialContent then ret (inr body) else ret (inl (Errorf status))
  end.

Definition InitMultiUpload (bucket object : string) : M (error + InitMultiUploadResult) :=
  r <- Do (ReqInitMultiUpload bucket object)
          (fun t => reply_InitMultiUpload remote t bucket object) ;;
  match r with
  | DoError err => ret (inl err)
  | Response code status _ body =>
      if code =? StatusOK then ret body else ret (inl (Errorf status))
  end.

Definition UploadPart (bucket object : string) (uploadId partNumber : Z)
    (content : Reader) : M (error + UploadPart_t) :=
  let size := ContentLength content in
  r <- Do (ReqUploadPart bucket object uploadId partNumber (Reader_bytes content))
          (fun t => reply_UploadPart remote t bucket object uploadId partNumber
                      (Reader_bytes content)) ;;
  match r with
  | DoError err => ret (inl err)
  | Response code status etag _ =>
      if code =? StatusOK then
        if String.eqb etag "" then ret (inl (Errorf "No Etag Header"))
        else ret (inr (mkUploadPart partNumber etag size))
      else ret (inl (Errorf status))
  end.

Definition UploadPartCopy (bucket object : string) (uploadId partNumber : Z)
    (srcObject srcObjRange : string) : M (error + UploadPart_t) :=
  r <- (if String.eqb srcObjRange ""
        then GetObjectRange bucket srcObject srcObjRange
        else GetObject bucket srcObject) ;;
  match r with
  | inl err => ret (inl err)
  | inr srcBody => UploadPart bucket object uploadId partNumber (body_Reader srcBody)
  end.

(** [xml.Marshal] of an [UploadParts] value does not fail, so the request
    is always made. *)
Definition CompleteMultiUpload (bucket object : string) (uploadId : Z)
    (uploadParts : UploadParts) : M (error + CompleteMultipartUploadResult) :=
  r <- Do (ReqCompleteMultiUpload bucket object uploadId uploadParts)
          (fun t => reply_CompleteMultiUpload remote t bucket object uploadId uploadParts) ;;
  match r with
  | DoError err => ret (inl err)
  | Response code status _ body =>
      if code =? StatusOK then ret body else ret (inl (Errorf status))
  end.

Definition AbortMultiUpload (bucket object : string) (uploadId : Z) : M (option error) :=
  r <- Do (ReqAbortMultiUpload bucket object uploadId)
          (fun t => reply_AbortMultiUpload remote t bucket object uploadId) ;;
  match r with
  | DoError err => ret (Some err)
  | Response code status _ _ =>
      if code =? StatusOK then ret None else ret (Some (Errorf status))
  end.

(** [maxParts] and [marker] are accepted and not sent. *)
Definition ListUploadParts (bucket object : string) (uploadId : Z)
    (maxParts marker : Z) : M (error + ListPartsResult) :=
  r <- Do (ReqListUploadParts bucket object uploadId)
          (fun t => reply_ListUploadParts remote t bucket object uploadId) ;;
  match r with
  | DoError err => ret (inl err)
  | Response code status _ body =>
      if code =? StatusOK then ret body else ret (inl (Errorf status))
  end.

Definition ListMultiResult (bucket keyMarker : string) : M (error + ListMultiResult_t) :=
  r <- Do (ReqListMultiResult bucket keyMarker)
          (fun t => reply_ListMultiResult remote t bucket keyMarker) ;;
  match r with
  | DoError err => ret (inl err)
  | Response code status _ body =>
      if code =? StatusOK then ret body else ret (inl (Errorf status))
  end.

(** The loop of [ListMulti]; [i] counts down from [MAX_TYR_TIMES] and
    [multis] accumulates the uploads whose key has the prefix. *)
Fixpoint ListMulti_loop (i : nat) (bucket prefix keyMarker : string)
    (multis : list Upload) : M (error + list Upload) :=
  match i with
  | O => ret (inr multis)
  | S i' =>
      r <- ListMultiResult bucket keyMarker ;;
      match r with
      | inl err => ret (inl err)
      | inr result =>
          let multis := multis ++ filter (fun multi => String.prefix prefix (u_Key multi))
                                         (lmr_Uploads result) in
          if negb (lmr_IsTruncated result) then ret (inr multis)
          else ListMulti_loop i' bucket prefix (lmr_NextKeyMarker result) multis
      end
  end.

Definition ListMulti (bucket prefix delimiter keyMarker : string) : M (error + list Upload) :=
  ListMulti_loop MAX_TYR_TIMES bucket prefix keyMarker [].

End Client.
End NosClient.

(** ** The driver and its writer *)

(** [const minChunkSize = 5 << 20] and [defaultChunkSize].  The writer below
    takes the floor as a parameter [minChunkSize], so that it can also be run
    with the small floors of the test scenarios; the driver runs it at
    [minChunkSize_NOS]. *)
Definition minChunkSize_NOS : Z := Z.shiftl 5 20.
Definition defaultChunkSize : Z := 2 * minChunkSize_NOS.

(** The fields of [driver] that the writer reads ([Client] is the [Remote]). *)
Record driver := mkDriver
  { Bucket : string;
    ChunkSize : Z }.          (* int64 *)

Record writer := mkWriter
  { w_driver : driver;
    w_key : string;
    w_multi : Multi;
    w_parts : list UploadPartRet;
    w_size : Z;               (* int64 *)
    w_readyPart : list byte;
    w_pendingPart : list byte;
    w_closed : bool;
    w_committed : bool;
    w_cancelled : bool }.

(** Field assignments [w.f = v]. *)
Definition set_multi (w : writer) (v : Multi) : writer :=
  mkWriter (w_driver w) (w_key w) v (w_parts w) (w_size w) (w_readyPart w)
           (w_pendingPart w) (w_closed w) (w_committed w) (w_cancelled w).
Definition set_parts (w : writer) (v : list UploadPartRet) : writer :=
  mkWriter (w_driver w) (w_key w) (w_multi w) v (w_size w) (w_readyPart w)
           (w_pendingPart w) (w_closed w) (w_committed w) (w_cancelled w).
Definition set_size (w : writer) (v : Z) : writer :=
  mkWriter (w_driver w) (w_key w) (w_multi w) (w_parts w) v (w_readyPart w)
           (w_pendingPart w) (w_closed w) (w_committed w) (w_cancelled w).
Definition set_readyPart (w : writer) (v : list byte) : writer :=
  mkWriter (w_driver w) (w_key w) (w_multi w) (w_parts w) (w_size w) v
           (w_pendingPart w) (w_closed w) (w_committed w) (w_cancelled w).
Definition set_pendingPart (w : writer) (v : list byte) : writer :=
  mkWriter (w_driver w) (w_key w) (w_multi w) (w_parts w) (w_size w) (w_readyPart w)
           v (w_closed w) (w_committed w) (w_cancelled w).
Definition set_closed (w : writer) (v : bool) : writer :=
  mkWriter (w_driver w) (w_key w) (w_multi w) (w_parts w) (w_size w) (w_readyPart w)
           (w_pendingPart w) v (w_committed w) (w_cancelled w).
Definition set_committed (w : writer) (v : bool) : writer :=
  mkWriter (w_driver w) (w_key w) (w_multi w) (w_parts w) (w_size w) (w_readyPart w)
           (w_pendingPart w) (w_closed w) v (w_cancelled w).
Definition set_cancelled (w : writer) (v : bool) : writer :=
  mkWriter (w_driver w) (w_key w) (w_multi w) (w_parts w) (w_size w) (w_readyPart w)
           (w_pendingPart w) (w_closed w) (w_committed w) v.

(** [for _, part := range parts { size += int64(part.Size) }] *)
Definition sum_sizes (parts : list UploadPartRet) : Z :=
  fold_left (fun size part => int64 (size + int64 (upr_Size part))) parts 0.

Definition newWriter (d : driver) (key : string) (multi : Multi)
    (parts : list UploadPartRet) : writer :=
  mkWriter d key multi parts (sum_sizes parts) [] [] false false false.

Definition TranslateToUploadParts (uploadPartIn : list UploadPartRet) : UploadParts :=
  fold_left (fun parts part =>
               UploadParts_Append parts (mkUploadPart (int32 (upr_PartNumber part)) (upr_Etag part) 0))
            uploadPartIn [].

(** [UploadPartRet{PartNumber: int(part.PartNumber), Etag: part.Etag, Size: int(part.Size)}] *)
Definition toUploadPartRet (part : UploadPart) : UploadPartRet :=
  mkUploadPartRet (up_PartNumber part) "" (up_Etag part) (up_Size part).

(** [w.parts[len(w.parts)-1].Size], guarded by [len(w.parts) > 0]. *)
Definition last_Size (parts : list UploadPartRet) : option Z :=
  match rev parts with
  | [] => None
  | part :: _ => Some (upr_Size part)
  end.

(** [strings.TrimLeft(path, "/")] *)
Fixpoint TrimLeft_slash (path : string) : string :=
  match path with
  | String c rest => if Ascii.eqb c "/"%char then TrimLeft_slash rest else path
  | EmptyString => EmptyString
  end.

Definition nosPath (path : string) : string := TrimLeft_slash path.

Definition parseError (path : string) (err : error) : error :=
  if String.prefix "404" (Error err) then PathNotFoundError path else err.

Section Writer.

Variable minChunkSize : Z.
Variable remote : Remote.

(** *** flushPart *)
Definition flushPart (w : writer) : M (option error * writer) :=
  if (len (w_readyPart w) =? 0) && (len (w_pendingPart w) =? 0) then
    ret (None, w)
  else
    let w :=
      if len (w_pendingPart w) <? ChunkSize (w_driver w) then
        set_pendingPart (set_readyPart w (w_readyPart w ++ w_pendingPart w)) []
      else w in
    r <- NosClient.UploadPart remote (Bucket (w_driver w)) (w_key w)
           (m_UploadId (w_multi w)) (int32 (len (w_parts w) + 1))
           (bytes_NewReader (w_readyPart w)) ;;
    match r with
    | inl err => ret (Some err, w)
    | inr part =>
        let w := set_parts w (w_parts w ++ [toUploadPartRet part]) in
        let w := set_readyPart w (w_pendingPart w) in
        let w := set_pendingPart w [] in
        ret (None, w)
    end.

(** *** Write *)

(** The first block of [Write]: a last part below [minChunkSize] makes the
    writer complete the session and start a new one.  [Some err] is the
    early [return 0, err]. *)
Definition Write_newMultipart (w : writer) : M (option error * writer) :=
  match last_Size (w_parts w) with
  | None => ret (None, w)
  | Some lastSize =>
    if lastSize <? minChunkSize then
      r <- NosClient.CompleteMultiUpload remote (Bucket (w_driver w)) (w_key w)
             (m_UploadId (w_multi w)) (TranslateToUploadParts (w_parts w)) ;;
      match r with
      | inl err =>
          _ <- NosClient.AbortMultiUpload remote (Bucket (w_driver w)) (w_key w)
                 (m_UploadId (w_multi w)) ;;
          ret (Some err, w)
      | inr _ =>
          r <- NosClient.InitMultiUpload remote (Bucket (w_driver w)) (w_key w) ;;
          match r with
          | inl err => ret (Some err, w)
          | inr multi =>
              let w := set_multi w (initMulti multi) in
              if w_size w <? minChunkSize then
                r <- NosClient.GetObject remote (Bucket (w_driver w)) (w_key w) ;;
                match r with
                | inl err => ret (Some err, w)
                | inr contents =>
                    let w := set_parts w [] in
                    (* contents.Read(w.readyPart) *)
                    let w := set_readyPart w (Body_Read contents (w_readyPart w)) in
                    ret (None, w)
                end
              else
                r <- NosClient.UploadPartCopy remote (Bucket (w_driver w)) (w_key w)
                       (m_UploadId (w_multi w)) 1 (w_key w) "" ;;
                match r with
                | inl err => ret (Some err, w)
                | inr part => ret (None, set_parts w [toUploadPartRet part])
                end
          end
      end
    else ret (None, w)
  end.

(** The first [if] of the loop body: top up [readyPart].  Gives the writer,
    the rest of [p] and the count [n]. *)
Definition fill_ready (w : writer) (p : list byte) (n : Z) : writer * list byte * Z :=
  let neededBytes := ChunkSize (w_driver w) - len (w_readyPart w) in
  if neededBytes >? 0 then
    if len p >=? neededBytes then
      (set_readyPart w (w_readyPart w ++ slice_to neededBytes p),
       slice_from neededBytes p, n + neededBytes)
    else
      (set_readyPart w (w_readyPart w ++ p), [], n + len p)
  else (w, p, n).

(** [for len(p) > 0 { ... }].  [None] stands for a loop that has not
    returned within [fuel] iterations. *)
Fixpoint Write_loop (fuel : nat) (w : writer) (p : list byte) (n : Z)
    : M (option (Z * option error * writer)) :=
  match fuel with
  | O => ret None
  | S fuel =>
    if len p >? 0 then
      let '(w, p, n) := fill_ready w p n in
      let neededBytes := ChunkSize (w_driver w) - len (w_pendingPart w) in
      if neededBytes >? 0 then
        if len p >=? neededBytes then
          let w := set_pendingPart w (w_pendingPart w ++ slice_to neededBytes p) in
          let n := n + neededBytes in
          let p := slice_from neededBytes p in
          r <- flushPart w ;;
          match r with
          | (Some err, w) => ret (Some (n, Some err, set_size w (int64 (w_size w + n))))
          | (None, w) => Write_loop fuel w p n
          end
        else
          let w := set_pendingPart w (w_pendingPart w ++ p) in
          Write_loop fuel w [] (n + len p)
      else Write_loop fuel w p n
    else
      ret (Some (n, None, set_size w (int64 (w_size w + n))))
  end.

(** [Write(p)] gives [(n, err)] and the writer after the call.  Every
    iteration of the loop that changes anything takes at least one byte
    from [p], so [S (length p)] iterations are enough whenever the loop
    ends at all; [None] is a call that never returns
    ([Write_loop_None_forever]). *)
Definition Write (w : writer) (p : list byte) : M (option (Z * option error * writer)) :=
  if w_closed w then ret (Some (0, Some (Errorf "already closed"), w))
  else if w_committed w then ret (Some (0, Some (Errorf "already committed"), w))
  else if w_cancelled w then ret (Some (0, Some (Errorf "already cancelled"), w))
  else
    r <- Write_newMultipart w ;;
    match r with
    | (Some err, w) => ret (Some (0, Some err, w))
    | (None, w) => Write_loop (S (List.length p)) w p 0
    end.

Definition Size (w : writer) : Z := w_size w.

(** *** Close, Cancel, Commit *)

Definition Close (w : writer) : M (option error * writer) :=
  if w_closed w then ret (Some (Errorf "already closed"), w)
  else flushPart (set_closed w true).

Definition Cancel (w : writer) : M (option error * writer) :=
  if w_closed w then ret (Some (Errorf "already closed"), w)
  else if w_committed w then ret (Some (Errorf "already committed"), w)
  else
    let w := set_cancelled w true in
    err <- NosClient.AbortMultiUpload remote (Bucket (w_driver w)) (w_key w)
             (m_UploadId (w_multi w)) ;;
    ret (err, w).

Definition Commit (w : writer) : M (option error * writer) :=
  if w_closed w then ret (Some (Errorf "already closed"), w)
  else if w_committed w then ret (Some (Errorf "already committed"), w)
  else if w_cancelled w then ret (Some (Errorf "already cancelled"), w)
  else
    r <- flushPart w ;;
    match r with
    | (Some err, w) => ret (Some err, w)
    | (None, w) =>
        let w := set_committed w true in
        r <- NosClient.CompleteMultiUpload remote (Bucket (w_driver w)) (w_key w)
               (m_UploadId (w_multi w)) (TranslateToUploadParts (w_parts w)) ;;
        match r with
        | inl err =>
            _ <- NosClient.AbortMultiUpload remote (Bucket (w_driver w)) (w_key w)
                   (m_UploadId (w_multi w)) ;;
            ret (Some err, w)
        | inr _ => ret (None, w)
        end
    end.

(** *** driver.Writer *)

(** [for _, multi := range multis { ... }] followed by the final
    [return nil, PathNotFoundError]. *)
Fixpoint Writer_range (d : driver) (path key : string) (multis : list Upload)
    : M (error + writer) :=
  match multis with
  | [] => ret (inl (PathNotFoundError path))
  | multi :: multis =>
      if negb (String.eqb key (u_Key multi)) then Writer_range d path key multis
      else
        r <- NosClient.ListUploadParts remote (Bucket d) key (u_UploadId multi) 1000 0 ;;
        match r with
        | inl err => ret (inl (parseError path err))
        | inr parts => ret (inr (newWriter d key (newMulti multi) (lpr_Parts parts)))
        end
  end.

Definition Writer (d : driver) (path : string) (apd : bool) : M (error + writer) :=
  let key := nosPath path in
  if negb apd then
    r <- NosClient.InitMultiUpload remote (Bucket d) key ;;
    match r with
    | inl err => ret (inl err)
    | inr multi => ret (inr (newWriter d key (initMulti multi) []))
    end
  else
    r <- NosClient.ListMulti remote (Bucket d) key "" "" ;;
    match r with
    | inl err => ret (inl (parseError path err))
    | inr multis => Writer_range d path key multis
    end.

End Writer.

(** ** Sequences of operations on a writer *)

Inductive op : Type :=
| OpWrite (p : list byte)
| OpClose
| OpCancel
| OpCommit.

Section Runs.

Variable minChunkSize : Z.
Variable remote : Remote.

(** One call on the writer: its error result and the writer afterwards;
    [None] when the call does not return. *)
Definition apply_op (w : writer) (o : op) : M (option (option error * writer)) :=
  match o with
  | OpWrite p =>
      r <- Write minChunkSize remote w p ;;
      match r with
      | Some (_, err, w) => ret (Some (err, w))
      | None => ret None
      end
  | OpClose => r <- Close remote w ;; ret (Some r)
  | OpCancel => r <- Cancel remote w ;; ret (Some r)
  | OpCommit => r <- Commit remote w ;; ret (Some r)
  end.

(** The calls of [ops] one after the other, with the error each returned. *)
Fixpoint run_ops (w : writer) (ops : list op) : M (option (list (option error) * writer)) :=
  match ops with
  | [] => ret (Some ([], w))
  | o :: ops =>
      r <- apply_op w o ;;
      match r with
      | None => ret None
      | Some (err, w) =>
          r <- run_ops w ops ;;
          match r with
          | None => ret None
          | Some (errs, w) => ret (Some (err :: errs, w))
          end
      end
  end.

(** The writers a caller can hold: made by [newWriter], then used through
    [Write], [Close], [Cancel] and [Commit] only. *)
Inductive Reachable : writer -> Trace -> Prop :=
| Reachable_new d key multi parts t :
    Reachable (newWriter d key multi parts) t
| Reachable_op w t o err w' t' :
    Reachable w t ->
    apply_op w o t = (Some (err, w'), t') ->
    Reachable w' t'.

(** Successive [Write] calls: the count each returned, and the writer. *)
Fixpoint Writes (w : writer) (ps : list (list byte))
    : M (option (list (Z * option error) * writer)) :=
  match ps with
  | [] => ret (Some ([], w))
  | p :: ps =>
      r <- Write minChunkSize remote w p ;;
      match r with
      | None => ret None
      | Some (n, err, w) =>
          r <- Writes w ps ;;
          match r with
          | None => ret None
          | Some (rs, w) => ret (Some ((n, err) :: rs, w))
          end
      end
  end.

End Runs.

(** The errors of a call made in a terminal state. *)
Definition StateError (err : option error) : Prop :=
  err = Some (Errorf "already closed") \/
  err = Some (Errorf "already committed") \/
  err = Some (Errorf "already cancelled").

Definition terminal (w : writer) : bool :=
  w_closed w || w_committed w || w_cancelled w.

(** At most one of the three flags is set. *)
Definition at_most_one_flag (w : writer) : bool :=
  negb (w_closed w && w_committed w) &&
  negb (w_closed w && w_cancelled w) &&
  negb (w_committed w && w_cancelled w).

(** The three flags of [w'] are those of [w]. *)
Definition same_flags (w w' : writer) : Prop :=
  w_closed w' = w_closed w /\ w_committed w' = w_committed w /\
  w_cancelled w' = w_cancelled w.

(** ** The listing of outstanding uploads, page by page *)

(** [Paged remote bucket t keyMarker results more t']: starting at
    [keyMarker], the listing was requested once per element of [results],
    each request with the marker the page before it named, every page but
    the last saying it is truncated; [more] is what the last page says. *)
Inductive Paged (remote : Remote) (bucket : string)
  : Trace -> string -> list ListMultiResult -> bool -> Trace -> Prop :=
| Paged_last t keyMarker result t' :
    NosClient.ListMultiResult remote bucket keyMarker t = (inr result, t') ->
    Paged remote bucket t keyMarker [result] (lmr_IsTruncated result) t'
| Paged_more t keyMarker result t1 results more t' :
    NosClient.ListMultiResult remote bucket keyMarker t = (inr result, t1) ->
    lmr_IsTruncated result = true ->
    Paged remote bucket t1 (lmr_NextKeyMarker result) results more t' ->
    Paged remote bucket t keyMarker (result :: results) more t'.


(** The body of the loop of [driver.Writer] for an upload with the key. *)
Definition Writer_resume (remote : Remote) (d : driver) (path key : string)
    (multi : Upload) : M (error + writer) :=
  r <- NosClient.ListUploadParts remote (Bucket d) key (u_UploadId multi) 1000 0 ;;
  match r with
  | inl err => ret (inl (parseError path err))
  | inr parts => ret (inr (newWriter d key (newMulti multi) (lpr_Parts parts)))
  end.

(** Part numbers in strictly ascending order. *)
Fixpoint ascending (l : list Z) : bool :=
  match l with
  | a :: ((b :: _) as rest) => (a <? b) && ascending rest
  | _ => true
  end.

(** ** Chunking *)

(** The store accepts every part: it answers each upload with 200 and an
    [Etag] header. *)
Definition uploads_accepted (remote : Remote) : Prop :=
  forall t bucket object uploadId partNumber body,
  exists status etag,
    reply_UploadPart remote t bucket object uploadId partNumber body
    = Response StatusOK status etag tt
    /\ etag <> "".

Definition part_sizes (w : writer) : list Z := map upr_Size (w_parts w).

(** The part sizes that [N] bytes come to with chunk size [C]: nothing for
    no bytes; one part when [N < C]; otherwise full chunks, the last of them
    taking the remainder with it. *)
Definition chunk_sizes (C N : Z) : list Z :=
  if N <=? 0 then []
  else if N <? C then [N]
  else repeat C (Z.to_nat (N / C - 1)) ++ [C + N mod C].

(** An open writer with chunk size [C] that has taken [T] bytes since it
    was opened for a new session and has had every flush accepted: all its
    parts are full chunks, [readyPart] fills before [pendingPart] gets
    anything, and [pendingPart] is never left full. *)
Definition Chunked (C : Z) (w : writer) (T : Z) : Prop :=
  ChunkSize (w_driver w) = C /\
  terminal w = false /\
  len (w_readyPart w) <= C /\
  len (w_pendingPart w) < C /\
  (len (w_readyPart w) < C -> w_pendingPart w = [] /\ w_parts w = []) /\
  Forall (fun part => upr_Size part = C) (w_parts w) /\
  T = C * len (w_parts w) + len (w_readyPart w) + len (w_pendingPart w).

Section WritesThenCommit.

Variable minChunkSize : Z.
Variable remote : Remote.

(** The [Write] calls of [ps] in turn, then [Commit]: the result of
    [Commit] and the writer at the end. *)
Definition Writes_then_Commit (w : writer) (ps : list (list byte))
    : M (option (option error * writer)) :=
  r <- Writes minChunkSize remote w ps ;;
  match r with
  | None => ret None
  | Some (_, w) => r <- Commit remote w ;; ret (Some r)
  end.

End WritesThenCommit.

(** ** Stores used in the examples *)

(** A store that accepts everything: uploads get the etag ["etag"], a new
    session gets the id 1, listings and objects are empty. *)
Definition ok_remote : Remote :=
  mkRemote
    (fun _ bucket object =>
       Response StatusOK "200 OK" "" (inr (mkInitMultiUploadResult bucket object 1)))
    (fun _ _ _ _ _ _ => Response StatusOK "200 OK" "etag" tt)
    (fun _ bucket object _ _ =>
       Response StatusOK "200 OK" ""
                (inr (mkCompleteMultipartUploadResult "" bucket object "etag")))
    (fun _ _ _ _ => Response StatusOK "200 OK" "" tt)
    (fun _ _ _ => Response StatusOK "200 OK" "" (mkBody [] 0))
    (fun _ _ _ _ => Response StatusPartialContent "206 Partial Content" "" (mkBody [] 0))
    (fun _ _ _ _ => Response StatusOK "200 OK" "" (inr (mkListPartsResult 0 false [])))
    (fun _ _ _ => Response StatusOK "200 OK" "" (inr (mkListMultiResult "" [] false))).

(** [ok_remote], except that Complete answers 500 and Abort answers 503. *)
Definition failing_complete_remote : Remote :=
  mkRemote
    (reply_InitMultiUpload ok_remote)
    (reply_UploadPart ok_remote)
    (fun _ _ _ _ _ => Response 500 "500 Internal Server Error" "" (inl (Errorf "")))
    (fun _ _ _ _ => Response 503 "503 Service Unavailable" "" tt)
    (reply_GetObject ok_remote)
    (reply_GetObjectRange ok_remote)
    (reply_ListUploadParts ok_remote)
    (reply_ListMultiResult ok_remote).

Definition test_driver : driver := mkDriver "bucket" 10.

Definition bytes_abc : list byte := [x61; x62; x63].

(** A writer for a new session, as [Writer(path, false)] makes it. *)
Definition fresh_writer : writer := newWriter test_driver "key" (mkMulti "key" 1) [].


(** One outstanding upload for ["key"], whose parts the store lists as
    part 2, then part 1, and marks the listing as truncated. *)
Definition unordered_parts_remote : Remote :=
  mkRemote
    (reply_InitMultiUpload ok_remote)
    (reply_UploadPart ok_remote)
    (reply_CompleteMultiUpload ok_remote)
    (reply_AbortMultiUpload ok_remote)
    (reply_GetObject ok_remote)
    (reply_GetObjectRange ok_remote)
    (fun _ _ _ _ =>
       Response StatusOK "200 OK" ""
         (inr (mkListPartsResult 2 true
                 [mkUploadPartRet 2 "" "e2" 10; mkUploadPartRet 1 "" "e1" 10])))
    (fun _ _ _ =>
       Response StatusOK "200 OK" "" (inr (mkListMultiResult "" [mkUpload "key" 7] false))).

Definition bytes_abcdef : list byte := [x61; x62; x63; x64; x65; x66].

(** A store holding the object ["src"] = "abcdef".  A GET gives the whole
    object with 200; a GET with the header [Range: bytes=0-1] gives "ab"
    with 206; a GET with any other [Range] header (the empty one too) gives
    the whole object with 200. *)
Definition object_store_remote : Remote :=
  mkRemote
    (reply_InitMultiUpload ok_remote)
    (reply_UploadPart ok_remote)
    (reply_CompleteMultiUpload ok_remote)
    (reply_AbortMultiUpload ok_remote)
    (fun _ _ _ => Response StatusOK "200 OK" "" (mkBody bytes_abcdef 6))
    (fun _ _ _ objRange =>
       if String.eqb objRange "bytes=0-1"
       then Response StatusPartialContent "206 Partial Content" "" (mkBody [x61; x62] 2)
       else Response StatusOK "200 OK" "" (mkBody bytes_abcdef 6))
    (reply_ListUploadParts ok_remote)
    (reply_ListMultiResult ok_remote).

(** [ok_remote] with the object ["key"] = "abc" in the store. *)
Definition stored_abc_remote : Remote :=
  mkRemote
    (reply_InitMultiUpload ok_remote)
    (reply_UploadPart ok_remote)
    (reply_CompleteMultiUpload ok_remote)
    (reply_AbortMultiUpload ok_remote)
    (fun _ _ _ => Response StatusOK "200 OK" "" (mkBody bytes_abc 3))
    (reply_GetObjectRange ok_remote)
    (reply_ListUploadParts ok_remote)
    (reply_ListMultiResult ok_remote).

(** The writer [Writer(path, true)] makes for the session 7 of ["key"],
    whose only part has 3 bytes. *)
Definition resumed_writer : writer :=
  newWriter test_driver "key" (mkMulti "key" 7) [mkUploadPartRet 1 "" "e1" 3].

Definition bytes_XY : list byte := [x58; x59].

(** [ok_remote], except that every upload of a part is answered with 500. *)
Definition rejecting_uploads_remote : Remote :=
  mkRemote
    (reply_InitMultiUpload ok_remote)
    (fun _ _ _ _ _ _ => Response 500 "500 Internal Server Error" "" tt)
    (reply_CompleteMultiUpload ok_remote)
    (reply_AbortMultiUpload ok_remote)
    (reply_GetObject ok_remote)
    (reply_GetObjectRange ok_remote)
    (reply_ListUploadParts ok_remote)
    (reply_ListMultiResult ok_remote).

Definition bytes_25 : list byte := repeat x00 25.

(** The sum of the counts returned by a run of [Write] calls. *)
Definition sum_counts (rs : list (Z * option error)) : Z :=
  fold_right (fun r acc => fst r + acc) 0 rs.

(** ** Part numbers and uploaded bytes *)

(** The parts are numbered 1, 2, 3, ... in order, as [int32] values. *)
Definition numbered_from_one (parts : list UploadPartRet) : Prop :=
  map upr_PartNumber parts
  = map (fun i => int32 (Z.of_nat i + 1)) (seq 0 (List.length parts)).

(** The bodies of the upload-part requests of a trace, one after the other. *)
Fixpoint uploaded (t : Trace) : list byte :=
  match t with
  | [] => []
  | ReqUploadPart _ _ _ _ body :: t => body ++ uploaded t
  | _ :: t => uploaded t
  end.

(** The requests of a trace that complete or abort a session. *)
Definition ends_session (r : Request) : bool :=
  match r with
  | ReqCompleteMultiUpload _ _ _ _ => true
  | ReqAbortMultiUpload _ _ _ => true
  | _ => false
  end.

Definition sum_Z (l : list Z) : Z := fold_right Z.add 0 l.

(** [k] slashes. *)
Fixpoint slashes (k : nat) : string :=
  match k with
  | O => EmptyString
  | S k => String "/"%char (slashes k)
  end.

(** The request is a listing of the outstanding uploads of [bucket]. *)
Definition lists_uploads_of (bucket : string) (r : Request) : Prop :=
  exists keyMarker, r = ReqListMultiResult bucket keyMarker.

(** The first page of the listing holds an upload for ["key"] and says that
    the listing goes on; the request for the second page is answered with
    404. *)
Definition second_page_missing_remote : Remote :=
  mkRemote
    (reply_InitMultiUpload ok_remote)
    (reply_UploadPart ok_remote)
    (reply_CompleteMultiUpload ok_remote)
    (reply_AbortMultiUpload ok_remote)
    (reply_GetObject ok_remote)
    (reply_GetObjectRange ok_remote)
    (reply_ListUploadParts ok_remote)
    (fun t _ _ =>
       match t with
       | [] => Response StatusOK "200 OK" ""
                        (inr (mkListMultiResult "next" [mkUpload "key" 7] true))
       | _ => Response 404 "404 Not Found" "" (inl (Errorf ""))
       end).

(** ** The driver's object operations: Stat, List, Delete *)

(** Go's [panic] (here: an index or a slice bound out of range). *)
Inductive result (A : Type) : Type :=
| Ok (a : A)
| Err (err : error)
| Panic.
Arguments Ok {A} a.
Arguments Err {A} err.
Arguments Panic {A}.

(** [s[len(s)-1]]; [None] where Go panics (empty string). *)
Fixpoint last_byte (s : string) : option ascii :=
  match s with
  | EmptyString => None
  | String c EmptyString => Some c
  | String _ rest => last_byte rest
  end.

(** [s[0:len(s)-1]]; [None] where Go panics (empty string). *)
Fixpoint drop_last_byte (s : string) : option string :=
  match s with
  | EmptyString => None
  | String c EmptyString => Some EmptyString
  | String c rest =>
      match drop_last_byte rest with
      | Some rest' => Some (String c rest')
      | None => None
      end
  end.

(** [strings.HasSuffix(s, suffix)] *)
Fixpoint HasSuffix (s suffix : string) : bool :=
  String.eqb s suffix ||
  match s with
  | EmptyString => false
  | String _ rest => HasSuffix rest suffix
  end.

(** [strings.Replace(s, "", "/", 1)]: with an empty [old] the one
    replacement is made at the beginning of [s]. *)
Definition Replace_empty_by_slash_once (s : string) : string := String "/"%char s.

Module Objects.

(** nos_response.go and nos_request.go, the fields the driver reads. *)
Record Contents := mkContents
  { c_Key : string;
    c_LastModified : string;
    c_Size : Z }.

Record CommonPrefix := mkCommonPrefix
  { cp_Prefix : string }.

Record ListObjectsResult := mkListObjectsResult
  { lor_CommonPrefixes : list CommonPrefix;
    lor_NextMarker : string;
    lor_IsTruncated : bool;
    lor_Contents : list Contents }.

Record DeleteObject := mkDeleteObject
  { do_Key : string }.

Record DeleteMultiObjects := mkDeleteMultiObjects
  { dmo_Quiet : bool;
    dmo_Objects : list DeleteObject }.

Definition DeleteMultiObjects_Append (deleteMulti : DeleteMultiObjects)
    (object : DeleteObject) : DeleteMultiObjects :=
  mkDeleteMultiObjects (dmo_Quiet deleteMulti) (dmo_Objects deleteMulti ++ [object]).

Definition listMax : Z := 1000.

Definition RFC1123_NOS : string := "Mon, 02 Jan 2006 15:04:05 Asia/Shanghai".
Definition RFC1123_NOS_GMT : string := "Mon, 02 Jan 2006 15:04:05 GMT".

(** The requests of these operations, with the arguments that reach the
    wire.  ([getNosRequest] leaves out a parameter whose value is empty.) *)
Inductive Request : Type :=
| ReqHeadObject (bucket object : string)
| ReqListObjects (bucket prefix delimiter marker : string) (maxKeys : Z)
| ReqDeleteMultiObjects (bucket : string) (delectObjects : DeleteMultiObjects).

Definition Trace := list Request.

(** The answer to a HEAD: the [Content-Length] and [Last-Modified] headers
    are what the client reads of it. *)
Inductive HeadReply : Type :=
| HeadError (err : error)
| HeadResponse (StatusCode : Z) (Status : string) (ContentLength LastModified : string).

Record Remote := mkRemote
  { reply_HeadObject : Trace -> string -> string -> HeadReply;
    reply_ListObjects :
      Trace -> string -> string -> string -> string -> Z ->
      HttpReply (error + ListObjectsResult);
    reply_DeleteMultiObjects :
      Trace -> string -> DeleteMultiObjects -> HttpReply unit }.

(** The state monad over the trace of these requests. *)
Definition M (A : Type) : Type := Trace -> A * Trace.

Definition ret {A : Type} (a : A) : M A := fun t => (a, t).

Definition bind {A B : Type} (m : M A) (f : A -> M B) : M B :=
  fun t => let (a, t') := m t in f a t'.

Declare Scope objects_scope.
Notation "x <- m ;; k" := (bind m (fun x => k))
  (at level 100, m at next level, right associativity) : objects_scope.
#[local] Open Scope objects_scope.

Record HeadObjectResult (Time : Type) := mkHeadObjectResult
  { hor_Size : Z;
    hor_ModTime : Time }.
Arguments mkHeadObjectResult {Time} hor_Size hor_ModTime.
Arguments hor_Size {Time} h.
Arguments hor_ModTime {Time} h.

(** [storagedriver.FileInfoFields] *)
Record FileInfoFields (Time : Type) := mkFileInfoFields
  { fi_Path : string;
    fi_Size : Z;
    fi_ModTime : Time;
    fi_IsDir : bool }.
Arguments mkFileInfoFields {Time} fi_Path fi_Size fi_ModTime fi_IsDir.
Arguments fi_Path {Time} f.
Arguments fi_Size {Time} f.
Arguments fi_ModTime {Time} f.
Arguments fi_IsDir {Time} f.

Section Operations.

(** [time.Time] with its zero value, [time.Parse(layout, value)] and
    [strconv.ParseInt(s, 10, 64)] are the Go library's. *)
Variable Time : Type.
Variable zeroTime : Time.
Variable time_Parse : string -> string -> error + Time.
Variable strconv_ParseInt : string -> error + Z.

Variable remote : Remote.

(** *** The client methods *)

(** [(nil, nil)], the answer for a 404, is [inr None].  The time parsed in
    the Shanghai layout is returned as parsed: [modTime.Add(-8 * time.Hour)]
    computes a new time and the code drops it. *)
Definition HeadObject (bucket object : string)
    : M (error + option (HeadObjectResult Time)) :=
  fun t =>
    (match reply_HeadObject remote t bucket object with
     | HeadError err => inl err
     | HeadResponse code status contentLength lastModified =>
         if code =? StatusOK then
           match strconv_ParseInt contentLength with
           | inl err => inl err
           | inr size =>
               match time_Parse RFC1123_NOS_GMT lastModified with
               | inr modTime => inr (Some (mkHeadObjectResult size modTime))
               | inl _ =>
                   match time_Parse RFC1123_NOS lastModified with
                   | inl err => inl err
                   | inr modTime => inr (Some (mkHeadObjectResult size modTime))
                   end
               end
           end
         else if code =? 404 then inr None
         else inl (Errorf status)
     end, t ++ [ReqHeadObject bucket object]).

Definition ListObjects (bucket prefix delimiter marker : string) (maxKeys : Z)
    : M (error + ListObjectsResult) :=
  fun t =>
    (match reply_ListObjects remote t bucket prefix delimiter marker maxKeys with
     | DoError err => inl err
     | Response code status _ body =>
         if code =? StatusOK then body else inl (Errorf status)
     end, t ++ [ReqListObjects bucket prefix delimiter marker maxKeys]).

Definition DeleteMultiObjects_ (bucket : string) (delectObjects : DeleteMultiObjects)
    : M (option error) :=
  fun t =>
    (match reply_DeleteMultiObjects remote t bucket delectObjects with
     | DoError err => Some err
     | Response code status _ _ =>
         if code =? StatusOK then None else Some (Errorf status)
     end, t ++ [ReqDeleteMultiObjects bucket delectObjects]).

(** *** Stat *)

Definition filePathSuffix : list string := ["/data"; "/link"; "/startedat"].

Definition fetchFileInfo (d : driver) (path : string)
    : M (error + option (FileInfoFields Time)) :=
  r <- HeadObject (Bucket d) (nosPath path) ;;
  match r with
  | inl err => ret (inl err)
  | inr None =>
      if existsb (fun suffix => HasSuffix path suffix) filePathSuffix
      then ret (inr None)
      else ret (inl (Errorf "directory, should list"))
  | inr (Some result) =>
      ret (inr (Some (mkFileInfoFields path (hor_Size result) (hor_ModTime result) false)))
  end.

Definition Stat (d : driver) (path : string) : M (error + FileInfoFields Time) :=
  r <- fetchFileInfo d path ;;
  match r with
  | inr (Some fileInfo) => ret (inr fileInfo)
  | inr None => ret (inl (PathNotFoundError path))
  | inl _ =>
      r <- ListObjects (Bucket d) (nosPath path) "" "" 1 ;;
      match r with
      | inl err => ret (inl err)
      | inr listObjectsResult =>
          match lor_Contents listObjectsResult with
          | [c] =>
              if negb (String.eqb (c_Key c) (nosPath path)) then
                ret (inr (mkFileInfoFields path 0 zeroTime true))
              else
                match time_Parse "2006-01-02T15:04:05 +0800" (c_LastModified c) with
                | inl err => ret (inl err)
                | inr timestamp =>
                    ret (inr (mkFileInfoFields path (c_Size c) timestamp false))
                end
          | _ =>
              match lor_CommonPrefixes listObjectsResult with
              | [_] => ret (inr (mkFileInfoFields path 0 zeroTime true))
              | _ => ret (inl (PathNotFoundError path))
              end
          end
      end
  end.

(** *** List *)

(** [if path != "/" && path[len(path)-1] != '/' { path = path + "/" }];
    [None] is the panic on the empty path. *)
Definition List_path (path : string) : option string :=
  if String.eqb path "/" then Some path
  else
    match last_byte path with
    | None => None
    | Some c => if Ascii.eqb c "/"%char then Some path else Some (String.append path "/")
    end.

(** The names for the common prefixes of one page; [None] is the panic of
    [prefix[0:len(prefix)-1]] on an empty prefix. *)
Fixpoint directory_names (commonPrefixes : list CommonPrefix) : option (list string) :=
  match commonPrefixes with
  | [] => Some []
  | commonPrefix :: rest =>
      match drop_last_byte (cp_Prefix commonPrefix) with
      | None => None
      | Some dir =>
          match directory_names rest with
          | None => None
          | Some dirs => Some (Replace_empty_by_slash_once dir :: dirs)
          end
      end
  end.

Definition file_names (contents : list Contents) : list string :=
  map (fun key => Replace_empty_by_slash_once (c_Key key)) contents.

(** The [for { ... }] of [List], entered with a page; the store decides
    when it ends, so the iterations are counted by [fuel] and [None] is a
    loop still running. *)
Fixpoint List_loop (fuel : nat) (d : driver) (path : string)
    (listObjectsResult : ListObjectsResult) (files directories : list string)
    : M (option (result (list string))) :=
  match fuel with
  | O => ret None
  | S fuel =>
      let files := files ++ file_names (lor_Contents listObjectsResult) in
      match directory_names (lor_CommonPrefixes listObjectsResult) with
      | None => ret (Some Panic)
      | Some dirs =>
          let directories := directories ++ dirs in
          if lor_IsTruncated listObjectsResult then
            r <- ListObjects (Bucket d) (nosPath path) "/"
                   (lor_NextMarker listObjectsResult) listMax ;;
            match r with
            | inl err => ret (Some (Err err))
            | inr listObjectsResult => List_loop fuel d path listObjectsResult files directories
            end
          else ret (Some (Ok (files ++ directories)))
      end
  end.

Definition List_ (fuel : nat) (d : driver) (path : string)
    : M (option (result (list string))) :=
  match List_path path with
  | None => ret (Some Panic)
  | Some path =>
      r <- ListObjects (Bucket d) (nosPath path) "/" "" listMax ;;
      match r with
      | inl err => ret (Some (Err err))
      | inr listObjectsResult => List_loop fuel d path listObjectsResult [] []
      end
  end.

(** *** Delete *)

(** [for _, key := range Contents { deleteMultiObjects.Append(...) }] *)
Definition Append_keys (deleteMultiObjects : DeleteMultiObjects) (contents : list Contents)
    : DeleteMultiObjects :=
  fold_left (fun dmo key => DeleteMultiObjects_Append dmo (mkDeleteObject (c_Key key)))
            contents deleteMultiObjects.

(** [for len(listObjectsResult.Contents) > 0 { ... }], counted by [fuel]. *)
Fixpoint Delete_loop (fuel : nat) (d : driver) (path : string)
    (listObjectsResult : ListObjectsResult) (deleteMultiObjects : DeleteMultiObjects)
    : M (option (option error)) :=
  match fuel with
  | O => ret None
  | S fuel =>
      match lor_Contents listObjectsResult with
      | [] => ret (Some None)
      | _ :: _ =>
          let deleteMultiObjects :=
            Append_keys deleteMultiObjects (lor_Contents listObjectsResult) in
          err <- DeleteMultiObjects_ (Bucket d) deleteMultiObjects ;;
          match err with
          | Some err => ret (Some (Some err))
          | None =>
              if negb (lor_IsTruncated listObjectsResult) then ret (Some None)
              else
                r <- ListObjects (Bucket d) (nosPath path) "" "" listMax ;;
                match r with
                | inl err => ret (Some (Some err))
                | inr listObjectsResult =>
                    Delete_loop fuel d path listObjectsResult deleteMultiObjects
                end
          end
      end
  end.

Definition Delete (fuel : nat) (d : driver) (path : string) : M (option (option error)) :=
  r <- ListObjects (Bucket d) (nosPath path) "" "" listMax ;;
  match r with
  | inl _ => ret (Some (Some (PathNotFoundError path)))
  | inr listObjectsResult =>
      match lor_Contents listObjectsResult with
      | [] => ret (Some (Some (PathNotFoundError path)))
      | _ :: _ =>
          Delete_loop fuel d path listObjectsResult (mkDeleteMultiObjects true [])
      end
  end.

End Operations.

(** The object lists of the delete requests of a trace, in order. *)
Fixpoint sent_deletes (t : Trace) : list (list DeleteObject) :=
  match t with
  | [] => []
  | ReqDeleteMultiObjects _ dmo :: t => dmo_Objects dmo :: sent_deletes t
  | _ :: t => sent_deletes t
  end.

(** Each list is the one before it (at first [start]) with more objects
    behind it. *)
Fixpoint each_extends (start : list DeleteObject) (sent : list (list DeleteObject)) : Prop :=
  match sent with
  | [] => True
  | objects :: sent =>
      (exists more, more <> [] /\ objects = start ++ more) /\ each_extends objects sent
  end.

(** The listing of [bucket] under [prefix], page by page: every request
    is answered, with the pages [results]; every page but the last says it is
    truncated and the last says it is not. *)
Inductive Listed (remote : Remote) (bucket prefix delimiter : string) (maxKeys : Z)
  : Trace -> string -> list ListObjectsResult -> Trace -> Prop :=
| Listed_last t marker result t' :
    ListObjects remote bucket prefix delimiter marker maxKeys t = (inr result, t') ->
    lor_IsTruncated result = false ->
    Listed remote bucket prefix delimiter maxKeys t marker [result] t'
| Listed_more t marker result t1 results t' :
    ListObjects remote bucket prefix delimiter marker maxKeys t = (inr result, t1) ->
    lor_IsTruncated result = true ->
    Listed remote bucket prefix delimiter maxKeys t1 (lor_NextMarker result) results t' ->
    Listed remote bucket prefix delimiter maxKeys t marker (result :: results) t'.

End Objects.

(** Every name [List] builds starts with a slash. *)
Definition starts_with_slash (name : string) : Prop :=
  exists rest, name = String "/"%char rest.

(** A store whose listing is one page, two objects and one common prefix
    under [a/], and which answers every HEAD with 404. *)
Definition listed_page : Objects.ListObjectsResult :=
  Objects.mkListObjectsResult [Objects.mkCommonPrefix "a/d/"] "" false
    [Objects.mkContents "a/b" "" 1; Objects.mkContents "a/c" "" 2].

Definition listing_remote : Objects.Remote :=
  Objects.mkRemote
    (fun _ _ _ => Objects.HeadResponse 404 "404 Not Found" "" "")
    (fun _ _ _ _ _ _ => Response 200 "200 OK" "" (inr listed_page))
    (fun _ _ _ => Response 200 "200 OK" "" tt).

(** Stand-ins for [time.Parse] and [strconv.ParseInt] that refuse every
    input, with [Z] for [time.Time]. *)
Definition refuse_time : string -> string -> error + Z :=
  fun _ _ => inl (Errorf "parsing time").

Definition refuse_int : string -> error + Z :=
  fun _ => inl (Errorf "parsing int").

(** ** The driver factory *)

(** A value of [map[string]interface{}], by the dynamic types that
    [FromParameters] tells apart. *)
#[warnings="-register-all"] Inductive param : Type :=
| PString (v : string)
| PInt64 (v : Z)
| PInt (v : Z)
| PUint (v : Z)
| PInt32 (v : Z)
| PUint32 (v : Z)
| PUint64 (v : Z)
| PSlice (v : list param)        (* []interface{} *)
| POther.

Record DriverParameters := mkDriverParameters
  { dp_AccessKey : string;
    dp_SecretKey : string;
    dp_Bucket : string;
    dp_ChunkSize : Z;
    dp_Endpoint : string;
    dp_Ncdn : string;
    dp_NcdnRepo : list string }.

(** [New]: of the driver it builds, [driver] above keeps the fields the
    writer reads.  It returns no error. *)
Definition New (params : DriverParameters) : driver :=
  mkDriver (dp_Bucket params) (dp_ChunkSize params).

Section Factory.

(** [fmt.Sprint], [fmt.Sprintf] and [strconv.ParseInt(v, 0, 64)] are the Go
    library's. *)
Variable Sprint : param -> string.
Variable Sprintf : string -> list param -> string.
Variable ParseInt : string -> error + Z.

(** The [chunksize] block of [FromParameters], on the result of the map
    lookup. *)
Definition FromParameters_chunkSize (chunkSizeParam : option param) : error + Z :=
  match chunkSizeParam with
  | None => inr defaultChunkSize
  | Some chunkSizeParam =>
      match
        match chunkSizeParam with
        | PString v =>
            match ParseInt v with
            | inl _ =>
                inl (Errorf (Sprintf "chunksize parameter must be an integer, %v invalid"
                                     [chunkSizeParam]))
            | inr vv => inr vv
            end
        | PInt64 v => inr v
        | PInt v | PUint v | PInt32 v | PUint32 v | PUint64 v => inr (int64 v)
        | _ => inl (Errorf (Sprintf "invalid value for chunksize: %v" [chunkSizeParam]))
        end
      with
      | inl err => inl err
      | inr chunkSize =>
          if chunkSize <? minChunkSize_NOS then
            inl (Errorf (Sprintf
                   "The chunksize %#v parameter should be a number that is larger than or equal to %d"
                   [PInt64 chunkSize; PInt minChunkSize_NOS]))
          else inr chunkSize
      end
  end.

(** The [ncdn_repo] block. *)
Definition FromParameters_ncdnRepo (ncdnRepoParam : option param) : error + list string :=
  match ncdnRepoParam with
  | None => inr []
  | Some (PSlice v) => inr (map Sprint v)
  | Some ncdnRepoParam =>
      inl (Errorf (Sprintf "invalid value for ncdn_repo: %v" [ncdnRepoParam]))
  end.

Definition FromParameters (parameters : string -> option param) : error + driver :=
  match parameters "accessKey" with
  | None => inl (Errorf "No accesskey parameter provided")
  | Some accessKey =>
      match parameters "secretKey" with
      | None => inl (Errorf "No secretKey parameter provided")
      | Some secretKey =>
          match parameters "bucket" with
          | None => inl (Errorf "No bucket parameter provided")
          | Some bucket =>
              if String.eqb (Sprint bucket) "" then
                inl (Errorf "No bucket parameter provided")
              else
                match FromParameters_chunkSize (parameters "chunksize") with
                | inl err => inl err
                | inr chunkSize =>
                    let endpoint :=
                      match parameters "endpoint" with
                      | Some endpoint => endpoint
                      | None => PString ""
                      end in
                    let ncdn :=
                      match parameters "ncdn" with
                      | Some ncdn => ncdn
                      | None => PString ""
                      end in
                    match FromParameters_ncdnRepo (parameters "ncdn_repo") with
                    | inl err => inl err
                    | inr ncdnRepo =>
                        inr (New (mkDriverParameters (Sprint accessKey) (Sprint secretKey)
                                    (Sprint bucket) chunkSize (Sprint endpoint)
                                    (Sprint ncdn) ncdnRepo))
                    end
                end
          end
      end
  end.

End Factory.

(** ** The resource of a signature *)



Section Signing.

(** [url.QueryEscape] is the Go library's. *)
Variable QueryEscape : string -> string.


End Signing.

(** Parameters for the examples: the keys and the bucket as strings and a
    chunk size of 8 MB. *)
Definition example_parameters (key : string) : option param :=
  if String.eqb key "accessKey" then Some (PString "ak")
  else if String.eqb key "secretKey" then Some (PString "sk")
  else if String.eqb key "bucket" then Some (PString "bucket")
  else if String.eqb key "chunksize" then Some (PInt (Z.shiftl 8 20))
  else None.

(** Stand-ins for [fmt.Sprint], [fmt.Sprintf], [strconv.ParseInt] and
    [url.QueryEscape] in the examples. *)
Definition example_Sprint (p : param) : string :=
  match p with
  | PString v => v
  | _ => "?"
  end.

Definition example_Sprintf (format : string) (args : list param) : string := format.


(* ================================================================== *)
(** * Properties *)

(** ** Running the monad *)

Ltac unfold_client :=
  unfold NosClient.CompleteMultiUpload, NosClient.AbortMultiUpload,
    NosClient.InitMultiUpload, NosClient.UploadPart, NosClient.GetObject,
    NosClient.GetObjectRange, NosClient.ListUploadParts, NosClient.ListMultiResult,
    Do, bind, ret in *.

(** Field reads of field assignments. *)
Ltac simpl_writer :=
  cbn [w_driver w_key w_multi w_parts w_size w_readyPart w_pendingPart w_closed
       w_committed w_cancelled set_multi set_parts set_size set_readyPart
       set_pendingPart set_closed set_committed set_cancelled newWriter] in *.

(** Turns the boolean comparisons among the hypotheses into propositions. *)
Ltac zbool :=
  repeat match goal with
         | H : (_ >? _) = _ |- _ => rewrite Z.gtb_ltb in H
         | H : (_ >=? _) = _ |- _ => rewrite Z.geb_leb in H
         | H : (_ <? _) = true |- _ => apply Z.ltb_lt in H
         | H : (_ <? _) = false |- _ => apply Z.ltb_ge in H
         | H : (_ <=? _) = true |- _ => apply Z.leb_le in H
         | H : (_ <=? _) = false |- _ => apply Z.leb_gt in H
         | H : (_ =? _) = true |- _ => apply Z.eqb_eq in H
         | H : (_ =? _) = false |- _ => apply Z.eqb_neq in H
         end.

(** Destructs the scrutinee of the first [match] or [if] of the goal. *)
Ltac break_match :=
  match goal with
  | |- context [match ?x with _ => _ end] => destruct x eqn:?
  end.

Ltac solve_same_flags :=
  repeat break_match;
  intros;
  repeat match goal with
         | H : (_, _) = (_, _) |- _ => inversion H; clear H; subst
         end;
  try discriminate; try (repeat split; reflexivity).

Lemma bind_eq {A B : Type} (m : M A) (f : A -> M B) (t : Trace) (a : A) (t' : Trace) :
  m t = (a, t') -> bind m f t = f a t'.
Proof. intros H. unfold bind. rewrite H. reflexivity. Qed.

Lemma CompleteMultiUpload_trace remote bucket object uploadId uploadParts t r t' :
  NosClient.CompleteMultiUpload remote bucket object uploadId uploadParts t = (r, t') ->
  t' = t ++ [ReqCompleteMultiUpload bucket object uploadId uploadParts].
Proof.
  unfold_client.
  destruct (reply_CompleteMultiUpload remote t bucket object uploadId uploadParts)
    as [e | code status etag body]; [ | destruct (code =? StatusOK) ];
    intros H; inversion H; reflexivity.
Qed.

Lemma AbortMultiUpload_trace remote bucket object uploadId t :
  snd (NosClient.AbortMultiUpload remote bucket object uploadId t)
  = t ++ [ReqAbortMultiUpload bucket object uploadId].
Proof.
  unfold_client.
  destruct (reply_AbortMultiUpload remote t bucket object uploadId)
    as [e | code status etag body]; [ | destruct (code =? StatusOK) ]; reflexivity.
Qed.

(** ** The terminal flags *)

Lemma same_flags_refl w : same_flags w w.
Proof. repeat split. Qed.

Lemma same_flags_trans w1 w2 w3 :
  same_flags w1 w2 -> same_flags w2 w3 -> same_flags w1 w3.
Proof. unfold same_flags. intuition congruence. Qed.

Section Flags.

Variable minChunkSize : Z.
Variable remote : Remote.

Lemma flushPart_flags w t err w' t' :
  flushPart remote w t = ((err, w'), t') -> same_flags w w'.
Proof. unfold flushPart. unfold_client. solve_same_flags. Qed.

Lemma Write_newMultipart_flags w t err w' t' :
  Write_newMultipart minChunkSize remote w t = ((err, w'), t') -> same_flags w w'.
Proof.
  unfold Write_newMultipart, NosClient.UploadPartCopy. unfold_client. solve_same_flags.
Qed.

Lemma fill_ready_flags w p n w' p' n' :
  fill_ready w p n = (w', p', n') -> same_flags w w'.
Proof. unfold fill_ready. solve_same_flags. Qed.

Lemma Write_loop_flags fuel :
  forall w p n t k err w' t',
    Write_loop remote fuel w p n t = (Some (k, err, w'), t') -> same_flags w w'.
Proof.
  induction fuel as [ | fuel IH ]; intros w p n t k err w' t' H; cbn [Write_loop] in H.
  - discriminate.
  - destruct (len p >? 0).
    + destruct (fill_ready w p n) as [[w1 p1] n1] eqn:Hfill.
      apply fill_ready_flags in Hfill.
      destruct (ChunkSize (w_driver w1) - len (w_pendingPart w1) >? 0).
      * destruct (len p1 >=? ChunkSize (w_driver w1) - len (w_pendingPart w1)).
        -- unfold bind in H.
           destruct (flushPart remote _ t) as [[ferr w2] t2] eqn:Hflush.
           apply flushPart_flags in Hflush.
           destruct ferr.
           ++ inversion H; subst. eapply same_flags_trans; [ exact Hfill | ].
              eapply same_flags_trans; [ | exact Hflush ]. repeat split.
           ++ apply IH in H. eapply same_flags_trans; [ exact Hfill | ].
              eapply same_flags_trans; [ | exact H ].
              eapply same_flags_trans; [ | exact Hflush ]. repeat split.
        -- apply IH in H. eapply same_flags_trans; [ exact Hfill | ].
           eapply same_flags_trans; [ | exact H ]. repeat split.
      * apply IH in H. eapply same_flags_trans; eassumption.
    + inversion H; subst. repeat split.
Qed.

Lemma Write_flags w p t k err w' t' :
  Write minChunkSize remote w p t = (Some (k, err, w'), t') -> same_flags w w'.
Proof.
  unfold Write.
  destruct (w_closed w); [ intros H; inversion H; subst; apply same_flags_refl | ].
  destruct (w_committed w); [ intros H; inversion H; subst; apply same_flags_refl | ].
  destruct (w_cancelled w); [ intros H; inversion H; subst; apply same_flags_refl | ].
  unfold bind.
  destruct (Write_newMultipart minChunkSize remote w t) as [[rerr w1] t1] eqn:Hrepair.
  apply Write_newMultipart_flags in Hrepair.
  destruct rerr.
  - intros H; inversion H; subst. exact Hrepair.
  - intros H. apply Write_loop_flags in H. eapply same_flags_trans; eassumption.
Qed.

(** A call made in a terminal state: what each method answers, with the
    writer and the trace left as they were. *)
Lemma Write_terminal w p t :
  terminal w = true ->
  exists err, Write minChunkSize remote w p t = (Some (0, Some err, w), t)
              /\ StateError (Some err).
Proof.
  unfold terminal, Write, StateError, ret.
  destruct (w_closed w), (w_committed w), (w_cancelled w); cbn; intros H;
    try discriminate; eexists; split; try reflexivity; auto.
Qed.

Lemma Commit_terminal w t :
  terminal w = true ->
  exists err, Commit remote w t = ((Some err, w), t) /\ StateError (Some err).
Proof.
  unfold terminal, Commit, StateError, ret.
  destruct (w_closed w), (w_committed w), (w_cancelled w); cbn; intros H;
    try discriminate; eexists; split; try reflexivity; auto.
Qed.

Lemma Close_closed w t :
  w_closed w = true -> Close remote w t = ((Some (Errorf "already closed"), w), t).
Proof. unfold Close. intros ->. reflexivity. Qed.

Lemma Cancel_closed_or_committed w t :
  w_closed w || w_committed w = true ->
  exists err, Cancel remote w t = ((Some err, w), t) /\ StateError (Some err).
Proof.
  unfold Cancel, StateError, ret.
  destruct (w_closed w), (w_committed w); cbn; intros H;
    try discriminate; eexists; split; try reflexivity; auto.
Qed.

(** [committed] and [cancelled] exclude each other, and every method keeps
    it so. *)
Lemma apply_op_committed_cancelled w o t err w' t' :
  w_committed w && w_cancelled w = false ->
  apply_op minChunkSize remote w o t = (Some (err, w'), t') ->
  w_committed w' && w_cancelled w' = false.
Proof.
  intros Hinv. destruct o as [p | | | ]; cbn [apply_op]; unfold bind, ret.
  - destruct (Write minChunkSize remote w p t) as [[[[k werr] w1] | ] t1] eqn:HW;
      [ | discriminate ].
    intros H; inversion H; subst.
    apply Write_flags in HW. destruct HW as (_ & -> & ->). exact Hinv.
  - unfold Close.
    destruct (w_closed w); [ intros H; inversion H; subst; exact Hinv | ].
    destruct (flushPart remote (set_closed w true) t) as [[ferr w1] t1] eqn:Hflush.
    intros H; inversion H; subst.
    apply flushPart_flags in Hflush. destruct Hflush as (_ & -> & ->). exact Hinv.
  - unfold Cancel.
    destruct (w_closed w); [ intros H; inversion H; subst; exact Hinv | ].
    destruct (w_committed w) eqn:Hcommitted;
      [ intros H; inversion H; subst; rewrite Hcommitted; exact Hinv | ].
    unfold bind, ret.
    destruct (NosClient.AbortMultiUpload remote _ _ _ t) as [aerr t1].
    intros H; inversion H; subst. cbn. rewrite Hcommitted. reflexivity.
  - unfold Commit.
    destruct (w_closed w); [ intros H; inversion H; subst; exact Hinv | ].
    destruct (w_committed w) eqn:Hcommitted;
      [ intros H; inversion H; subst; rewrite Hcommitted; exact Hinv | ].
    destruct (w_cancelled w) eqn:Hcancelled;
      [ intros H; inversion H; subst; rewrite Hcommitted, Hcancelled; exact Hinv | ].
    unfold bind, ret.
    destruct (flushPart remote w t) as [[ferr w1] t1] eqn:Hflush.
    apply flushPart_flags in Hflush. destruct Hflush as (_ & Hc1 & Hc2).
    destruct ferr.
    + intros H; inversion H; subst. rewrite Hc1, Hc2, Hcommitted. reflexivity.
    + destruct (NosClient.CompleteMultiUpload remote _ _ _ _ t1) as [[cerr | res] t2].
      * destruct (NosClient.AbortMultiUpload remote _ _ _ t2) as [aerr t3].
        intros H; inversion H; subst. cbn. rewrite Hc2, Hcancelled. reflexivity.
      * intros H; inversion H; subst. cbn. rewrite Hc2, Hcancelled. reflexivity.
Qed.

Lemma Reachable_committed_cancelled w t :
  Reachable minChunkSize remote w t -> w_committed w && w_cancelled w = false.
Proof.
  induction 1 as [ d key multi parts t | w t o err w' t' _ IH Hop ].
  - reflexivity.
  - eapply apply_op_committed_cancelled; eassumption.
Qed.

(** C1, as the code has it.  On every writer a caller can reach,
    [committed] and [cancelled] are never both set.  Once any of the three
    flags is set, [Write] and [Commit] fail with a state error, change
    nothing and send nothing; [Close] does so once [closed] is set, and
    [Cancel] once [closed] or [committed] is set. *)
Theorem terminal_flags_of_reachable_writer :
  forall (w : writer) (t : Trace),
    Reachable minChunkSize remote w t ->
    w_committed w && w_cancelled w = false /\
    (terminal w = true ->
     forall p t', exists err,
       Write minChunkSize remote w p t' = (Some (0, Some err, w), t')
       /\ StateError (Some err)) /\
    (terminal w = true ->
     forall t', exists err,
       Commit remote w t' = ((Some err, w), t') /\ StateError (Some err)) /\
    (w_closed w = true ->
     forall t', Close remote w t' = ((Some (Errorf "already closed"), w), t')) /\
    (w_closed w || w_committed w = true ->
     forall t', exists err,
       Cancel remote w t' = ((Some err, w), t') /\ StateError (Some err)).
Proof.
  intros w t Hreach. split; [ | split; [ | split; [ | split ] ] ].
  - eapply Reachable_committed_cancelled; eassumption.
  - intros Hterm p t'. apply Write_terminal; assumption.
  - intros Hterm t'. apply Commit_terminal; assumption.
  - intros Hclosed t'. apply Close_closed; assumption.
  - intros Hcc t'. apply Cancel_closed_or_committed; assumption.
Qed.

End Flags.

(** After a [Commit] the writer is committed and not cancelled, and a
    [Write] is refused. *)
Lemma terminal_flags_witness :
  Reachable 10 ok_remote (set_committed fresh_writer true)
            [ReqCompleteMultiUpload "bucket" "key" 1 []] /\
  w_committed (set_committed fresh_writer true)
  && w_cancelled (set_committed fresh_writer true) = false /\
  exists err,
    Write 10 ok_remote (set_committed fresh_writer true) bytes_abc []
    = (Some (0, Some err, set_committed fresh_writer true), [])
    /\ StateError (Some err).
Proof.
  assert (H : Reachable 10 ok_remote (set_committed fresh_writer true)
                [ReqCompleteMultiUpload "bucket" "key" 1 []]).
  { eapply (Reachable_op 10 ok_remote fresh_writer [] OpCommit).
    - apply Reachable_new.
    - reflexivity. }
  destruct (terminal_flags_of_reachable_writer 10 ok_remote _ _ H) as (H1 & H2 & _).
  split; [ exact H | ]. split; [ exact H1 | ].
  apply H2. reflexivity.
Defined.

(** C1 as stated fails.  Three bytes are written, the writer is cancelled
    and then closed: no call returns an error, [closed] and [cancelled] are
    both set, and the [Close], made after the writer was cancelled, uploaded
    the buffered bytes as part 1. *)
Lemma Close_after_Cancel_uploads_and_sets_closed :
  run_ops 10 ok_remote fresh_writer [OpWrite bytes_abc; OpCancel; OpClose] []
  = (Some ([None; None; None],
           mkWriter test_driver "key" (mkMulti "key" 1)
                    [mkUploadPartRet 1 "" "etag" 3] 3 [] [] true false true),
     [ReqAbortMultiUpload "bucket" "key" 1;
      ReqUploadPart "bucket" "key" 1 1 bytes_abc]) /\
  at_most_one_flag
    (mkWriter test_driver "key" (mkMulti "key" 1)
              [mkUploadPartRet 1 "" "etag" 3] 3 [] [] true false true) = false.
Proof. split; vm_compute; reflexivity. Qed.

(** ** Commit *)

Section CommitFacts.

Variable minChunkSize : Z.
Variable remote : Remote.

Lemma Commit_on_complete_failure :
  forall (w w1 : writer) (t t1 t2 : Trace) (err : error),
    terminal w = false ->
    flushPart remote w t = ((None, w1), t1) ->
    NosClient.CompleteMultiUpload remote (Bucket (w_driver w1)) (w_key w1)
      (m_UploadId (w_multi w1)) (TranslateToUploadParts (w_parts w1)) t1 = (inl err, t2) ->
    Commit remote w t =
      ((Some err, set_committed w1 true),
       t1 ++ [ReqCompleteMultiUpload (Bucket (w_driver w1)) (w_key w1)
                (m_UploadId (w_multi w1)) (TranslateToUploadParts (w_parts w1));
              ReqAbortMultiUpload (Bucket (w_driver w1)) (w_key w1)
                (m_UploadId (w_multi w1))]).
Proof.
  intros w w1 t t1 t2 err Hopen Hflush Hcomplete.
  unfold terminal in Hopen.
  apply orb_false_elim in Hopen as [Hopen Hcancelled].
  apply orb_false_elim in Hopen as [Hclosed Hcommitted].
  unfold Commit. rewrite Hclosed, Hcommitted, Hcancelled.
  rewrite (bind_eq _ _ _ _ _ Hflush). cbn beta iota.
  change (w_key (set_committed w1 true)) with (w_key w1).
  change (w_driver (set_committed w1 true)) with (w_driver w1).
  change (w_multi (set_committed w1 true)) with (w_multi w1).
  change (w_parts (set_committed w1 true)) with (w_parts w1).
  rewrite (bind_eq _ _ _ _ _ Hcomplete). cbn beta iota.
  pose proof (CompleteMultiUpload_trace _ _ _ _ _ _ _ _ Hcomplete) as Ht2.
  pose proof (AbortMultiUpload_trace remote (Bucket (w_driver w1)) (w_key w1)
                (m_UploadId (w_multi w1)) t2) as Habort.
  unfold bind, ret.
  destruct (NosClient.AbortMultiUpload remote (Bucket (w_driver w1)) (w_key w1)
              (m_UploadId (w_multi w1)) t2) as [aerr t3].
  cbn in Habort. subst t3 t2. rewrite <- app_assoc. reflexivity.
Qed.

(** C5.  When the Complete request of [Commit] fails with [err], [Commit]
    sends an Abort for the same session right after it and returns [err]
    itself, whatever the store answers to the Abort. *)
Theorem Commit_complete_failure_aborts_and_returns_error :
  forall (w w1 : writer) (t t1 t2 : Trace) (err : error),
    terminal w = false ->
    flushPart remote w t = ((None, w1), t1) ->
    NosClient.CompleteMultiUpload remote (Bucket (w_driver w1)) (w_key w1)
      (m_UploadId (w_multi w1)) (TranslateToUploadParts (w_parts w1)) t1 = (inl err, t2) ->
    Commit remote w t =
      ((Some err, set_committed w1 true),
       t1 ++ [ReqCompleteMultiUpload (Bucket (w_driver w1)) (w_key w1)
                (m_UploadId (w_multi w1)) (TranslateToUploadParts (w_parts w1));
              ReqAbortMultiUpload (Bucket (w_driver w1)) (w_key w1)
                (m_UploadId (w_multi w1))]).
Proof. exact Commit_on_complete_failure. Qed.

(** On a committed writer that is not closed, [Write], [Cancel] and
    [Commit] answer "already committed" and change nothing. *)
Lemma apply_op_committed w o t :
  w_closed w = false -> w_committed w = true -> o <> OpClose ->
  apply_op minChunkSize remote w o t = (Some (Some (Errorf "already committed"), w), t).
Proof.
  intros Hclosed Hcommitted Ho.
  destruct o as [p | | | ]; cbn [apply_op]; unfold bind, ret, Write, Cancel, Commit;
    try rewrite Hclosed; try rewrite Hcommitted; try reflexivity.
  congruence.
Qed.

Lemma run_ops_committed w ops :
  w_closed w = false -> w_committed w = true ->
  Forall (fun o => o <> OpClose) ops ->
  forall t,
    run_ops minChunkSize remote w ops t
    = (Some (map (fun _ => Some (Errorf "already committed")) ops, w), t).
Proof.
  intros Hclosed Hcommitted Hops. induction Hops as [ | o ops Ho _ IH ]; intros t.
  - reflexivity.
  - cbn [run_ops map]. unfold bind at 1.
    rewrite (apply_op_committed w o t Hclosed Hcommitted Ho).
    unfold bind, ret. rewrite IH. reflexivity.
Qed.

(** C10.  When the Complete request of [Commit] fails, [Commit] returns the
    error and leaves [committed] set: from then on every [Write], [Commit]
    and [Cancel] on the writer returns "already committed", sends nothing
    and changes nothing. *)
Theorem Commit_complete_failure_leaves_writer_committed :
  forall (w w1 : writer) (t t1 t2 : Trace) (err : error),
    terminal w = false ->
    flushPart remote w t = ((None, w1), t1) ->
    NosClient.CompleteMultiUpload remote (Bucket (w_driver w1)) (w_key w1)
      (m_UploadId (w_multi w1)) (TranslateToUploadParts (w_parts w1)) t1 = (inl err, t2) ->
    exists (w' : writer) (t' : Trace),
      Commit remote w t = ((Some err, w'), t') /\
      w_committed w' = true /\
      forall (ops : list op) (t'' : Trace),
        Forall (fun o => o <> OpClose) ops ->
        run_ops minChunkSize remote w' ops t''
        = (Some (map (fun _ => Some (Errorf "already committed")) ops, w'), t'').
Proof.
  intros w w1 t t1 t2 err Hopen Hflush Hcomplete.
  eexists. eexists. split; [ | split ].
  - eapply Commit_on_complete_failure; eassumption.
  - reflexivity.
  - intros ops t'' Hops. apply run_ops_committed; [ | reflexivity | exact Hops ].
    apply flushPart_flags in Hflush. destruct Hflush as (Hc & _).
    cbn. rewrite Hc. unfold terminal in Hopen.
    destruct (w_closed w); [ discriminate | reflexivity ].
Qed.

End CommitFacts.

(** Complete fails with a 500 and the Abort fails with a 503: the caller
    gets the 500. *)
Lemma Commit_complete_failure_witness :
  Commit failing_complete_remote (newWriter test_driver "key" (mkMulti "key" 1) []) []
  = ((Some (Errorf "500 Internal Server Error"),
      set_committed (newWriter test_driver "key" (mkMulti "key" 1) []) true),
     [ReqCompleteMultiUpload "bucket" "key" 1 []; ReqAbortMultiUpload "bucket" "key" 1]).
Proof.
  apply (Commit_complete_failure_aborts_and_returns_error failing_complete_remote
           (newWriter test_driver "key" (mkMulti "key" 1) [])
           (newWriter test_driver "key" (mkMulti "key" 1) [])
           [] [] [ReqCompleteMultiUpload "bucket" "key" 1 []]
           (Errorf "500 Internal Server Error")); reflexivity.
Defined.

(** After the failed [Commit], a [Write], a [Cancel] and a second [Commit]
    are all refused with "already committed" and send nothing. *)
Lemma Commit_complete_failure_leaves_writer_committed_witness :
  exists (w' : writer) (t' : Trace),
    Commit failing_complete_remote fresh_writer [] =
      ((Some (Errorf "500 Internal Server Error"), w'), t') /\
    w_committed w' = true /\
    run_ops 10 failing_complete_remote w' [OpWrite bytes_abc; OpCancel; OpCommit] t'
    = (Some ([Some (Errorf "already committed"); Some (Errorf "already committed");
              Some (Errorf "already committed")], w'), t').
Proof.
  destruct (Commit_complete_failure_leaves_writer_committed 10 failing_complete_remote
              fresh_writer fresh_writer [] []
              [ReqCompleteMultiUpload "bucket" "key" 1 []]
              (Errorf "500 Internal Server Error") eq_refl eq_refl eq_refl)
    as (w' & t' & Hcommit & Hflag & Hops).
  exists w', t'. split; [ exact Hcommit | ]. split; [ exact Hflag | ].
  apply (Hops [OpWrite bytes_abc; OpCancel; OpCommit] t').
  repeat constructor; discriminate.
Defined.

(** ** Opening a writer for append *)

Section Resolver.

Variable remote : Remote.


(** The loop of [driver.Writer] opens the first upload with the key. *)
Lemma Writer_range_find d path key multis t :
  Writer_range remote d path key multis t =
  match find (fun multi => String.eqb key (u_Key multi)) multis with
  | Some multi => Writer_resume remote d path key multi t
  | None => (inl (PathNotFoundError path), t)
  end.
Proof.
  induction multis as [ | multi multis IH ]; cbn [Writer_range find].
  - reflexivity.
  - destruct (String.eqb key (u_Key multi)); cbn [negb]; [ reflexivity | exact IH ].
Qed.



Lemma filter_nil_find {A : Type} (f : A -> bool) (l : list A) :
  filter f l = [] -> find f l = None.
Proof.
  induction l as [ | a l IH ]; cbn [filter find]; [ reflexivity | ].
  destruct (f a); [ discriminate | exact IH ].
Qed.



Lemma ListUploadParts_trace bucket object uploadId maxParts marker t r t' :
  NosClient.ListUploadParts remote bucket object uploadId maxParts marker t = (r, t') ->
  t' = t ++ [ReqListUploadParts bucket object uploadId].
Proof.
  unfold_client.
  destruct (reply_ListUploadParts remote t bucket object uploadId)
    as [e | code status etag body]; [ | destruct (code =? StatusOK) ];
    intros H; inversion H; reflexivity.
Qed.

(** C7, as the code has it.  When [Writer(path, true)] finds an upload with
    the key, it sends one ListUploadParts request for it and gives the
    writer the parts of that one response, in the order the response lists
    them; nothing is sorted and no further page is requested. *)
Theorem Writer_append_parts_as_listed :
  forall (d : driver) (path : string) (t t1 t2 : Trace) (multis : list Upload)
         (multi : Upload) (res : ListPartsResult),
    NosClient.ListMulti remote (Bucket d) (nosPath path) "" "" t = (inr multis, t1) ->
    find (fun m => String.eqb (nosPath path) (u_Key m)) multis = Some multi ->
    NosClient.ListUploadParts remote (Bucket d) (nosPath path) (u_UploadId multi) 1000 0 t1
    = (inr res, t2) ->
    exists w : writer,
      Writer remote d path true t
      = (inr w, t1 ++ [ReqListUploadParts (Bucket d) (nosPath path) (u_UploadId multi)])
      /\ w_parts w = lpr_Parts res
      /\ w_multi w = newMulti multi.
Proof.
  intros d path t t1 t2 multis multi res Hlist Hfind Hparts.
  exists (newWriter d (nosPath path) (newMulti multi) (lpr_Parts res)).
  split; [ | split; reflexivity ].
  unfold Writer. cbn [negb]. rewrite (bind_eq _ _ _ _ _ Hlist).
  rewrite Writer_range_find, Hfind. unfold Writer_resume.
  rewrite (bind_eq _ _ _ _ _ Hparts).
  apply ListUploadParts_trace in Hparts. subst t2. reflexivity.
Qed.

End Resolver.



(** The parts come back as part 2, part 1, and so they reach the writer. *)
Lemma Writer_append_parts_as_listed_witness :
  exists w : writer,
    Writer unordered_parts_remote test_driver "/key" true []
    = (inr w, [ReqListMultiResult "bucket" ""] ++ [ReqListUploadParts "bucket" "key" 7])
    /\ w_parts w = [mkUploadPartRet 2 "" "e2" 10; mkUploadPartRet 1 "" "e1" 10]
    /\ w_multi w = mkMulti "key" 7.
Proof.
  apply (Writer_append_parts_as_listed unordered_parts_remote test_driver "/key"
           [] [ReqListMultiResult "bucket" ""]
           [ReqListMultiResult "bucket" ""; ReqListUploadParts "bucket" "key" 7]
           [mkUpload "key" 7] (mkUpload "key" 7)
           (mkListPartsResult 2 true
              [mkUploadPartRet 2 "" "e2" 10; mkUploadPartRet 1 "" "e1" 10])
           eq_refl eq_refl eq_refl).
Defined.

(** C7 as stated fails.  The store lists part 2 before part 1 (and says the
    listing is truncated); the writer gets the parts in that order. *)
Lemma Writer_append_keeps_listing_order :
  Writer unordered_parts_remote test_driver "/key" true []
  = (inr (newWriter test_driver "key" (mkMulti "key" 7)
            [mkUploadPartRet 2 "" "e2" 10; mkUploadPartRet 1 "" "e1" 10]),
     [ReqListMultiResult "bucket" ""; ReqListUploadParts "bucket" "key" 7])
  /\ ascending (map upr_PartNumber
                 (w_parts (newWriter test_driver "key" (mkMulti "key" 7)
                    [mkUploadPartRet 2 "" "e2" 10; mkUploadPartRet 1 "" "e1" 10])))
     = false.
Proof. split; vm_compute; reflexivity. Qed.

(** ** UploadPartCopy *)

(** With a range given, [UploadPartCopy] asks for the whole object, never
    for the range, and uploads what it got. *)
Lemma UploadPartCopy_with_range remote bucket object uploadId partNumber srcObject
    srcObjRange t :
  srcObjRange <> "" ->
  NosClient.UploadPartCopy remote bucket object uploadId partNumber srcObject srcObjRange t
  = bind (NosClient.GetObject remote bucket srcObject)
         (fun r => match r with
                   | inl err => ret (inl err)
                   | inr srcBody =>
                       NosClient.UploadPart remote bucket object uploadId partNumber
                                            (body_Reader srcBody)
                   end) t.
Proof.
  intros Hrange. unfold NosClient.UploadPartCopy.
  destruct (String.eqb_spec srcObjRange ""); [ contradiction | reflexivity ].
Qed.

(** C9 fails on the code.  The source object is "abcdef".  Asked to copy
    the range [bytes=0-1] ("ab"), [UploadPartCopy] sends a plain GET and
    uploads all six bytes.  Asked to copy the whole object (empty range), it
    sends a GET with an empty [Range] header, takes the 200 answer for an
    error and uploads nothing. *)
Theorem UploadPartCopy_range_test_inverted :
  NosClient.UploadPartCopy object_store_remote "bucket" "dst" 7 1 "src" "bytes=0-1" []
  = (inr (mkUploadPart 1 "etag" 0),
     [ReqGetObject "bucket" "src"; ReqUploadPart "bucket" "dst" 7 1 bytes_abcdef])
  /\ NosClient.UploadPartCopy object_store_remote "bucket" "dst" 7 1 "src" "" []
     = (inl (Errorf "200 OK"), [ReqGetObjectRange "bucket" "src" ""]).
Proof. split; vm_compute; reflexivity. Qed.

(** ** The repair of a resumed session *)

Lemma Body_Read_nil (body : Body) : Body_Read body [] = [].
Proof. reflexivity. Qed.

(** A writer whose [readyPart] is empty, as every writer is when it is
    opened, still has it empty after the first block of [Write]: the
    [Read] into the empty slice stores nothing of the object fetched. *)
Lemma Write_newMultipart_ready_stays_empty minChunkSize remote w t err w' t' :
  w_readyPart w = [] ->
  Write_newMultipart minChunkSize remote w t = ((err, w'), t') ->
  w_readyPart w' = [].
Proof.
  intros Hready. unfold Write_newMultipart, NosClient.UploadPartCopy. unfold_client.
  repeat break_match; intros H; inversion H; subst; cbn; try rewrite Hready;
    try reflexivity.
Qed.

(** C4 fails on the code.  The session 7 of ["key"] has one part of 3 bytes
    ("abc" in the store), below the floor of 10.  The first [Write] after
    resuming completes session 7, starts session 1, drops the parts and
    requests the object; but it reads the answer into the empty [readyPart],
    so not one byte of "abc" is kept: after the call the ready buffer holds
    the two new bytes only, while [size] says 5. *)
Theorem Write_after_resume_loses_fetched_content :
  Write 10 stored_abc_remote resumed_writer bytes_XY []
  = (Some (2, None,
           mkWriter test_driver "key" (mkMulti "key" 1) [] 5 bytes_XY [] false false false),
     [ReqCompleteMultiUpload "bucket" "key" 7 [mkUploadPart 1 "e1" 0];
      ReqInitMultiUpload "bucket" "key";
      ReqGetObject "bucket" "key"]).
Proof. vm_compute. reflexivity. Qed.

(** ** The size counter *)

Lemma int64_idem z : int64 (int64 z) = int64 z.
Proof.
  unfold int64. replace ((z + 2 ^ 63) mod 2 ^ 64 - 2 ^ 63 + 2 ^ 63)
    with ((z + 2 ^ 63) mod 2 ^ 64) by lia.
  rewrite Z.mod_mod by lia. reflexivity.
Qed.

Lemma int64_add_l a b : int64 (int64 a + b) = int64 (a + b).
Proof.
  unfold int64. f_equal.
  replace ((a + 2 ^ 63) mod 2 ^ 64 - 2 ^ 63 + b + 2 ^ 63)
    with ((a + 2 ^ 63) mod 2 ^ 64 + b) by lia.
  rewrite Zplus_mod_idemp_l. f_equal. lia.
Qed.

Lemma int64_small z : - 2 ^ 63 <= z < 2 ^ 63 -> int64 z = z.
Proof. intros H. unfold int64. rewrite Z.mod_small; lia. Qed.

Lemma sum_sizes_int64 parts : int64 (sum_sizes parts) = sum_sizes parts.
Proof.
  unfold sum_sizes.
  assert (H : forall acc, int64 acc = acc ->
            int64 (fold_left (fun size part => int64 (size + int64 (upr_Size part))) parts acc)
            = fold_left (fun size part => int64 (size + int64 (upr_Size part))) parts acc).
  { induction parts as [ | part parts IH ]; intros acc Hacc; cbn [fold_left].
    - exact Hacc.
    - apply IH. apply int64_idem. }
  apply H. reflexivity.
Qed.

Lemma len_nonneg {A : Type} (l : list A) : 0 <= len l.
Proof. unfold len. lia. Qed.

Lemma len_app {A : Type} (l1 l2 : list A) : len (l1 ++ l2) = len l1 + len l2.
Proof. unfold len. rewrite length_app. lia. Qed.

Lemma len_nil {A : Type} : len (@nil A) = 0.
Proof. reflexivity. Qed.

Lemma len_slice_to {A : Type} (k : Z) (p : list A) :
  0 <= k <= len p -> len (slice_to k p) = k.
Proof. unfold len, slice_to. intros H. rewrite length_firstn. lia. Qed.

Lemma len_slice_from {A : Type} (k : Z) (p : list A) :
  0 <= k <= len p -> len (slice_from k p) = len p - k.
Proof. unfold len, slice_from. intros H. rewrite length_skipn. lia. Qed.

Lemma slice_to_from {A : Type} (k : Z) (p : list A) :
  slice_to k p ++ slice_from k p = p.
Proof. apply firstn_skipn. Qed.

Section SizeCounter.

Variable minChunkSize : Z.
Variable remote : Remote.

Lemma flushPart_size w t err w' t' :
  flushPart remote w t = ((err, w'), t') -> w_size w' = w_size w.
Proof.
  unfold flushPart. unfold_client.
  repeat break_match; intros H; inversion H; subst; reflexivity.
Qed.

Lemma Write_newMultipart_size w t err w' t' :
  Write_newMultipart minChunkSize remote w t = ((err, w'), t') -> w_size w' = w_size w.
Proof.
  unfold Write_newMultipart, NosClient.UploadPartCopy. unfold_client.
  repeat break_match; intros H; inversion H; subst; reflexivity.
Qed.

(** [fill_ready] moves a prefix of [p] to the writer and counts it. *)
Lemma fill_ready_count w p n w' p' n' :
  fill_ready w p n = (w', p', n') ->
  w_size w' = w_size w /\ n <= n' /\ n' + len p' = n + len p.
Proof.
  unfold fill_ready.
  destruct (ChunkSize (w_driver w) - len (w_readyPart w) >? 0) eqn:Hneeded.
  - destruct (len p >=? ChunkSize (w_driver w) - len (w_readyPart w)) eqn:Hlen;
      intros H; inversion H; subst; simpl_writer; zbool.
    + rewrite len_slice_from by lia. lia.
    + pose proof (len_nonneg p). rewrite len_nil. lia.
  - intros H; inversion H; subst. lia.
Qed.

(** The loop returns the count of the bytes it took, adds that count to
    [size], and takes all of [p] unless a flush failed. *)
Lemma Write_loop_count fuel :
  forall w p n t k err w' t',
    Write_loop remote fuel w p n t = (Some (k, err, w'), t') ->
    w_size w' = int64 (w_size w + k) /\ n <= k <= n + len p /\
    (err = None -> k = n + len p).
Proof.
  induction fuel as [ | fuel IH ]; intros w p n t k err w' t' H; cbn [Write_loop] in H.
  - discriminate.
  - destruct (len p >? 0) eqn:Hp.
    + destruct (fill_ready w p n) as [[w1 p1] n1] eqn:Hfill.
      apply fill_ready_count in Hfill. destruct Hfill as (Hs1 & Hn1 & Hsum).
      pose proof (len_nonneg p1) as Hp1.
      destruct (ChunkSize (w_driver w1) - len (w_pendingPart w1) >? 0) eqn:Hneeded.
      * destruct (len p1 >=? ChunkSize (w_driver w1) - len (w_pendingPart w1)) eqn:Hlen.
        -- unfold bind in H.
           destruct (flushPart remote _ t) as [[ferr w2] t2] eqn:Hflush.
           apply flushPart_size in Hflush. simpl_writer. zbool.
           destruct ferr.
           ++ inversion H; subst. simpl_writer. rewrite Hflush, Hs1.
              repeat split; try lia. discriminate.
           ++ apply IH in H. destruct H as (Hs & Hk & Hnone).
              rewrite len_slice_from in Hk, Hnone by lia.
              rewrite Hs, Hflush, Hs1. repeat split; first [ lia | intros He; specialize (Hnone He); lia ].
        -- apply IH in H. destruct H as (Hs & Hk & Hnone). simpl_writer. zbool.
           rewrite len_nil in Hk, Hnone.
           rewrite Hs, Hs1. repeat split; first [ lia | intros He; specialize (Hnone He); lia ].
      * apply IH in H. destruct H as (Hs & Hk & Hnone).
        rewrite Hs, Hs1. repeat split; first [ lia | intros He; specialize (Hnone He); lia ].
    + inversion H; subst. simpl_writer. zbool. pose proof (len_nonneg p).
      repeat split; try lia.
Qed.

Lemma Write_count w p t k err w' t' :
  int64 (w_size w) = w_size w ->
  Write minChunkSize remote w p t = (Some (k, err, w'), t') ->
  w_size w' = int64 (w_size w + k) /\ 0 <= k <= len p /\ (err = None -> k = len p).
Proof.
  intros Hrange. unfold Write, ret.
  assert (Hzero : forall e : error, Some (0, Some e, w) = Some (k, err, w') ->
            w_size w' = int64 (w_size w + k) /\ 0 <= k <= len p
            /\ (err = None -> k = len p)).
  { intros e He. inversion He; subst. rewrite Z.add_0_r, Hrange.
    pose proof (len_nonneg p). repeat split; try lia. discriminate. }
  destruct (w_closed w); [ intros H; inversion H; subst; eapply Hzero; reflexivity | ].
  destruct (w_committed w); [ intros H; inversion H; subst; eapply Hzero; reflexivity | ].
  destruct (w_cancelled w); [ intros H; inversion H; subst; eapply Hzero; reflexivity | ].
  clear Hzero. unfold bind.
  destruct (Write_newMultipart minChunkSize remote w t) as [[rerr w1] t1] eqn:Hrepair.
  apply Write_newMultipart_size in Hrepair.
  destruct rerr.
  - intros H. inversion H; subst. rewrite Z.add_0_r, Hrepair, Hrange.
    pose proof (len_nonneg p). repeat split; try lia. discriminate.
  - intros H. apply Write_loop_count in H. rewrite Hrepair in H.
    destruct H as (Hs & Hk & Hnone).
    repeat split; first [ exact Hs | lia | intros He; specialize (Hnone He); lia ].
Qed.

Lemma Writes_count ps :
  forall w t rs w' t',
    int64 (w_size w) = w_size w ->
    Writes minChunkSize remote w ps t = (Some (rs, w'), t') ->
    w_size w' = int64 (w_size w + sum_counts rs) /\
    Forall2 (fun p r => 0 <= fst r <= len p /\ (snd r = None -> fst r = len p)) ps rs.
Proof.
  induction ps as [ | p ps IH ]; intros w t rs w' t' Hrange; cbn [Writes]; unfold bind, ret.
  - intros H. inversion H; subst. cbn. rewrite Z.add_0_r. auto.
  - destruct (Write minChunkSize remote w p t) as [[[[k err] w1] | ] t1] eqn:HW;
      [ | discriminate ].
    apply Write_count in HW; [ | exact Hrange ]. destruct HW as (Hs1 & Hk & Hnone).
    destruct (Writes minChunkSize remote w1 ps t1) as [[[rs1 w2] | ] t2] eqn:HWs;
      [ | discriminate ].
    apply IH in HWs; [ | rewrite Hs1; apply int64_idem ]. destruct HWs as (Hs2 & Hall).
    intros H. inversion H; subst. cbn [sum_counts fold_right fst].
    split.
    + rewrite Hs2, Hs1, int64_add_l. f_equal. fold (sum_counts rs1). lia.
    + constructor; [ cbn; auto | exact Hall ].
Qed.

(** C8.  A writer is made by [newWriter] with [size] the sum of the sizes
    of the parts it resumes.  After any run of [Write] calls that returned,
    [Size()] is that sum plus the counts the calls returned, in [int64]
    arithmetic (so exactly that number unless it leaves the [int64] range).
    Each count is the number of bytes the call took from its argument: at
    most its length, and all of it when the call returned no error; a call
    that returned an error, from a failed flush too, has added its count
    like any other. *)
Theorem Size_after_Writes :
  forall (d : driver) (key : string) (multi : Multi) (parts : list UploadPartRet)
         (ps : list (list byte)) (t : Trace)
         (rs : list (Z * option error)) (w' : writer) (t' : Trace),
    Writes minChunkSize remote (newWriter d key multi parts) ps t = (Some (rs, w'), t') ->
    Size w' = int64 (sum_sizes parts + sum_counts rs) /\
    (- 2 ^ 63 <= sum_sizes parts + sum_counts rs < 2 ^ 63 ->
     Size w' = sum_sizes parts + sum_counts rs) /\
    Forall2 (fun p r => 0 <= fst r <= len p /\ (snd r = None -> fst r = len p)) ps rs.
Proof.
  intros d key multi parts ps t rs w' t' H.
  apply Writes_count in H; [ | apply sum_sizes_int64 ].
  destruct H as (Hs & Hall). cbn [newWriter w_size] in Hs. unfold Size.
  split; [ exact Hs | split; [ | exact Hall ] ].
  intros Hrange. rewrite Hs. apply int64_small. exact Hrange.
Qed.

End SizeCounter.

(** The store refuses every part.  A [Write] of 25 bytes fills both buffers
    (20 bytes), fails to flush and returns 20 with the error; [Size()] is 20. *)
Lemma Size_after_Writes_witness :
  exists (w' : writer) (t' : Trace),
    Writes 10 rejecting_uploads_remote fresh_writer [bytes_25] []
    = (Some ([(20, Some (Errorf "500 Internal Server Error"))], w'), t')
    /\ Size w' = 20.
Proof.
  destruct (Writes 10 rejecting_uploads_remote fresh_writer [bytes_25] [])
    as [[[rs w'] | ] t'] eqn:Hrun; [ | vm_compute in Hrun; discriminate ].
  assert (Hrs : rs = [(20, Some (Errorf "500 Internal Server Error"))]).
  { vm_compute in Hrun. inversion Hrun. reflexivity. }
  exists w', t'. subst rs. split; [ reflexivity | ].
  destruct (Size_after_Writes 10 rejecting_uploads_remote test_driver "key"
              (mkMulti "key" 1) [] [bytes_25] []
              [(20, Some (Errorf "500 Internal Server Error"))] w' t' Hrun)
    as (_ & Hexact & _).
  apply Hexact. cbn. lia.
Defined.

(** ** Chunking does not depend on the call boundaries *)

Lemma last_Size_Forall (C : Z) (parts : list UploadPartRet) (s : Z) :
  Forall (fun part => upr_Size part = C) parts -> last_Size parts = Some s -> s = C.
Proof.
  intros Hall. unfold last_Size.
  destruct (rev parts) as [ | part rest ] eqn:Hrev; [ discriminate | ].
  intros H. inversion H; subst.
  rewrite Forall_forall in Hall. apply Hall. apply in_rev. rewrite Hrev. left. reflexivity.
Qed.

Lemma map_Size_Forall (C : Z) (parts : list UploadPartRet) :
  Forall (fun part => upr_Size part = C) parts ->
  map upr_Size parts = repeat C (List.length parts).
Proof.
  induction 1 as [ | part parts Hpart _ IH ]; cbn; [ reflexivity | ].
  rewrite Hpart, IH. reflexivity.
Qed.

Lemma len_zero_nil {A : Type} (l : list A) : len l = 0 -> l = [].
Proof. destruct l; [ reflexivity | unfold len; cbn; lia ]. Qed.

Section Chunking.

Variable minChunkSize : Z.
Variable remote : Remote.
Variable C : Z.

Hypothesis C_positive : 0 < C.
Hypothesis C_floor : minChunkSize <= C.
Hypothesis accepted : uploads_accepted remote.

Lemma UploadPart_accepted bucket object uploadId partNumber (b : list byte) t :
  exists etag,
    NosClient.UploadPart remote bucket object uploadId partNumber (bytes_NewReader b) t
    = (inr (mkUploadPart partNumber etag (len b)),
       t ++ [ReqUploadPart bucket object uploadId partNumber b]).
Proof.
  destruct (accepted t bucket object uploadId partNumber b) as (status & etag & Hreply & Hetag).
  exists etag. unfold_client. cbn [Reader_bytes ContentLength]. rewrite Hreply.
  cbn [Z.eqb StatusOK Pos.eqb].
  apply String.eqb_neq in Hetag. rewrite Hetag. reflexivity.
Qed.

(** A flush with [pendingPart] full uploads [readyPart] and moves
    [pendingPart] up. *)
Lemma flushPart_full w t :
  ChunkSize (w_driver w) <= len (w_pendingPart w) ->
  0 < len (w_pendingPart w) ->
  exists etag t',
    flushPart remote w t
    = ((None,
        set_pendingPart
          (set_readyPart
             (set_parts w (w_parts w ++
                [mkUploadPartRet (int32 (len (w_parts w) + 1)) "" etag
                                 (len (w_readyPart w))]))
             (w_pendingPart w)) []), t').
Proof.
  intros Hfull Hpos. unfold flushPart.
  replace (len (w_pendingPart w) =? 0) with false by (symmetry; apply Z.eqb_neq; lia).
  rewrite andb_false_r.
  replace (len (w_pendingPart w) <? ChunkSize (w_driver w)) with false
    by (symmetry; apply Z.ltb_ge; lia).
  destruct (UploadPart_accepted (Bucket (w_driver w)) (w_key w) (m_UploadId (w_multi w))
              (int32 (len (w_parts w) + 1)) (w_readyPart w) t) as (etag & Hup).
  exists etag. eexists. rewrite (bind_eq _ _ _ _ _ Hup). reflexivity.
Qed.

(** A flush with [pendingPart] not full uploads both buffers as one part. *)
Lemma flushPart_merge w t :
  len (w_pendingPart w) < ChunkSize (w_driver w) ->
  0 < len (w_readyPart w) + len (w_pendingPart w) ->
  exists etag t',
    flushPart remote w t
    = ((None,
        set_pendingPart
          (set_readyPart
             (set_parts w (w_parts w ++
                [mkUploadPartRet (int32 (len (w_parts w) + 1)) "" etag
                                 (len (w_readyPart w ++ w_pendingPart w))]))
             []) []), t').
Proof.
  intros Hsmall Hpos. unfold flushPart.
  pose proof (len_nonneg (w_readyPart w)). pose proof (len_nonneg (w_pendingPart w)).
  replace ((len (w_readyPart w) =? 0) && (len (w_pendingPart w) =? 0)) with false.
  2:{ symmetry. apply andb_false_iff.
      destruct (Z.eq_dec (len (w_readyPart w)) 0);
        [ right | left ]; apply Z.eqb_neq; lia. }
  replace (len (w_pendingPart w) <? ChunkSize (w_driver w)) with true
    by (symmetry; apply Z.ltb_lt; lia).
  simpl_writer.
  destruct (UploadPart_accepted (Bucket (w_driver w)) (w_key w) (m_UploadId (w_multi w))
              (int32 (len (w_parts w) + 1)) (w_readyPart w ++ w_pendingPart w) t)
    as (etag & Hup).
  exists etag. eexists. rewrite (bind_eq _ _ _ _ _ Hup). reflexivity.
Qed.

(** Topping up [readyPart] keeps the writer chunked, and leaves bytes in
    [p] only when [readyPart] is full. *)
Lemma fill_ready_Chunked w p n T w1 p1 n1 :
  Chunked C w T ->
  fill_ready w p n = (w1, p1, n1) ->
  Chunked C w1 (T + (len p - len p1)) /\
  n1 = n + (len p - len p1) /\
  0 <= len p1 <= len p /\
  (len (w_readyPart w1) < C -> p1 = []).
Proof.
  intros (HC & Hopen & Hr & Hp & Hsmall & Hall & HT). unfold fill_ready. rewrite HC.
  pose proof (len_nonneg p) as Hlenp.
  destruct (C - len (w_readyPart w) >? 0) eqn:Hneeded; zbool.
  - destruct Hsmall as (Hpend & Hparts); [ lia | ].
    destruct (len p >=? C - len (w_readyPart w)) eqn:Hlen; zbool;
      intros H; inversion H; subst; unfold Chunked; simpl_writer;
      rewrite ?len_app, ?len_nil, ?Hpend, ?Hparts, ?len_nil.
    + rewrite len_slice_to, len_slice_from by lia.
      repeat split; auto; try lia.
    + repeat split; auto; try lia.
  - intros H; inversion H; subst. unfold Chunked.
    repeat split; auto; try lia.
Qed.

(** The loop, on a chunked writer, takes all of [p], returns no error and
    leaves the writer chunked. *)
Lemma Write_loop_Chunked fuel :
  forall w p n t T,
    Chunked C w T ->
    (List.length p < fuel)%nat ->
    exists w' t',
      Write_loop remote fuel w p n t = (Some (n + len p, None, w'), t') /\
      Chunked C w' (T + len p).
Proof.
  induction fuel as [ | fuel IH ]; intros w p n t T Hw Hfuel; [ lia | ].
  cbn [Write_loop].
  destruct (len p >? 0) eqn:Hp; zbool.
  - destruct (fill_ready w p n) as [[w1 p1] n1] eqn:Hfill.
    destruct (fill_ready_Chunked _ _ _ _ _ _ _ Hw Hfill) as (Hw1 & Hn1 & Hp1 & Hready).
    assert (Hlenp : len p = Z.of_nat (List.length p)) by reflexivity.
    assert (Hlenp1 : len p1 = Z.of_nat (List.length p1)) by reflexivity.
    destruct Hw1 as (HC & Hopen & Hr & Hpn & Hsmall & Hall & HT).
    rewrite HC.
    replace (C - len (w_pendingPart w1) >? 0) with true
      by (symmetry; rewrite Z.gtb_ltb; apply Z.ltb_lt; lia).
    destruct (len p1 >=? C - len (w_pendingPart w1)) eqn:Hlen; zbool.
    + (* pendingPart fills up: flush *)
      assert (Hfull : len (w_readyPart w1) = C).
      { destruct (Z.lt_ge_cases (len (w_readyPart w1)) C) as [ Hlt | Hge ]; [ | lia ].
        rewrite (Hready Hlt), len_nil in Hlen. lia. }
      pose proof (len_nonneg (w_pendingPart w1)) as Hpend.
      destruct (flushPart_full
                  (set_pendingPart w1 (w_pendingPart w1
                     ++ slice_to (C - len (w_pendingPart w1)) p1)) t)
        as (etag & t2 & Hflush).
      { simpl_writer. rewrite HC, len_app, len_slice_to; lia. }
      { simpl_writer. rewrite len_app, len_slice_to; lia. }
      rewrite (bind_eq _ _ _ _ _ Hflush). cbn beta iota.
      match goal with
      | |- context [Write_loop remote fuel ?w3 ?p3 ?n3 t2] =>
          destruct (IH w3 p3 n3 t2 (T + (len p - len p1) + (C - len (w_pendingPart w1))))
            as (w' & t' & Hloop & Hw')
      end.
      * unfold Chunked. simpl_writer.
        rewrite !len_app, len_slice_to, len_nil by lia. cbn [List.length len].
        repeat split; auto; try lia.
        -- apply Forall_app. split; [ exact Hall | ].
           constructor; [ cbn; exact Hfull | constructor ].
        -- change (len [mkUploadPartRet (int32 (len (w_parts w1) + 1)) "" etag
                          (len (w_readyPart w1))]) with 1. lia.
      * unfold slice_from. rewrite length_skipn. lia.
      * exists w', t'. split.
        -- rewrite Hloop. rewrite len_slice_from by lia. do 4 f_equal. lia.
        -- rewrite len_slice_from in Hw' by lia.
           replace (T + len p) with
             (T + (len p - len p1) + (C - len (w_pendingPart w1))
              + (len p1 - (C - len (w_pendingPart w1)))) by lia.
           exact Hw'.
    + (* the rest of p goes to pendingPart *)
      destruct (IH (set_pendingPart w1 (w_pendingPart w1 ++ p1)) [] (n1 + len p1) t
                  (T + len p)) as (w' & t' & Hloop & Hw').
      * unfold Chunked. simpl_writer. rewrite len_app.
        repeat split; auto; try lia.
        -- rewrite (Hready H). destruct (Hsmall H) as (Hpe & _). rewrite Hpe. reflexivity.
        -- destruct (Hsmall H) as (_ & Hpa). exact Hpa.
      * cbn [List.length]. lia.
      * exists w', t'. split.
        -- rewrite Hloop, len_nil. do 4 f_equal. lia.
        -- rewrite len_nil, Z.add_0_r in Hw'. exact Hw'.
  - (* p is empty *)
    assert (Hlen0 : len p = 0) by (pose proof (len_nonneg p); lia).
    eexists. eexists. split.
    + unfold ret. rewrite Hlen0, Z.add_0_r. reflexivity.
    + rewrite Hlen0, Z.add_0_r. destruct Hw as (HC & Hopen & Hrest).
      unfold Chunked. simpl_writer. split; [ exact HC | ]. split; [ exact Hopen | exact Hrest ].
Qed.

(** With every last part a full chunk, the first block of [Write] does
    nothing. *)
Lemma Write_newMultipart_Chunked w T t :
  Chunked C w T -> Write_newMultipart minChunkSize remote w t = ((None, w), t).
Proof.
  intros (HC & Hopen & Hr & Hp & Hsmall & Hall & HT). unfold Write_newMultipart.
  destruct (last_Size (w_parts w)) as [ s | ] eqn:Hlast; [ | reflexivity ].
  apply (last_Size_Forall C) in Hlast; [ | exact Hall ]. subst s.
  replace (C <? minChunkSize) with false by (symmetry; apply Z.ltb_ge; lia).
  reflexivity.
Qed.

Lemma terminal_false w :
  terminal w = false ->
  w_closed w = false /\ w_committed w = false /\ w_cancelled w = false.
Proof.
  unfold terminal. destruct (w_closed w), (w_committed w), (w_cancelled w);
    cbn; intros H; try discriminate; auto.
Qed.

Lemma Write_Chunked w p t T :
  Chunked C w T ->
  exists w' t',
    Write minChunkSize remote w p t = (Some (len p, None, w'), t') /\
    Chunked C w' (T + len p).
Proof.
  intros Hw. pose proof Hw as (_ & Hopen & _).
  apply terminal_false in Hopen. destruct Hopen as (Hclosed & Hcommitted & Hcancelled).
  unfold Write. rewrite Hclosed, Hcommitted, Hcancelled.
  rewrite (bind_eq _ _ _ _ _ (Write_newMultipart_Chunked w T t Hw)). cbn beta iota.
  destruct (Write_loop_Chunked (S (List.length p)) w p 0 t T Hw (Nat.lt_succ_diag_r _))
    as (w' & t' & Hloop & Hw').
  exists w', t'. split; [ | exact Hw' ].
  rewrite Hloop. rewrite Z.add_0_l. reflexivity.
Qed.

Lemma Writes_Chunked ps :
  forall w t T,
    Chunked C w T ->
    exists rs w' t',
      Writes minChunkSize remote w ps t = (Some (rs, w'), t') /\
      Chunked C w' (T + len (List.concat ps)) /\
      Forall (fun r => snd r = None) rs.
Proof.
  induction ps as [ | p ps IH ]; intros w t T Hw; cbn [Writes List.concat].
  - exists [], w, t. rewrite len_nil, Z.add_0_r.
    split; [ reflexivity | split; [ exact Hw | constructor ] ].
  - destruct (Write_Chunked w p t T Hw) as (w1 & t1 & HW & Hw1).
    destruct (IH w1 t1 (T + len p) Hw1) as (rs & w' & t' & HWs & Hw' & Hrs).
    exists ((len p, None) :: rs), w', t'.
    rewrite (bind_eq _ _ _ _ _ HW). cbn beta iota.
    rewrite (bind_eq _ _ _ _ _ HWs). cbn beta iota.
    rewrite len_app, Z.add_assoc.
    split; [ reflexivity | split; [ exact Hw' | constructor; [ reflexivity | exact Hrs ] ] ].
Qed.

Lemma Commit_after_flush w t w1 t1 :
  terminal w = false ->
  flushPart remote w t = ((None, w1), t1) ->
  exists err t', Commit remote w t = ((err, set_committed w1 true), t').
Proof.
  intros Hopen Hflush.
  apply terminal_false in Hopen. destruct Hopen as (Hclosed & Hcommitted & Hcancelled).
  unfold Commit. rewrite Hclosed, Hcommitted, Hcancelled.
  rewrite (bind_eq _ _ _ _ _ Hflush). cbn beta iota. unfold bind, ret.
  destruct (NosClient.CompleteMultiUpload remote _ _ _ _ t1) as [[cerr | res] t2].
  - destruct (NosClient.AbortMultiUpload remote _ _ _ t2) as [aerr t3].
    eexists. eexists. reflexivity.
  - eexists. eexists. reflexivity.
Qed.

(** [Commit] on a chunked writer that took [T] bytes leaves the parts with
    the sizes [chunk_sizes C T]. *)
Lemma Commit_Chunked w t T :
  Chunked C w T ->
  exists err w' t',
    Commit remote w t = ((err, w'), t') /\ part_sizes w' = chunk_sizes C T.
Proof.
  intros (HC & Hopen & Hr & Hp & Hsmall & Hall & HT).
  pose proof (len_nonneg (w_readyPart w)) as Hr0.
  pose proof (len_nonneg (w_pendingPart w)) as Hp0.
  pose proof (len_nonneg (w_parts w)) as Hparts0.
  destruct (Z.eq_dec (len (w_readyPart w) + len (w_pendingPart w)) 0) as [ Hempty | Hdata ].
  - (* nothing buffered: nothing was written *)
    assert (Hflush : flushPart remote w t = ((None, w), t)).
    { unfold flushPart.
      replace (len (w_readyPart w) =? 0) with true by (symmetry; apply Z.eqb_eq; lia).
      replace (len (w_pendingPart w) =? 0) with true by (symmetry; apply Z.eqb_eq; lia).
      reflexivity. }
    destruct (Commit_after_flush w t w t Hopen Hflush) as (err & t' & Hcommit).
    exists err, (set_committed w true), t'. split; [ exact Hcommit | ].
    destruct Hsmall as (_ & Hparts); [ lia | ].
    unfold part_sizes, chunk_sizes. simpl_writer. rewrite Hparts in *.
    rewrite len_nil in HT.
    replace (T <=? 0) with true by (symmetry; apply Z.leb_le; lia). reflexivity.
  - destruct (flushPart_merge w t) as (etag & t1 & Hflush); [ lia | lia | ].
    destruct (Commit_after_flush w t _ t1 Hopen Hflush) as (err & t' & Hcommit).
    eexists. eexists. eexists. split; [ exact Hcommit | ].
    unfold part_sizes, chunk_sizes. simpl_writer.
    rewrite map_app. cbn [map upr_Size]. rewrite len_app.
    replace (T <=? 0) with false by (symmetry; apply Z.leb_gt; nia).
    destruct (Z.lt_ge_cases (len (w_readyPart w)) C) as [ Hlt | Hge ].
    + destruct (Hsmall Hlt) as (Hpend & Hparts). rewrite Hpend, Hparts in *.
      rewrite !len_nil in *.
      replace (T <? C) with true by (symmetry; apply Z.ltb_lt; lia).
      cbn [map app]. f_equal. lia.
    + assert (Hfull : len (w_readyPart w) = C) by lia.
      assert (Hdiv : T / C = len (w_parts w) + 1).
      { symmetry. apply (Z.div_unique T C _ (len (w_pendingPart w))); lia. }
      assert (Hmod : T mod C = len (w_pendingPart w)).
      { symmetry. apply (Z.mod_unique T C (len (w_parts w) + 1)); lia. }
      replace (T <? C) with false by (symmetry; apply Z.ltb_ge; nia).
      rewrite Hdiv, Hmod, Hfull, (map_Size_Forall C _ Hall).
      replace (Z.to_nat (len (w_parts w) + 1 - 1)) with (List.length (w_parts w))
        by (unfold len; lia).
      reflexivity.
Qed.

(** A writer for a new session has taken no bytes. *)
Lemma newWriter_Chunked d key multi :
  ChunkSize d = C -> Chunked C (newWriter d key multi []) 0.
Proof.
  intros HC. unfold Chunked. simpl_writer. unfold len. cbn [List.length].
  repeat split; auto; lia.
Qed.

(** Any run of [Write] calls on a writer for a new session, then [Commit]:
    every call returns, and the part sizes are [chunk_sizes] of the number
    of bytes written. *)
Lemma Writes_then_Commit_sizes d key multi ps t :
  ChunkSize d = C ->
  exists err w' t',
    Writes_then_Commit minChunkSize remote (newWriter d key multi []) ps t
    = (Some (err, w'), t')
    /\ part_sizes w' = chunk_sizes C (len (List.concat ps)).
Proof.
  intros HC.
  destruct (Writes_Chunked ps _ t 0 (newWriter_Chunked d key multi HC))
    as (rs & w1 & t1 & HWs & Hw1 & _).
  destruct (Commit_Chunked w1 t1 _ Hw1) as (err & w' & t' & Hcommit & Hsizes).
  exists err, w', t'. split; [ | rewrite Hsizes; f_equal; lia ].
  unfold Writes_then_Commit. rewrite (bind_eq _ _ _ _ _ HWs). cbn beta iota.
  rewrite (bind_eq _ _ _ _ _ Hcommit). reflexivity.
Qed.

End Chunking.

Lemma ok_remote_accepts : uploads_accepted ok_remote.
Proof.
  intros t bucket object uploadId partNumber body.
  exists "200 OK", "etag". split; [ reflexivity | discriminate ].
Qed.

(** C3.  Take a chunk size [C > 0] that is not below the floor, a store
    that accepts every part, and a writer for a new session.  However the
    same bytes are split into [Write] calls, every call returns, and after
    [Commit] the part sizes are the same: they are [chunk_sizes C N] for the
    [N] bytes written. *)
Theorem chunking_is_call_boundary_independent :
  forall (minChunkSize : Z) (remote : Remote) (d : driver) (key : string)
         (multi : Multi) (ps1 ps2 : list (list byte)) (t1 t2 : Trace),
    0 < ChunkSize d ->
    minChunkSize <= ChunkSize d ->
    uploads_accepted remote ->
    List.concat ps1 = List.concat ps2 ->
    exists err1 w1 t1' err2 w2 t2',
      Writes_then_Commit minChunkSize remote (newWriter d key multi []) ps1 t1
      = (Some (err1, w1), t1') /\
      Writes_then_Commit minChunkSize remote (newWriter d key multi []) ps2 t2
      = (Some (err2, w2), t2') /\
      part_sizes w1 = part_sizes w2 /\
      part_sizes w1 = chunk_sizes (ChunkSize d) (len (List.concat ps1)).
Proof.
  intros minChunkSize remote d key multi ps1 ps2 t1 t2 Hpos Hfloor Hacc Hsame.
  destruct (Writes_then_Commit_sizes minChunkSize remote (ChunkSize d) Hpos Hfloor Hacc
              d key multi ps1 t1 eq_refl) as (err1 & w1 & t1' & Hrun1 & Hsizes1).
  destruct (Writes_then_Commit_sizes minChunkSize remote (ChunkSize d) Hpos Hfloor Hacc
              d key multi ps2 t2 eq_refl) as (err2 & w2 & t2' & Hrun2 & Hsizes2).
  exists err1, w1, t1', err2, w2, t2'.
  split; [ exact Hrun1 | ]. split; [ exact Hrun2 | ].
  split; [ | exact Hsizes1 ].
  rewrite Hsizes1, Hsizes2, Hsame. reflexivity.
Qed.

(** 25 bytes written in one call, and in calls of 7 and 18 bytes. *)
Lemma chunking_is_call_boundary_independent_witness :
  exists err1 w1 t1' err2 w2 t2',
    Writes_then_Commit 10 ok_remote fresh_writer [bytes_25] []
    = (Some (err1, w1), t1') /\
    Writes_then_Commit 10 ok_remote fresh_writer [repeat x00 7; repeat x00 18] []
    = (Some (err2, w2), t2') /\
    part_sizes w1 = part_sizes w2 /\
    part_sizes w1 = chunk_sizes 10 25.
Proof.
  apply (chunking_is_call_boundary_independent 10 ok_remote test_driver "key"
           (mkMulti "key" 1) [bytes_25] [repeat x00 7; repeat x00 18] [] []).
  - cbn. lia.
  - cbn. lia.
  - exact ok_remote_accepts.
  - reflexivity.
Defined.

(** The driver's default chunk size meets both conditions on the chunk size,
    as does every chunk size [FromParameters] lets through. *)
Lemma defaultChunkSize_meets_floor :
  0 < defaultChunkSize /\ minChunkSize_NOS <= defaultChunkSize.
Proof. unfold defaultChunkSize, minChunkSize_NOS. cbn. lia. Qed.

(** The floor matters.  With chunk size 10 under a floor of 100, a second
    [Write] finds the last part (10 bytes) below the floor and starts the
    session over, so 20 + 5 bytes end as one part of 15 bytes where 25
    bytes in one call end as parts of 10 and 15. *)
Lemma chunking_below_the_floor_depends_on_calls :
  option_map (fun r => part_sizes (snd r))
             (fst (Writes_then_Commit 100 ok_remote fresh_writer [bytes_25] []))
  = Some [10; 15]
  /\ option_map (fun r => part_sizes (snd r))
                (fst (Writes_then_Commit 100 ok_remote fresh_writer
                        [repeat x00 20; repeat x00 5] []))
     = Some [15].
Proof. split; vm_compute; reflexivity. Qed.

(** C2, as the code has it.  With chunk size 10 and floor 10, on a writer
    for a new session and a store that accepts every part, one [Write] of
    25 bytes followed by [Commit] leaves two parts, of 10 and 15 bytes: the
    5 bytes left over are uploaded together with the second chunk. *)
Theorem Write_25_bytes_then_Commit_part_sizes :
  forall (remote : Remote) (d : driver) (key : string) (multi : Multi)
         (p : list byte) (t : Trace),
    ChunkSize d = 10 ->
    uploads_accepted remote ->
    len p = 25 ->
    exists err w' t',
      Writes_then_Commit 10 remote (newWriter d key multi []) [p] t = (Some (err, w'), t')
      /\ part_sizes w' = [10; 15].
Proof.
  intros remote d key multi p t HC Hacc Hlen.
  destruct (Writes_then_Commit_sizes 10 remote 10 ltac:(lia) ltac:(lia) Hacc
              d key multi [p] t HC) as (err & w' & t' & Hrun & Hsizes).
  exists err, w', t'. split; [ exact Hrun | ].
  rewrite Hsizes. cbn [List.concat]. rewrite app_nil_r, Hlen. reflexivity.
Qed.

Lemma Write_25_bytes_then_Commit_witness :
  exists err w' t',
    Writes_then_Commit 10 ok_remote fresh_writer [bytes_25] [] = (Some (err, w'), t')
    /\ part_sizes w' = [10; 15].
Proof.
  apply (Write_25_bytes_then_Commit_part_sizes ok_remote test_driver "key"
           (mkMulti "key" 1) bytes_25 []).
  - reflexivity.
  - exact ok_remote_accepts.
  - reflexivity.
Defined.

(** C2 as stated fails.  25 zero bytes are written in one call and
    committed: the store receives part 1 with 10 bytes and part 2 with 15
    bytes, and the writer's part sizes are [10, 15], not [10, 10, 5]. *)
Lemma Write_25_bytes_then_Commit_is_not_10_10_5 :
  Writes_then_Commit 10 ok_remote fresh_writer [bytes_25] []
  = (Some (None,
           mkWriter test_driver "key" (mkMulti "key" 1)
                    [mkUploadPartRet 1 "" "etag" 10; mkUploadPartRet 2 "" "etag" 15]
                    25 [] [] false true false),
     [ReqUploadPart "bucket" "key" 1 1 (repeat x00 10);
      ReqUploadPart "bucket" "key" 1 2 (repeat x00 15);
      ReqCompleteMultiUpload "bucket" "key" 1
        [mkUploadPart 1 "etag" 0; mkUploadPart 2 "etag" 0]])
  /\ part_sizes
       (mkWriter test_driver "key" (mkMulti "key" 1)
                 [mkUploadPartRet 1 "" "etag" 10; mkUploadPartRet 2 "" "etag" 15]
                 25 [] [] false true false)
     <> [10; 10; 5].
Proof. split; [ vm_compute; reflexivity | discriminate ]. Qed.

(** ** When [Write] returns *)

Section Termination.

Variable minChunkSize : Z.
Variable remote : Remote.

(** With both buffers full (or a chunk size that is not positive) an
    iteration of the loop changes nothing, so the loop goes on for ever. *)
Lemma Write_loop_stuck w p n t :
  ChunkSize (w_driver w) - len (w_readyPart w) <= 0 ->
  ChunkSize (w_driver w) - len (w_pendingPart w) <= 0 ->
  0 < len p ->
  forall fuel, Write_loop remote fuel w p n t = (None, t).
Proof.
  intros Hready Hpending Hp fuel.
  induction fuel as [ | fuel IH ]; cbn [Write_loop]; [ reflexivity | ].
  replace (len p >? 0) with true by (symmetry; rewrite Z.gtb_ltb; apply Z.ltb_lt; lia).
  unfold fill_ready.
  replace (ChunkSize (w_driver w) - len (w_readyPart w) >? 0) with false
    by (symmetry; rewrite Z.gtb_ltb; apply Z.ltb_ge; lia).
  replace (ChunkSize (w_driver w) - len (w_pendingPart w) >? 0) with false
    by (symmetry; rewrite Z.gtb_ltb; apply Z.ltb_ge; lia).
  exact IH.
Qed.

(** [fill_ready] leaves the driver and [pendingPart] alone, and either
    changes nothing or shortens [p]. *)
Lemma fill_ready_progress w p n w1 p1 n1 :
  0 < len p ->
  fill_ready w p n = (w1, p1, n1) ->
  w_driver w1 = w_driver w /\ w_pendingPart w1 = w_pendingPart w /\
  (List.length p1 <= List.length p)%nat /\
  ((w1, p1, n1) = (w, p, n) /\ ChunkSize (w_driver w) - len (w_readyPart w) <= 0
   \/ (List.length p1 < List.length p)%nat).
Proof.
  intros Hp. unfold fill_ready.
  assert (Hlenp : len p = Z.of_nat (List.length p)) by reflexivity.
  destruct (ChunkSize (w_driver w) - len (w_readyPart w) >? 0) eqn:Hneeded; zbool.
  - destruct (len p >=? ChunkSize (w_driver w) - len (w_readyPart w)) eqn:Hlen; zbool;
      intros H; inversion H; subst; simpl_writer.
    + unfold slice_from. rewrite length_skipn.
      repeat split; first [ reflexivity | lia | right; lia ].
    + cbn [List.length]. repeat split; first [ reflexivity | lia | right; lia ].
  - intros H; inversion H; subst. repeat split; auto.
Qed.

(** [S (length p)] iterations decide the loop: if it has not returned by
    then, it never returns. *)
Lemma Write_loop_None_forever fuel :
  forall w p n t,
    (List.length p < fuel)%nat ->
    fst (Write_loop remote fuel w p n t) = None ->
    forall fuel', fst (Write_loop remote fuel' w p n t) = None.
Proof.
  induction fuel as [ | fuel IH ]; intros w p n t Hfuel Hnone fuel'; [ lia | ].
  destruct fuel' as [ | fuel' ]; [ reflexivity | ].
  cbn [Write_loop] in Hnone |- *.
  destruct (len p >? 0) eqn:Hp; [ | discriminate ]. zbool.
  assert (Hlenp : len p = Z.of_nat (List.length p)) by reflexivity.
  destruct (fill_ready w p n) as [[w1 p1] n1] eqn:Hfill.
  destruct (fill_ready_progress _ _ _ _ _ _ Hp Hfill) as (Hd & Hpend & Hle & Hprogress).
  destruct (ChunkSize (w_driver w1) - len (w_pendingPart w1) >? 0) eqn:Hneeded; zbool.
  - destruct (len p1 >=? ChunkSize (w_driver w1) - len (w_pendingPart w1)) eqn:Hlen; zbool.
    + unfold bind in Hnone |- *.
      destruct (flushPart remote _ t) as [[[ferr | ] w2] t2]; [ discriminate | ].
      apply (IH _ _ _ _) ; [ | exact Hnone ].
      unfold slice_from. rewrite length_skipn.
      assert (len p1 = Z.of_nat (List.length p1)) by reflexivity. lia.
    + exfalso. destruct fuel as [ | fuel ]; [ lia | ].
      cbn [Write_loop] in Hnone.
      replace (len (@nil byte) >? 0) with false in Hnone by reflexivity.
      discriminate.
  - destruct Hprogress as [ (Hsame & Hready) | Hshorter ].
    + inversion Hsame; subst.
      rewrite Write_loop_stuck; [ reflexivity | lia | lia | lia ].
    + apply (IH _ _ _ _); [ lia | exact Hnone ].
Qed.

(** So [None] from [Write] is a call that does not return. *)
Lemma Write_None_forever w p t :
  fst (Write minChunkSize remote w p t) = None ->
  forall fuel t1 w1,
    Write_newMultipart minChunkSize remote w t = ((None, w1), t1) ->
    fst (Write_loop remote fuel w1 p 0 t1) = None.
Proof.
  unfold Write.
  destruct (w_closed w); [ discriminate | ].
  destruct (w_committed w); [ discriminate | ].
  destruct (w_cancelled w); [ discriminate | ].
  intros Hnone fuel t1 w1 Hrepair.
  rewrite (bind_eq _ _ _ _ _ Hrepair) in Hnone. cbn beta iota in Hnone.
  apply (Write_loop_None_forever (S (List.length p))); [ lia | exact Hnone ].
Qed.

Lemma flushPart_pending w t w' t' :
  flushPart remote w t = ((None, w'), t') ->
  w_driver w' = w_driver w /\ len (w_pendingPart w') = 0.
Proof.
  unfold flushPart. unfold_client.
  destruct ((len (w_readyPart w) =? 0) && (len (w_pendingPart w) =? 0)) eqn:Hempty.
  - intros H; inversion H; subst. apply andb_prop in Hempty. destruct Hempty as (_ & Hp).
    zbool. auto.
  - repeat break_match; intros H; inversion H; subst; simpl_writer; auto.
Qed.

Lemma Write_newMultipart_pending w t err w' t' :
  Write_newMultipart minChunkSize remote w t = ((err, w'), t') ->
  w_driver w' = w_driver w /\ w_pendingPart w' = w_pendingPart w.
Proof.
  unfold Write_newMultipart, NosClient.UploadPartCopy. unfold_client.
  repeat break_match; intros H; inversion H; subst; simpl_writer; auto.
Qed.

(** With a positive chunk size and [pendingPart] not full, the loop
    returns, whatever the store answers. *)
Lemma Write_loop_returns fuel :
  forall w p n t,
    0 < ChunkSize (w_driver w) ->
    len (w_pendingPart w) < ChunkSize (w_driver w) ->
    (List.length p < fuel)%nat ->
    exists r t', Write_loop remote fuel w p n t = (Some r, t').
Proof.
  induction fuel as [ | fuel IH ]; intros w p n t HC Hpending Hfuel; [ lia | ].
  cbn [Write_loop].
  destruct (len p >? 0) eqn:Hp; zbool; [ | eexists; eexists; reflexivity ].
  assert (Hlenp : len p = Z.of_nat (List.length p)) by reflexivity.
  destruct (fill_ready w p n) as [[w1 p1] n1] eqn:Hfill.
  destruct (fill_ready_progress _ _ _ _ _ _ Hp Hfill) as (Hd & Hpend & Hle & _).
  rewrite Hd, Hpend.
  replace (ChunkSize (w_driver w) - len (w_pendingPart w) >? 0) with true
    by (symmetry; rewrite Z.gtb_ltb; apply Z.ltb_lt; lia).
  destruct (len p1 >=? ChunkSize (w_driver w) - len (w_pendingPart w)) eqn:Hlen; zbool.
  - unfold bind.
    destruct (flushPart remote _ t) as [[[ferr | ] w2] t2] eqn:Hflush.
    + eexists. eexists. reflexivity.
    + apply flushPart_pending in Hflush. simpl_writer. destruct Hflush as (Hd2 & Hp2).
      apply IH.
      * rewrite Hd2, Hd. exact HC.
      * rewrite Hd2, Hd, Hp2. exact HC.
      * unfold slice_from. rewrite length_skipn.
        assert (len p1 = Z.of_nat (List.length p1)) by reflexivity. lia.
  - apply IH; simpl_writer.
    + rewrite Hd. exact HC.
    + rewrite Hd, len_app. assert (0 <= len p1) by apply len_nonneg. lia.
    + cbn [List.length]. lia.
Qed.

(** [Write] returns on every writer whose chunk size is positive and whose
    [pendingPart] is not full; every writer is so when it is opened, and
    stays so until a flush inside [Write] fails. *)
Lemma Write_returns w p t :
  0 < ChunkSize (w_driver w) ->
  len (w_pendingPart w) < ChunkSize (w_driver w) ->
  exists r t', Write minChunkSize remote w p t = (Some r, t').
Proof.
  intros HC Hpending. unfold Write, ret.
  destruct (w_closed w); [ eexists; eexists; reflexivity | ].
  destruct (w_committed w); [ eexists; eexists; reflexivity | ].
  destruct (w_cancelled w); [ eexists; eexists; reflexivity | ].
  unfold bind.
  destruct (Write_newMultipart minChunkSize remote w t) as [[[rerr | ] w1] t1] eqn:Hrepair.
  - eexists. eexists. reflexivity.
  - apply Write_newMultipart_pending in Hrepair. destruct Hrepair as (Hd & Hp).
    apply Write_loop_returns; [ rewrite Hd | rewrite Hd, Hp | lia ]; assumption.
Qed.

End Termination.

(** A flush that fails inside [Write] leaves both buffers full; the next
    [Write] of even one byte does not return. *)
Lemma Write_after_failed_flush_does_not_return :
  exists w' t',
    Write 10 rejecting_uploads_remote fresh_writer bytes_25 []
    = (Some (20, Some (Errorf "500 Internal Server Error"), w'), t')
    /\ forall fuel, fst (Write_loop rejecting_uploads_remote fuel w' [x00] 0 t') = None.
Proof.
  eexists. eexists. split; [ vm_compute; reflexivity | ].
  intros fuel. rewrite Write_loop_stuck; [ reflexivity | | | ]; vm_compute; congruence.
Qed.

(* ================================================================== *)
(** * Further properties of the writer *)

(** ** flushPart *)

Lemma uploaded_app (t1 t2 : Trace) : uploaded (t1 ++ t2) = uploaded t1 ++ uploaded t2.
Proof.
  induction t1 as [ | r t1 IH ]; [ reflexivity | ].
  destruct r; cbn [app uploaded]; rewrite IH; try reflexivity.
  rewrite app_assoc. reflexivity.
Qed.

Section FlushPart.

Variable remote : Remote.

(** What [UploadPart] returns, whatever the store answers. *)
Lemma UploadPart_cases bucket object uploadId partNumber (b : list byte) t r t' :
  NosClient.UploadPart remote bucket object uploadId partNumber (bytes_NewReader b) t
  = (r, t') ->
  t' = t ++ [ReqUploadPart bucket object uploadId partNumber b] /\
  ((exists err, r = inl err) \/
   (exists etag, etag <> "" /\ r = inr (mkUploadPart partNumber etag (len b)))).
Proof.
  unfold_client. cbn [Reader_bytes ContentLength].
  destruct (reply_UploadPart remote t bucket object uploadId partNumber b)
    as [ e | code status etag body ].
  - intros H; inversion H; subst. split; [ reflexivity | left; eauto ].
  - destruct (code =? StatusOK).
    + destruct (String.eqb_spec etag "") as [ He | He ];
        intros H; inversion H; subst; (split; [ reflexivity | ]).
      * left. eauto.
      * right. exists etag. split; [ exact He | reflexivity ].
    + intros H; inversion H; subst. split; [ reflexivity | left; eauto ].
Qed.

Lemma flushPart_failure :
  forall (w : writer) (t : Trace) (err : error) (w' : writer) (t' : Trace),
    flushPart remote w t = ((Some err, w'), t') ->
    w_parts w' = w_parts w /\
    w_readyPart w' ++ w_pendingPart w' = w_readyPart w ++ w_pendingPart w /\
    w_multi w' = w_multi w /\ w_size w' = w_size w /\
    exists partNumber body,
      t' = t ++ [ReqUploadPart (Bucket (w_driver w)) (w_key w) (m_UploadId (w_multi w))
                   partNumber body].
Proof.
  intros w t err w' t'. unfold flushPart.
  destruct ((len (w_readyPart w) =? 0) && (len (w_pendingPart w) =? 0));
    [ intros H; inversion H | ].
  unfold bind, ret.
  destruct (len (w_pendingPart w) <? ChunkSize (w_driver w)); simpl_writer.
  - destruct (NosClient.UploadPart remote _ _ _ _ _ t) as [r t1] eqn:Hup.
    apply UploadPart_cases in Hup. destruct Hup as (Ht1 & _).
    destruct r as [ e | part ]; intros H; inversion H; subst; simpl_writer.
    rewrite app_nil_r. repeat split; eauto.
  - destruct (NosClient.UploadPart remote _ _ _ _ _ t) as [r t1] eqn:Hup.
    apply UploadPart_cases in Hup. destruct Hup as (Ht1 & _).
    destruct r as [ e | part ]; intros H; inversion H; subst; simpl_writer.
    repeat split; eauto.
Qed.

(** What a [flushPart] that returns no error has done: nothing when both
    buffers were empty; otherwise one upload, one more part with the next
    number and the size of the body sent, and the bytes that were buffered
    are now the body followed by the buffers. *)
Lemma flushPart_success w t w' t' :
  flushPart remote w t = ((None, w'), t') ->
  (w_readyPart w = [] /\ w_pendingPart w = [] /\ w' = w /\ t' = t) \/
  (exists etag body,
     etag <> "" /\
     t' = t ++ [ReqUploadPart (Bucket (w_driver w)) (w_key w) (m_UploadId (w_multi w))
                  (int32 (len (w_parts w) + 1)) body] /\
     w_parts w' = w_parts w ++
                  [mkUploadPartRet (int32 (len (w_parts w) + 1)) "" etag (len body)] /\
     body ++ w_readyPart w' ++ w_pendingPart w' = w_readyPart w ++ w_pendingPart w /\
     w_pendingPart w' = []).
Proof.
  unfold flushPart.
  destruct ((len (w_readyPart w) =? 0) && (len (w_pendingPart w) =? 0)) eqn:Hempty.
  - intros H; inversion H; subst. left.
    apply andb_prop in Hempty. destruct Hempty as (Hr & Hp). zbool.
    apply len_zero_nil in Hr, Hp. auto.
  - intros H. right. unfold bind, ret in H.
    destruct (len (w_pendingPart w) <? ChunkSize (w_driver w)) eqn:Hsmall;
      simpl_writer.
    + destruct (NosClient.UploadPart remote _ _ _ _ _ t) as [r t1] eqn:Hup.
      apply UploadPart_cases in Hup. destruct Hup as (Ht1 & [ (e & Hr) | (etag & He & Hr) ]);
        subst r; inversion H; subst; simpl_writer.
      exists etag, (w_readyPart w ++ w_pendingPart w).
      rewrite app_nil_r. repeat split; auto.
    + destruct (NosClient.UploadPart remote _ _ _ _ _ t) as [r t1] eqn:Hup.
      apply UploadPart_cases in Hup. destruct Hup as (Ht1 & [ (e & Hr) | (etag & He & Hr) ]);
        subst r; inversion H; subst; simpl_writer.
      exists etag, (w_readyPart w).
      rewrite app_nil_r. repeat split; auto.
Qed.

(** X1.  When the upload fails, [flushPart] returns the error and records no
    part.  One upload request was sent, the session and the counters are as
    before, and every buffered byte is still buffered, in order. *)
Theorem flushPart_failure_keeps_parts_and_bytes :
  forall (w : writer) (t : Trace) (err : error) (w' : writer) (t' : Trace),
    flushPart remote w t = ((Some err, w'), t') ->
    w_parts w' = w_parts w /\
    w_readyPart w' ++ w_pendingPart w' = w_readyPart w ++ w_pendingPart w /\
    w_multi w' = w_multi w /\ w_size w' = w_size w /\
    exists partNumber body,
      t' = t ++ [ReqUploadPart (Bucket (w_driver w)) (w_key w) (m_UploadId (w_multi w))
                   partNumber body].
Proof. exact flushPart_failure. Qed.


End FlushPart.

(** The store refuses the part: the three buffered bytes stay buffered. *)
Lemma flushPart_failure_witness :
  w_parts (set_readyPart fresh_writer bytes_abc) = [] /\
  exists w' t',
    flushPart rejecting_uploads_remote (set_readyPart fresh_writer bytes_abc) []
    = ((Some (Errorf "500 Internal Server Error"), w'), t')
    /\ w_parts w' = [] /\ w_readyPart w' ++ w_pendingPart w' = bytes_abc.
Proof.
  split; [ reflexivity | ].
  destruct (flushPart rejecting_uploads_remote (set_readyPart fresh_writer bytes_abc) [])
    as [[err w'] t'] eqn:Hflush.
  assert (Herr : err = Some (Errorf "500 Internal Server Error"))
    by (vm_compute in Hflush; inversion Hflush; reflexivity).
  subst err. exists w', t'. split; [ reflexivity | ].
  destruct (flushPart_failure_keeps_parts_and_bytes rejecting_uploads_remote _ _ _ _ _ Hflush)
    as (Hparts & Hbytes & _).
  split; [ exact Hparts | exact Hbytes ].
Defined.


(** ** Part numbers *)

Lemma int32_small z : - 2 ^ 31 <= z < 2 ^ 31 -> int32 z = z.
Proof. intros H. unfold int32. rewrite Z.mod_small; lia. Qed.

Lemma int32_idem z : int32 (int32 z) = int32 z.
Proof.
  unfold int32. replace ((z + 2 ^ 31) mod 2 ^ 32 - 2 ^ 31 + 2 ^ 31)
    with ((z + 2 ^ 31) mod 2 ^ 32) by lia.
  rewrite Z.mod_mod by lia. reflexivity.
Qed.

Lemma numbered_nil : numbered_from_one [].
Proof. reflexivity. Qed.

Lemma numbered_snoc parts lastModified etag size :
  numbered_from_one parts ->
  numbered_from_one
    (parts ++ [mkUploadPartRet (int32 (len parts + 1)) lastModified etag size]).
Proof.
  unfold numbered_from_one. intros H.
  rewrite map_app, length_app, seq_app, map_app, H. reflexivity.
Qed.

Lemma numbered_single lastModified etag size :
  numbered_from_one [mkUploadPartRet 1 lastModified etag size].
Proof. reflexivity. Qed.

Lemma TranslateToUploadParts_map parts :
  TranslateToUploadParts parts
  = map (fun part => mkUploadPart (int32 (upr_PartNumber part)) (upr_Etag part) 0) parts.
Proof.
  unfold TranslateToUploadParts.
  assert (H : forall acc,
            fold_left (fun ps part =>
                         UploadParts_Append ps
                           (mkUploadPart (int32 (upr_PartNumber part)) (upr_Etag part) 0))
                      parts acc
            = acc ++ map (fun part =>
                            mkUploadPart (int32 (upr_PartNumber part)) (upr_Etag part) 0)
                         parts).
  { induction parts as [ | part parts IH ]; intros acc; cbn [fold_left map].
    - rewrite app_nil_r. reflexivity.
    - rewrite IH. unfold UploadParts_Append. rewrite <- app_assoc. reflexivity. }
  apply H.
Qed.

Section PartNumbers.

Variable minChunkSize : Z.
Variable remote : Remote.

Lemma flushPart_numbered w t err w' t' :
  numbered_from_one (w_parts w) ->
  flushPart remote w t = ((err, w'), t') ->
  numbered_from_one (w_parts w').
Proof.
  intros Hnum Hflush. destruct err as [ err | ].
  - apply flushPart_failure in Hflush. destruct Hflush as (Hparts & _).
    rewrite Hparts. exact Hnum.
  - apply flushPart_success in Hflush.
    destruct Hflush as [ (_ & _ & Hw & _) | (etag & body & _ & _ & Hparts & _) ].
    + subst w'. exact Hnum.
    + rewrite Hparts. apply numbered_snoc. exact Hnum.
Qed.

Lemma UploadPart_number bucket object uploadId partNumber content t part t' :
  NosClient.UploadPart remote bucket object uploadId partNumber content t = (inr part, t') ->
  up_PartNumber part = partNumber.
Proof.
  unfold_client.
  destruct (reply_UploadPart remote t bucket object uploadId partNumber (Reader_bytes content))
    as [ e | code status etag body ]; [ discriminate | ].
  destruct (code =? StatusOK); [ | discriminate ].
  destruct (String.eqb etag ""); [ discriminate | ].
  intros H; inversion H; subst. reflexivity.
Qed.

Lemma UploadPartCopy_number bucket object uploadId partNumber srcObject srcObjRange
    t part t' :
  NosClient.UploadPartCopy remote bucket object uploadId partNumber srcObject srcObjRange t
  = (inr part, t') ->
  up_PartNumber part = partNumber.
Proof.
  unfold NosClient.UploadPartCopy, bind.
  destruct ((if String.eqb srcObjRange ""
             then NosClient.GetObjectRange remote bucket srcObject srcObjRange
             else NosClient.GetObject remote bucket srcObject) t) as [[e | srcBody] t1].
  - discriminate.
  - apply UploadPart_number.
Qed.

Lemma Write_newMultipart_numbered w t err w' t' :
  numbered_from_one (w_parts w) ->
  Write_newMultipart minChunkSize remote w t = ((err, w'), t') ->
  numbered_from_one (w_parts w').
Proof.
  intros Hnum. unfold Write_newMultipart.
  destruct (last_Size (w_parts w)) as [ lastSize | ];
    [ | intros H; inversion H; subst; exact Hnum ].
  destruct (lastSize <? minChunkSize); [ | intros H; inversion H; subst; exact Hnum ].
  unfold bind, ret.
  destruct (NosClient.CompleteMultiUpload remote _ _ _ _ t) as [[cerr | res] t1].
  { destruct (NosClient.AbortMultiUpload remote _ _ _ t1) as [aerr t2].
    intros H; inversion H; subst; exact Hnum. }
  destruct (NosClient.InitMultiUpload remote _ _ t1) as [[ierr | multi] t2];
    [ intros H; inversion H; subst; exact Hnum | ].
  simpl_writer.
  destruct (w_size w <? minChunkSize).
  - destruct (NosClient.GetObject remote _ _ t2) as [[gerr | contents] t3];
      intros H; inversion H; subst; simpl_writer; [ exact Hnum | apply numbered_nil ].
  - destruct (NosClient.UploadPartCopy remote _ _ _ _ _ _ t2) as [[uerr | part] t3] eqn:Hcopy;
      intros H; inversion H; subst; simpl_writer; [ exact Hnum | ].
    apply UploadPartCopy_number in Hcopy. destruct part as [ pn etag size ].
    cbn in Hcopy. subst pn. apply numbered_single.
Qed.

Lemma fill_ready_parts w p n w' p' n' :
  fill_ready w p n = (w', p', n') -> w_parts w' = w_parts w.
Proof.
  unfold fill_ready. repeat break_match; intros H; inversion H; subst; reflexivity.
Qed.

Lemma Write_loop_numbered fuel :
  forall w p n t k err w' t',
    numbered_from_one (w_parts w) ->
    Write_loop remote fuel w p n t = (Some (k, err, w'), t') ->
    numbered_from_one (w_parts w').
Proof.
  induction fuel as [ | fuel IH ]; intros w p n t k err w' t' Hnum H;
    cbn [Write_loop] in H; [ discriminate | ].
  destruct (len p >? 0).
  - destruct (fill_ready w p n) as [[w1 p1] n1] eqn:Hfill.
    apply fill_ready_parts in Hfill. rewrite <- Hfill in Hnum.
    destruct (ChunkSize (w_driver w1) - len (w_pendingPart w1) >? 0).
    + destruct (len p1 >=? ChunkSize (w_driver w1) - len (w_pendingPart w1)).
      * unfold bind in H.
        destruct (flushPart remote _ t) as [[ferr w2] t2] eqn:Hflush.
        apply flushPart_numbered in Hflush; [ | exact Hnum ].
        destruct ferr.
        -- inversion H; subst. exact Hflush.
        -- eapply IH; eassumption.
      * eapply IH; [ | exact H ]. exact Hnum.
    + eapply IH; eassumption.
  - inversion H; subst. exact Hnum.
Qed.

Lemma apply_op_numbered w o t err w' t' :
  numbered_from_one (w_parts w) ->
  apply_op minChunkSize remote w o t = (Some (err, w'), t') ->
  numbered_from_one (w_parts w').
Proof.
  intros Hnum. destruct o as [ p | | | ]; cbn [apply_op]; unfold bind, ret.
  - unfold Write, bind, ret.
    destruct (w_closed w); [ intros H; inversion H; subst; exact Hnum | ].
    destruct (w_committed w); [ intros H; inversion H; subst; exact Hnum | ].
    destruct (w_cancelled w); [ intros H; inversion H; subst; exact Hnum | ].
    destruct (Write_newMultipart minChunkSize remote w t) as [[rerr w1] t1] eqn:Hrepair.
    apply Write_newMultipart_numbered in Hrepair; [ | exact Hnum ].
    destruct rerr; [ intros H; inversion H; subst; exact Hrepair | ].
    destruct (Write_loop remote (S (List.length p)) w1 p 0 t1)
      as [[[[k werr] w2] | ] t2] eqn:Hloop; [ | discriminate ].
    intros H; inversion H; subst.
    eapply Write_loop_numbered; eassumption.
  - unfold Close.
    destruct (w_closed w); [ intros H; inversion H; subst; exact Hnum | ].
    destruct (flushPart remote (set_closed w true) t) as [[ferr w1] t1] eqn:Hflush.
    apply flushPart_numbered in Hflush; [ | exact Hnum ].
    intros H; inversion H; subst. exact Hflush.
  - unfold Cancel, bind, ret.
    destruct (w_closed w); [ intros H; inversion H; subst; exact Hnum | ].
    destruct (w_committed w); [ intros H; inversion H; subst; exact Hnum | ].
    destruct (NosClient.AbortMultiUpload remote _ _ _ t) as [aerr t1].
    intros H; inversion H; subst. exact Hnum.
  - unfold Commit, bind, ret.
    destruct (w_closed w); [ intros H; inversion H; subst; exact Hnum | ].
    destruct (w_committed w); [ intros H; inversion H; subst; exact Hnum | ].
    destruct (w_cancelled w); [ intros H; inversion H; subst; exact Hnum | ].
    destruct (flushPart remote w t) as [[ferr w1] t1] eqn:Hflush.
    apply flushPart_numbered in Hflush; [ | exact Hnum ].
    destruct ferr; [ intros H; inversion H; subst; exact Hflush | ].
    destruct (NosClient.CompleteMultiUpload remote _ _ _ _ t1) as [[cerr | res] t2].
    + destruct (NosClient.AbortMultiUpload remote _ _ _ t2) as [aerr t3].
      intros H; inversion H; subst. exact Hflush.
    + intros H; inversion H; subst. exact Hflush.
Qed.

(** X3.  Part numbers stay gapless.  If the parts of a writer are numbered
    1, 2, 3, ... (as they are on a writer for a new session, which has
    none), they still are after any calls of [Write], [Close], [Cancel] and
    [Commit], whatever the store answered: a flush numbers its part
    [len(parts)+1], and a session started over has no part or part 1. *)
Theorem part_numbers_stay_gapless :
  forall (ops : list op) (w : writer) (t : Trace)
         (errs : list (option error)) (w' : writer) (t' : Trace),
    numbered_from_one (w_parts w) ->
    run_ops minChunkSize remote w ops t = (Some (errs, w'), t') ->
    numbered_from_one (w_parts w').
Proof.
  induction ops as [ | o ops IH ]; intros w t errs w' t' Hnum; cbn [run_ops];
    unfold bind, ret.
  - intros H; inversion H; subst. exact Hnum.
  - destruct (apply_op minChunkSize remote w o t) as [[[err w1] | ] t1] eqn:Hop;
      [ | discriminate ].
    apply apply_op_numbered in Hop; [ | exact Hnum ].
    destruct (run_ops minChunkSize remote w1 ops t1) as [[[errs1 w2] | ] t2] eqn:Hops;
      [ | discriminate ].
    intros H; inversion H; subst. eapply IH; eassumption.
Qed.

(** X4.  [Commit] on an open writer whose parts are numbered from one: once
    the flush has gone through, the next request is the Complete of the
    session, and it lists every part in order, under the numbers
    1, 2, ..., n (as [int32]; exactly so below 2^31 parts) and with the
    etags the store gave.  No size is sent. *)
Theorem Commit_completes_with_numbered_parts :
  forall (w w1 : writer) (t t1 : Trace),
    terminal w = false ->
    numbered_from_one (w_parts w) ->
    flushPart remote w t = ((None, w1), t1) ->
    exists (r : option error * writer) (rest : Trace) (uploadParts : UploadParts),
      Commit remote w t
      = (r, t1 ++ ReqCompleteMultiUpload (Bucket (w_driver w1)) (w_key w1)
                    (m_UploadId (w_multi w1)) uploadParts :: rest) /\
      List.length uploadParts = List.length (w_parts w1) /\
      map up_PartNumber uploadParts
      = map (fun i => int32 (Z.of_nat i + 1)) (seq 0 (List.length (w_parts w1))) /\
      (len (w_parts w1) < 2 ^ 31 ->
       map up_PartNumber uploadParts
       = map (fun i => Z.of_nat i + 1) (seq 0 (List.length (w_parts w1)))) /\
      map up_Etag uploadParts = map upr_Etag (w_parts w1) /\
      Forall (fun part => up_Size part = 0) uploadParts.
Proof.
  intros w w1 t t1 Hopen Hnum Hflush.
  pose proof (flushPart_numbered _ _ _ _ _ Hnum Hflush) as Hnum1.
  apply terminal_false in Hopen. destruct Hopen as (Hclosed & Hcommitted & Hcancelled).
  assert (Hnumbers :
    map up_PartNumber (TranslateToUploadParts (w_parts w1))
    = map (fun i => int32 (Z.of_nat i + 1)) (seq 0 (List.length (w_parts w1)))).
  { rewrite TranslateToUploadParts_map, map_map. cbn [up_PartNumber].
    rewrite <- (map_map upr_PartNumber int32). rewrite Hnum1, map_map.
    apply map_ext. intros i. apply int32_idem. }
  assert (Hrun : exists r rest,
    Commit remote w t
    = (r, t1 ++ ReqCompleteMultiUpload (Bucket (w_driver w1)) (w_key w1)
                  (m_UploadId (w_multi w1)) (TranslateToUploadParts (w_parts w1)) :: rest)).
  { unfold Commit. rewrite Hclosed, Hcommitted, Hcancelled.
    rewrite (bind_eq _ _ _ _ _ Hflush). cbn beta iota. simpl_writer. unfold bind, ret.
    destruct (NosClient.CompleteMultiUpload remote _ _ _ _ t1) as [[cerr | res] t2] eqn:Hc;
      apply CompleteMultiUpload_trace in Hc; subst t2.
    - pose proof (AbortMultiUpload_trace remote (Bucket (w_driver w1)) (w_key w1)
                    (m_UploadId (w_multi w1))
                    (t1 ++ [ReqCompleteMultiUpload (Bucket (w_driver w1)) (w_key w1)
                              (m_UploadId (w_multi w1))
                              (TranslateToUploadParts (w_parts w1))])) as Ha.
      destruct (NosClient.AbortMultiUpload remote _ _ _ _) as [aerr t3].
      cbn [snd] in Ha. subst t3. rewrite <- app_assoc. eexists. eexists. reflexivity.
    - eexists. exists []. reflexivity. }
  destruct Hrun as (r & rest & Hrun).
  exists r, rest, (TranslateToUploadParts (w_parts w1)).
  split; [ exact Hrun | ].
  split; [ rewrite TranslateToUploadParts_map; apply length_map | ].
  split; [ exact Hnumbers | ].
  split.
  - intros Hfew. rewrite Hnumbers. apply map_ext_in. intros i Hi.
    apply in_seq in Hi. apply int32_small. unfold len in Hfew. lia.
  - split.
    + rewrite TranslateToUploadParts_map, map_map. reflexivity.
    + rewrite TranslateToUploadParts_map. apply Forall_forall.
      intros part Hin. apply in_map_iff in Hin. destruct Hin as (x & Hx & _).
      subst part. reflexivity.
Qed.

End PartNumbers.

(** 25 bytes written and committed: the parts are numbered 1 and 2. *)
Lemma part_numbers_stay_gapless_witness :
  exists errs w' t',
    run_ops 10 ok_remote fresh_writer [OpWrite bytes_25; OpCommit] []
    = (Some (errs, w'), t')
    /\ numbered_from_one (w_parts w')
    /\ map upr_PartNumber (w_parts w') = [1; 2].
Proof.
  destruct (run_ops 10 ok_remote fresh_writer [OpWrite bytes_25; OpCommit] [])
    as [[[errs w'] | ] t'] eqn:Hrun; [ | vm_compute in Hrun; discriminate ].
  exists errs, w', t'. split; [ reflexivity | ].
  split.
  - apply (part_numbers_stay_gapless 10 ok_remote [OpWrite bytes_25; OpCommit]
             fresh_writer [] errs w' t' numbered_nil Hrun).
  - vm_compute in Hrun. inversion Hrun. reflexivity.
Defined.

(** Three bytes buffered, then [Commit]: one upload, then a Complete that
    lists part 1. *)
Lemma Commit_completes_with_numbered_parts_witness :
  exists r rest uploadParts,
    Commit ok_remote (set_readyPart fresh_writer bytes_abc) []
    = (r, [ReqUploadPart "bucket" "key" 1 1 bytes_abc]
          ++ ReqCompleteMultiUpload "bucket" "key" 1 uploadParts :: rest)
    /\ map up_PartNumber uploadParts = [1].
Proof.
  destruct (Commit_completes_with_numbered_parts ok_remote
              (set_readyPart fresh_writer bytes_abc)
              (set_parts fresh_writer [mkUploadPartRet 1 "" "etag" 3])
              [] [ReqUploadPart "bucket" "key" 1 1 bytes_abc]
              eq_refl numbered_nil eq_refl)
    as (r & rest & ups & Hrun & _ & Hnumbers & _).
  exists r, rest, ups. split; [ exact Hrun | exact Hnumbers ].
Defined.

(** ** Cancel, Close and the failures of Commit and Write *)

Section Lifecycle.

Variable minChunkSize : Z.
Variable remote : Remote.


(** X6.  [Close] on a writer that is not closed sets [closed] and sends at
    most one request, the upload of a part: it never completes or aborts
    the session.  With both buffers empty it sends nothing and returns no
    error.  A second [Close] is refused and sends nothing. *)
Theorem Close_flushes_once_and_never_ends_the_session :
  forall (w : writer) (t : Trace),
    w_closed w = false ->
    exists (err : option error) (w' : writer) (t' : Trace),
      Close remote w t = ((err, w'), t') /\
      w_closed w' = true /\
      (t' = t \/
       exists partNumber body,
         t' = t ++ [ReqUploadPart (Bucket (w_driver w)) (w_key w) (m_UploadId (w_multi w))
                      partNumber body]) /\
      (w_readyPart w = [] -> w_pendingPart w = [] -> err = None /\ t' = t) /\
      (forall t2, Close remote w' t2 = ((Some (Errorf "already closed"), w'), t2)).
Proof.
  intros w t Hclosed.
  assert (Hempty : w_readyPart w = [] -> w_pendingPart w = [] ->
                   flushPart remote (set_closed w true) t = ((None, set_closed w true), t)).
  { intros Hr Hp. unfold flushPart. simpl_writer. rewrite Hr, Hp. reflexivity. }
  unfold Close at 1. rewrite Hclosed.
  destruct (flushPart remote (set_closed w true) t) as [[err w'] t'] eqn:Hflush.
  exists err, w', t'. split; [ reflexivity | ].
  assert (Hflag : w_closed w' = true).
  { pose proof (flushPart_flags _ _ _ _ _ _ Hflush) as (Hc & _). exact Hc. }
  split; [ exact Hflag | ].
  split; [ | split ].
  - destruct err as [ err | ].
    + apply flushPart_failure in Hflush. simpl_writer.
      destruct Hflush as (_ & _ & _ & _ & pn & body & Ht). right. eauto.
    + apply flushPart_success in Hflush. simpl_writer.
      destruct Hflush as [ (_ & _ & _ & Ht) | (etag & body & _ & Ht & _) ];
        [ left; exact Ht | right; eauto ].
  - intros Hr Hp. specialize (Hempty Hr Hp). inversion Hempty. auto.
  - intros t2. apply Close_closed. exact Hflag.
Qed.

(** X7.  When the flush of [Commit] fails, [Commit] returns that error and
    stops: no Complete and no Abort is sent, [committed] is not set, and
    the writer is still open with its bytes buffered, so [Commit] can be
    called again. *)
Theorem Commit_flush_failure_leaves_writer_open :
  forall (w w1 : writer) (t t1 : Trace) (err : error),
    terminal w = false ->
    flushPart remote w t = ((Some err, w1), t1) ->
    Commit remote w t = ((Some err, w1), t1) /\
    terminal w1 = false /\
    w_parts w1 = w_parts w /\
    w_readyPart w1 ++ w_pendingPart w1 = w_readyPart w ++ w_pendingPart w /\
    exists partNumber body,
      t1 = t ++ [ReqUploadPart (Bucket (w_driver w)) (w_key w) (m_UploadId (w_multi w))
                   partNumber body].
Proof.
  intros w w1 t t1 err Hopen Hflush.
  pose proof (flushPart_flags _ _ _ _ _ _ Hflush) as (Hc1 & Hc2 & Hc3).
  pose proof (flushPart_failure _ _ _ _ _ _ Hflush) as (Hparts & Hbytes & _ & _ & Htrace).
  pose proof (terminal_false _ Hopen) as (Hclosed & Hcommitted & Hcancelled).
  split; [ | split; [ | split; [ exact Hparts | split; [ exact Hbytes | exact Htrace ] ] ] ].
  - unfold Commit. rewrite Hclosed, Hcommitted, Hcancelled.
    rewrite (bind_eq _ _ _ _ _ Hflush). reflexivity.
  - unfold terminal. rewrite Hc1, Hc2, Hc3, Hclosed, Hcommitted, Hcancelled. reflexivity.
Qed.

(** X8.  A [Write] that finds the last part below the floor first completes
    the session.  When that Complete fails, [Write] sends an Abort for the
    session and returns the Complete error with a count of 0; the writer is
    as it was, and none of [p] has been taken. *)
Theorem Write_repair_complete_failure :
  forall (w : writer) (p : list byte) (t t1 : Trace) (lastSize : Z) (err : error),
    terminal w = false ->
    last_Size (w_parts w) = Some lastSize ->
    lastSize < minChunkSize ->
    NosClient.CompleteMultiUpload remote (Bucket (w_driver w)) (w_key w)
      (m_UploadId (w_multi w)) (TranslateToUploadParts (w_parts w)) t = (inl err, t1) ->
    Write minChunkSize remote w p t
    = (Some (0, Some err, w),
       t ++ [ReqCompleteMultiUpload (Bucket (w_driver w)) (w_key w)
               (m_UploadId (w_multi w)) (TranslateToUploadParts (w_parts w));
             ReqAbortMultiUpload (Bucket (w_driver w)) (w_key w)
               (m_UploadId (w_multi w))]).
Proof.
  intros w p t t1 lastSize err Hopen Hlast Hsmall Hcomplete.
  pose proof (terminal_false _ Hopen) as (Hclosed & Hcommitted & Hcancelled).
  unfold Write. rewrite Hclosed, Hcommitted, Hcancelled.
  unfold Write_newMultipart. rewrite Hlast.
  replace (lastSize <? minChunkSize) with true by (symmetry; apply Z.ltb_lt; exact Hsmall).
  unfold bind at 1. unfold bind at 1. rewrite Hcomplete.
  pose proof (CompleteMultiUpload_trace _ _ _ _ _ _ _ _ Hcomplete) as Ht1.
  pose proof (AbortMultiUpload_trace remote (Bucket (w_driver w)) (w_key w)
                (m_UploadId (w_multi w)) t1) as Habort.
  unfold bind, ret.
  destruct (NosClient.AbortMultiUpload remote (Bucket (w_driver w)) (w_key w)
              (m_UploadId (w_multi w)) t1) as [aerr t2].
  cbn [snd] in Habort. subst t2 t1. rewrite <- app_assoc. reflexivity.
Qed.

End Lifecycle.


(** Three bytes are buffered when the writer is closed: one upload. *)
Lemma Close_flushes_once_witness :
  exists err w' t',
    Close ok_remote (set_readyPart fresh_writer bytes_abc) [] = ((err, w'), t') /\
    w_closed w' = true /\
    Close ok_remote w' t' = ((Some (Errorf "already closed"), w'), t').
Proof.
  destruct (Close_flushes_once_and_never_ends_the_session ok_remote
              (set_readyPart fresh_writer bytes_abc) [] eq_refl)
    as (err & w' & t' & Hclose & Hflag & _ & _ & Hagain).
  exists err, w', t'. split; [ exact Hclose | ]. split; [ exact Hflag | apply Hagain ].
Defined.

(** The store refuses the part that [Commit] flushes. *)
Lemma Commit_flush_failure_witness :
  Commit rejecting_uploads_remote (set_readyPart fresh_writer bytes_abc) []
  = ((Some (Errorf "500 Internal Server Error"), set_readyPart fresh_writer bytes_abc),
     [ReqUploadPart "bucket" "key" 1 1 bytes_abc]) /\
  terminal (set_readyPart fresh_writer bytes_abc) = false.
Proof.
  destruct (Commit_flush_failure_leaves_writer_open rejecting_uploads_remote
              (set_readyPart fresh_writer bytes_abc) (set_readyPart fresh_writer bytes_abc)
              [] [ReqUploadPart "bucket" "key" 1 1 bytes_abc]
              (Errorf "500 Internal Server Error") eq_refl eq_refl)
    as (Hcommit & Hopen & _).
  split; [ exact Hcommit | exact Hopen ].
Defined.

(** The resumed session has a part of 3 bytes under a floor of 10, and the
    store refuses to complete it. *)
Lemma Write_repair_complete_failure_witness :
  Write 10 failing_complete_remote resumed_writer bytes_XY []
  = (Some (0, Some (Errorf "500 Internal Server Error"), resumed_writer),
     [ReqCompleteMultiUpload "bucket" "key" 7 [mkUploadPart 1 "e1" 0];
      ReqAbortMultiUpload "bucket" "key" 7]).
Proof.
  apply (Write_repair_complete_failure 10 failing_complete_remote resumed_writer bytes_XY
           [] [ReqCompleteMultiUpload "bucket" "key" 7 [mkUploadPart 1 "e1" 0]] 3
           (Errorf "500 Internal Server Error")).
  - reflexivity.
  - reflexivity.
  - lia.
  - reflexivity.
Defined.

(** ** The bytes written reach the store, in order *)

Lemma uploaded_snoc_upload t bucket object uploadId partNumber body :
  uploaded (t ++ [ReqUploadPart bucket object uploadId partNumber body])
  = uploaded t ++ body.
Proof. rewrite uploaded_app. cbn [uploaded]. rewrite app_nil_r. reflexivity. Qed.

(** [fill_ready] does nothing when [readyPart] is full, and otherwise moves
    a prefix of [p] to the end of [readyPart]. *)
Lemma fill_ready_bytes w p n w1 p1 n1 :
  fill_ready w p n = (w1, p1, n1) ->
  w_pendingPart w1 = w_pendingPart w /\
  w_driver w1 = w_driver w /\
  ((ChunkSize (w_driver w) <= len (w_readyPart w) /\ w1 = w /\ p1 = p) \/
   (len (w_readyPart w) < ChunkSize (w_driver w) /\
    w_readyPart w1 ++ p1 = w_readyPart w ++ p /\
    (len (w_readyPart w1) < ChunkSize (w_driver w) -> p1 = []))).
Proof.
  unfold fill_ready.
  pose proof (len_nonneg p) as Hp.
  destruct (ChunkSize (w_driver w) - len (w_readyPart w) >? 0) eqn:Hneeded; zbool.
  - destruct (len p >=? ChunkSize (w_driver w) - len (w_readyPart w)) eqn:Hlen; zbool;
      intros H; inversion H; subst; simpl_writer;
      (split; [ reflexivity | split; [ reflexivity | right ] ]);
      (split; [ lia | ]); rewrite len_app.
    + rewrite <- app_assoc, slice_to_from, len_slice_to by lia.
      split; [ reflexivity | intros Hlt; lia ].
    + rewrite app_nil_r. split; [ reflexivity | intros Hlt; reflexivity ].
  - intros H; inversion H; subst.
    split; [ reflexivity | split; [ reflexivity | left ] ].
    repeat split. lia.
Qed.

Section Content.

Variable minChunkSize : Z.
Variable remote : Remote.

(** On a writer that holds nothing in [pendingPart] while [readyPart] is
    not full, a loop that returns no error has put all of [p] behind the
    bytes it held: what it uploaded and what it still buffers are, in
    order, the bytes buffered before followed by [p]. *)
Lemma Write_loop_content fuel :
  forall w p n t k w' t',
    (len (w_readyPart w) < ChunkSize (w_driver w) -> w_pendingPart w = []) ->
    Write_loop remote fuel w p n t = (Some (k, None, w'), t') ->
    uploaded t' ++ w_readyPart w' ++ w_pendingPart w'
    = uploaded t ++ w_readyPart w ++ w_pendingPart w ++ p.
Proof.
  induction fuel as [ | fuel IH ]; intros w p n t k w' t' Hinv H;
    cbn [Write_loop] in H; [ discriminate | ].
  destruct (len p >? 0) eqn:Hp; zbool.
  - destruct (fill_ready w p n) as [[w1 p1] n1] eqn:Hfill.
    apply fill_ready_bytes in Hfill. destruct Hfill as (Hpend & Hd & Hfill).
    assert (Horder : w_readyPart w1 ++ w_pendingPart w1 ++ p1
                     = w_readyPart w ++ w_pendingPart w ++ p).
    { destruct Hfill as [ (_ & Hw & Hp1) | (Hlt & Hbytes & _) ].
      - subst w1 p1. reflexivity.
      - rewrite Hpend, (Hinv Hlt). cbn [app]. exact Hbytes. }
    assert (Hinv1 : len (w_readyPart w1) < ChunkSize (w_driver w1) ->
                    w_pendingPart w1 = [] /\ (len (w_readyPart w) < ChunkSize (w_driver w)
                                              -> p1 = [])).
    { rewrite Hd, Hpend. intros Hlt1.
      destruct Hfill as [ (Hfull & Hw & _) | (Hlt & _ & Hrest) ].
      - subst w1. lia.
      - split; [ exact (Hinv Hlt) | intros _; exact (Hrest Hlt1) ]. }
    rewrite <- Horder.
    destruct (ChunkSize (w_driver w1) - len (w_pendingPart w1) >? 0) eqn:Hneeded.
    + destruct (len p1 >=? ChunkSize (w_driver w1) - len (w_pendingPart w1)) eqn:Hlen.
      * unfold bind in H.
        destruct (flushPart remote _ t) as [[[ferr | ] w2] t2] eqn:Hflush;
          [ inversion H | ].
        apply flushPart_success in Hflush. simpl_writer.
        destruct Hflush as [ (Hr & Hp2 & Hw2 & Ht2)
                           | (etag & body & _ & Ht2 & _ & Hbody & Hp3) ].
        -- subst w2 t2. apply IH in H; [ | simpl_writer; intros _; exact Hp2 ].
           simpl_writer. rewrite H, Hr, Hp2. cbn [app].
           apply app_eq_nil in Hp2. destruct Hp2 as (Hp2 & Hcut).
           rewrite Hp2. cbn [app].
           rewrite <- (slice_to_from (ChunkSize (w_driver w1) - len (w_pendingPart w1)) p1)
             at 2.
           rewrite Hp2 in Hcut. rewrite Hp2, Hcut. reflexivity.
        -- apply IH in H; [ | intros _; exact Hp3 ].
           rewrite H, Ht2, uploaded_snoc_upload.
           rewrite <- !app_assoc. f_equal.
           rewrite (app_assoc body), (app_assoc (body ++ w_readyPart w2)).
           rewrite <- (app_assoc body), Hbody.
           rewrite <- !app_assoc. do 2 f_equal.
           apply slice_to_from.
      * apply IH in H.
        -- simpl_writer. rewrite H, ?app_nil_r, <- ?app_assoc. reflexivity.
        -- simpl_writer. intros Hlt1. destruct (Hinv1 Hlt1) as (Hpe & Hrest).
           rewrite Hpe. cbn [app].
           destruct Hfill as [ (Hfull & Hw & _) | (Hlt & _ & _) ];
             [ subst w1; lia | exact (Hrest Hlt) ].
    + apply IH in H; [ exact H | ].
      intros Hlt1. exact (proj1 (Hinv1 Hlt1)).
  - inversion H; subst. simpl_writer.
    assert (p = []) by (apply len_zero_nil; pose proof (len_nonneg p); lia).
    subst p. rewrite !app_nil_r. reflexivity.
Qed.

End Content.

Section ContentChunked.

Variable minChunkSize : Z.
Variable remote : Remote.
Variable C : Z.

Hypothesis C_positive : 0 < C.
Hypothesis C_floor : minChunkSize <= C.
Hypothesis accepted : uploads_accepted remote.

Lemma Write_Chunked_content w p t T :
  Chunked C w T ->
  exists w' t',
    Write minChunkSize remote w p t = (Some (len p, None, w'), t') /\
    Chunked C w' (T + len p) /\
    uploaded t' ++ w_readyPart w' ++ w_pendingPart w'
    = uploaded t ++ w_readyPart w ++ w_pendingPart w ++ p.
Proof.
  intros Hw.
  destruct (Write_Chunked minChunkSize remote C C_positive C_floor accepted w p t T Hw)
    as (w' & t' & HW & Hw').
  exists w', t'. split; [ exact HW | ]. split; [ exact Hw' | ].
  pose proof Hw as (HC & Hopen & _ & _ & Hsmall & _).
  apply terminal_false in Hopen. destruct Hopen as (Hclosed & Hcommitted & Hcancelled).
  unfold Write in HW. rewrite Hclosed, Hcommitted, Hcancelled in HW.
  rewrite (bind_eq _ _ _ _ _
             (Write_newMultipart_Chunked minChunkSize remote C C_floor w T t Hw)) in HW.
  cbn beta iota in HW.
  apply Write_loop_content in HW; [ exact HW | ].
  rewrite HC. intros Hlt. exact (proj1 (Hsmall Hlt)).
Qed.

Lemma Writes_Chunked_content ps :
  forall w t T,
    Chunked C w T ->
    exists rs w' t',
      Writes minChunkSize remote w ps t = (Some (rs, w'), t') /\
      Chunked C w' (T + len (List.concat ps)) /\
      uploaded t' ++ w_readyPart w' ++ w_pendingPart w'
      = uploaded t ++ w_readyPart w ++ w_pendingPart w ++ List.concat ps.
Proof.
  induction ps as [ | p ps IH ]; intros w t T Hw; cbn [Writes List.concat].
  - exists [], w, t. rewrite len_nil, Z.add_0_r, !app_nil_r.
    split; [ reflexivity | split; [ exact Hw | reflexivity ] ].
  - destruct (Write_Chunked_content w p t T Hw) as (w1 & t1 & HW & Hw1 & Hbytes1).
    destruct (IH w1 t1 (T + len p) Hw1) as (rs & w' & t' & HWs & Hw' & Hbytes).
    exists ((len p, None) :: rs), w', t'.
    rewrite (bind_eq _ _ _ _ _ HW). cbn beta iota.
    rewrite (bind_eq _ _ _ _ _ HWs). cbn beta iota.
    rewrite len_app, Z.add_assoc.
    split; [ reflexivity | split; [ exact Hw' | ] ].
    rewrite Hbytes. rewrite (app_assoc (uploaded t1)), (app_assoc (uploaded t1 ++ _)).
    rewrite <- (app_assoc (uploaded t1)), Hbytes1.
    rewrite <- !app_assoc. reflexivity.
Qed.

(** After the flush, [Commit] sends only the Complete, and an Abort when
    the Complete failed. *)
Lemma Commit_uploads_nothing_after_flush w t w1 t1 :
  terminal w = false ->
  flushPart remote w t = ((None, w1), t1) ->
  exists err t',
    Commit remote w t = ((err, set_committed w1 true), t') /\
    uploaded t' = uploaded t1.
Proof.
  intros Hopen Hflush.
  apply terminal_false in Hopen. destruct Hopen as (Hclosed & Hcommitted & Hcancelled).
  unfold Commit. rewrite Hclosed, Hcommitted, Hcancelled.
  rewrite (bind_eq _ _ _ _ _ Hflush). cbn beta iota. simpl_writer. unfold bind, ret.
  destruct (NosClient.CompleteMultiUpload remote _ _ _ _ t1) as [[cerr | res] t2] eqn:Hc;
    apply CompleteMultiUpload_trace in Hc; subst t2.
  - match goal with
    | |- context [NosClient.AbortMultiUpload remote ?b ?k ?u ?t0] =>
        pose proof (AbortMultiUpload_trace remote b k u t0) as Ha;
        destruct (NosClient.AbortMultiUpload remote b k u t0) as [aerr t3]
    end.
    cbn [snd] in Ha. subst t3. eexists. eexists. split; [ reflexivity | ].
    rewrite !uploaded_app. cbn [uploaded]. rewrite !app_nil_r. reflexivity.
  - eexists. eexists. split; [ reflexivity | ].
    rewrite uploaded_app. cbn [uploaded]. rewrite app_nil_r. reflexivity.
Qed.

Lemma Commit_Chunked_content w t T :
  Chunked C w T ->
  exists err w' t',
    Commit remote w t = ((err, w'), t') /\
    uploaded t' = uploaded t ++ w_readyPart w ++ w_pendingPart w /\
    w_readyPart w' = [] /\ w_pendingPart w' = [].
Proof.
  intros (HC & Hopen & Hr & Hp & Hsmall & Hall & HT).
  pose proof (len_nonneg (w_readyPart w)) as Hr0.
  pose proof (len_nonneg (w_pendingPart w)) as Hp0.
  destruct (Z.eq_dec (len (w_readyPart w) + len (w_pendingPart w)) 0) as [ Hempty | Hdata ].
  - assert (Hre : w_readyPart w = []) by (apply len_zero_nil; lia).
    assert (Hpe : w_pendingPart w = []) by (apply len_zero_nil; lia).
    assert (Hflush : flushPart remote w t = ((None, w), t)).
    { unfold flushPart. rewrite Hre, Hpe. reflexivity. }
    destruct (Commit_uploads_nothing_after_flush w t w t Hopen Hflush)
      as (err & t' & Hcommit & Hup).
    exists err, (set_committed w true), t'. simpl_writer.
    rewrite Hre, Hpe, app_nil_r. auto.
  - destruct (flushPart_merge remote accepted w t) as (etag & t1 & Hflush);
      [ lia | lia | ].
    destruct (Commit_uploads_nothing_after_flush w t _ t1 Hopen Hflush)
      as (err & t' & Hcommit & Hup).
    eexists. eexists. eexists. split; [ exact Hcommit | ]. simpl_writer.
    split; [ | split; reflexivity ].
    rewrite Hup.
    apply flushPart_success in Hflush. simpl_writer.
    destruct Hflush as [ (Hre & Hpe & _) | (etag' & body & _ & Ht1 & _ & Hbody & _) ].
    + rewrite Hre, Hpe in Hdata. unfold len in Hdata. cbn in Hdata. lia.
    + rewrite Ht1, uploaded_snoc_upload. rewrite app_nil_r in Hbody.
      rewrite Hbody. reflexivity.
Qed.

End ContentChunked.

(** X9.  Take a chunk size [C > 0] that is not below the floor, a store
    that accepts every part, and a writer for a new session.  After any
    run of [Write] calls followed by [Commit], the bodies of the parts
    uploaded, put end to end in the order sent, are exactly the bytes
    written, in the order written; nothing is left in the buffers. *)
Theorem written_bytes_are_uploaded_in_order :
  forall (minChunkSize : Z) (remote : Remote) (d : driver) (key : string)
         (multi : Multi) (ps : list (list byte)) (t : Trace),
    0 < ChunkSize d ->
    minChunkSize <= ChunkSize d ->
    uploads_accepted remote ->
    exists err w' t',
      Writes_then_Commit minChunkSize remote (newWriter d key multi []) ps t
      = (Some (err, w'), t') /\
      uploaded t' = uploaded t ++ List.concat ps /\
      w_readyPart w' = [] /\ w_pendingPart w' = [].
Proof.
  intros minChunkSize remote d key multi ps t Hpos Hfloor Hacc.
  destruct (Writes_Chunked_content minChunkSize remote (ChunkSize d) Hpos Hfloor Hacc
              ps _ t 0 (newWriter_Chunked (ChunkSize d) Hpos d key multi eq_refl))
    as (rs & w1 & t1 & HWs & Hw1 & Hbytes).
  destruct (Commit_Chunked_content remote (ChunkSize d) Hpos Hacc w1 t1 _ Hw1)
    as (err & w' & t' & Hcommit & Hup & Hr & Hp).
  exists err, w', t'. split; [ | split; [ | split; assumption ] ].
  - unfold Writes_then_Commit. rewrite (bind_eq _ _ _ _ _ HWs). cbn beta iota.
    rewrite (bind_eq _ _ _ _ _ Hcommit). reflexivity.
  - rewrite Hup, Hbytes. simpl_writer. reflexivity.
Qed.

(** "abc" and then "XY" are written with chunk size 10: one part, "abcXY". *)
Lemma written_bytes_are_uploaded_in_order_witness :
  exists err w' t',
    Writes_then_Commit 10 ok_remote fresh_writer [bytes_abc; bytes_XY] []
    = (Some (err, w'), t') /\
    uploaded t' = bytes_abc ++ bytes_XY.
Proof.
  destruct (written_bytes_are_uploaded_in_order 10 ok_remote test_driver "key"
              (mkMulti "key" 1) [bytes_abc; bytes_XY] [])
    as (err & w' & t' & Hrun & Hup & _).
  - cbn. lia.
  - cbn. lia.
  - exact ok_remote_accepts.
  - exists err, w', t'. split; [ exact Hrun | exact Hup ].
Defined.

(** ** The sizes of the parts *)

Lemma sum_Z_app l1 l2 : sum_Z (l1 ++ l2) = sum_Z l1 + sum_Z l2.
Proof.
  induction l1 as [ | a l1 IH ]; cbn [app sum_Z fold_right]; [ reflexivity | ].
  fold (sum_Z (l1 ++ l2)). fold (sum_Z l1). rewrite IH. lia.
Qed.

Lemma sum_Z_repeat c k : sum_Z (repeat c k) = c * Z.of_nat k.
Proof.
  induction k as [ | k IH ]; cbn [repeat sum_Z fold_right]; [ lia | ].
  fold (sum_Z (repeat c k)). rewrite IH. lia.
Qed.

(** [chunk_sizes C N] adds up to [N]; every size but the last is [C]; every
    size is positive and below [2 * C]. *)
Lemma chunk_sizes_shape C N :
  0 < C -> 0 <= N ->
  sum_Z (chunk_sizes C N) = N /\
  Forall (fun s => s = C) (removelast (chunk_sizes C N)) /\
  Forall (fun s => 0 < s < 2 * C) (chunk_sizes C N).
Proof.
  intros HC HN. unfold chunk_sizes.
  destruct (N <=? 0) eqn:H0; zbool.
  - cbn [sum_Z fold_right removelast].
    split; [ lia | split; constructor ].
  - destruct (N <? C) eqn:H1; zbool.
    + cbn [sum_Z fold_right removelast].
      split; [ lia | split; [ constructor | ] ].
      constructor; [ lia | constructor ].
    + pose proof (Z.div_mod N C ltac:(lia)) as Hdm.
      pose proof (Z.mod_pos_bound N C HC) as Hmod.
      assert (Hq : 1 <= N / C) by (apply Z.div_le_lower_bound; lia).
      rewrite removelast_last, sum_Z_app, sum_Z_repeat.
      split; [ | split ].
      * cbn [sum_Z fold_right]. rewrite Z2Nat.id by lia. nia.
      * apply Forall_forall. intros s Hs. apply repeat_spec in Hs. exact Hs.
      * apply Forall_app. split.
        -- apply Forall_forall. intros s Hs. apply repeat_spec in Hs. subst s. lia.
        -- constructor; [ lia | constructor ].
Qed.

(** X10.  Under the conditions of X9, after the [Write] calls and the
    [Commit] the part sizes add up to the number of bytes written; every
    part but the last has exactly the chunk size, so none of them is below
    the floor; and every part is non-empty and smaller than two chunks. *)
Theorem committed_part_sizes_meet_the_floor :
  forall (minChunkSize : Z) (remote : Remote) (d : driver) (key : string)
         (multi : Multi) (ps : list (list byte)) (t : Trace),
    0 < ChunkSize d ->
    minChunkSize <= ChunkSize d ->
    uploads_accepted remote ->
    exists err w' t',
      Writes_then_Commit minChunkSize remote (newWriter d key multi []) ps t
      = (Some (err, w'), t') /\
      sum_Z (part_sizes w') = len (List.concat ps) /\
      Forall (fun s => s = ChunkSize d /\ minChunkSize <= s) (removelast (part_sizes w')) /\
      Forall (fun s => 0 < s < 2 * ChunkSize d) (part_sizes w').
Proof.
  intros minChunkSize remote d key multi ps t Hpos Hfloor Hacc.
  destruct (Writes_then_Commit_sizes minChunkSize remote (ChunkSize d) Hpos Hfloor Hacc
              d key multi ps t eq_refl) as (err & w' & t' & Hrun & Hsizes).
  exists err, w', t'. split; [ exact Hrun | ].
  rewrite Hsizes.
  destruct (chunk_sizes_shape (ChunkSize d) (len (List.concat ps)) Hpos (len_nonneg _))
    as (Hsum & Hfront & Hall).
  split; [ exact Hsum | split; [ | exact Hall ] ].
  eapply Forall_impl; [ | exact Hfront ].
  intros s Hs. cbn beta in Hs. subst s. split; [ reflexivity | exact Hfloor ].
Qed.

Lemma committed_part_sizes_witness :
  exists err w' t',
    Writes_then_Commit 10 ok_remote fresh_writer [bytes_25; bytes_abc] []
    = (Some (err, w'), t') /\
    sum_Z (part_sizes w') = 28 /\
    Forall (fun s => s = 10 /\ 10 <= s) (removelast (part_sizes w')).
Proof.
  destruct (committed_part_sizes_meet_the_floor 10 ok_remote test_driver "key"
              (mkMulti "key" 1) [bytes_25; bytes_abc] [])
    as (err & w' & t' & Hrun & Hsum & Hfront & _).
  - cbn. lia.
  - cbn. lia.
  - exact ok_remote_accepts.
  - exists err, w', t'. split; [ exact Hrun | ]. split; [ exact Hsum | exact Hfront ].
Defined.

(** ** Calls of Write that return, and calls that do not *)

(** X11.  [Write] returns, with a count and possibly an error, whenever the
    chunk size is positive and [pendingPart] is not full, whatever the
    store answers.  Every writer is in that state when it is opened, and
    stays in it for as long as no flush inside [Write] has failed. *)
Theorem Write_returns_while_pending_is_not_full :
  forall (minChunkSize : Z) (remote : Remote) (w : writer) (p : list byte) (t : Trace),
    0 < ChunkSize (w_driver w) ->
    len (w_pendingPart w) < ChunkSize (w_driver w) ->
    exists r t', Write minChunkSize remote w p t = (Some r, t').
Proof. exact Write_returns. Qed.

Lemma Write_returns_witness :
  exists r t', Write 10 rejecting_uploads_remote fresh_writer bytes_25 [] = (Some r, t').
Proof.
  apply (Write_returns_while_pending_is_not_full 10 rejecting_uploads_remote
           fresh_writer bytes_25 []).
  - reflexivity.
  - reflexivity.
Defined.

(** X12.  On an open writer with both buffers full and no session to start
    over, a [Write] of one byte or more never returns: each iteration of
    its loop finds no room in either buffer, takes nothing and flushes
    nothing, so no number of iterations ends it.  A failed flush inside
    [Write] leaves the writer in this state. *)
Theorem Write_with_both_buffers_full_never_returns :
  forall (minChunkSize : Z) (remote : Remote) (w : writer) (p : list byte) (t : Trace),
    terminal w = false ->
    (forall lastSize, last_Size (w_parts w) = Some lastSize -> minChunkSize <= lastSize) ->
    ChunkSize (w_driver w) <= len (w_readyPart w) ->
    ChunkSize (w_driver w) <= len (w_pendingPart w) ->
    p <> [] ->
    Write minChunkSize remote w p t = (None, t) /\
    forall fuel n, Write_loop remote fuel w p n t = (None, t).
Proof.
  intros minChunkSize remote w p t Hopen Hlast Hready Hpending Hp.
  assert (Hlen : 0 < len p).
  { destruct p as [ | b p ]; [ congruence | ]. unfold len. cbn [List.length]. lia. }
  assert (Hloop : forall fuel n, Write_loop remote fuel w p n t = (None, t)).
  { intros fuel n. apply Write_loop_stuck; lia. }
  split; [ | exact Hloop ].
  apply terminal_false in Hopen. destruct Hopen as (Hclosed & Hcommitted & Hcancelled).
  unfold Write. rewrite Hclosed, Hcommitted, Hcancelled.
  assert (Hrepair : Write_newMultipart minChunkSize remote w t = ((None, w), t)).
  { unfold Write_newMultipart.
    destruct (last_Size (w_parts w)) as [ s | ]; [ | reflexivity ].
    specialize (Hlast s eq_refl).
    replace (s <? minChunkSize) with false by (symmetry; apply Z.ltb_ge; lia).
    reflexivity. }
  rewrite (bind_eq _ _ _ _ _ Hrepair). cbn beta iota. apply Hloop.
Qed.

(** The store refuses the first part of a 25-byte [Write]; the writer is
    left with two full buffers, and the next [Write] does not return. *)
Lemma Write_with_both_buffers_full_witness :
  Write 10 rejecting_uploads_remote fresh_writer bytes_25 []
  = (Some (20, Some (Errorf "500 Internal Server Error"),
           set_size (set_pendingPart (set_readyPart fresh_writer (repeat x00 10))
                                     (repeat x00 10)) 20),
     [ReqUploadPart "bucket" "key" 1 1 (repeat x00 10)]) /\
  Write 10 rejecting_uploads_remote
        (set_size (set_pendingPart (set_readyPart fresh_writer (repeat x00 10))
                                   (repeat x00 10)) 20)
        bytes_abc [ReqUploadPart "bucket" "key" 1 1 (repeat x00 10)]
  = (None, [ReqUploadPart "bucket" "key" 1 1 (repeat x00 10)]).
Proof.
  split; [ vm_compute; reflexivity | ].
  apply (Write_with_both_buffers_full_never_returns 10 rejecting_uploads_remote).
  - reflexivity.
  - intros lastSize H. discriminate H.
  - vm_compute. discriminate.
  - vm_compute. discriminate.
  - discriminate.
Defined.

(* ================================================================== *)
(** * Further properties of the client and the resolver *)

(** ** ListMulti *)

Section ListMultiFacts.

Variable remote : Remote.

Lemma ListMultiResult_trace bucket keyMarker t r t' :
  NosClient.ListMultiResult remote bucket keyMarker t = (r, t') ->
  t' = t ++ [ReqListMultiResult bucket keyMarker].
Proof.
  unfold_client.
  destruct (reply_ListMultiResult remote t bucket keyMarker)
    as [ e | code status etag body ]; [ | destruct (code =? StatusOK) ];
    intros H; inversion H; reflexivity.
Qed.

Lemma ListMulti_loop_bounded (i : nat) :
  forall bucket prefix keyMarker multis t r t',
    NosClient.ListMulti_loop remote i bucket prefix keyMarker multis t = (r, t') ->
    exists reqs,
      t' = t ++ reqs /\
      (List.length reqs <= i)%nat /\
      (0 < i -> 0 < List.length reqs)%nat /\
      Forall (lists_uploads_of bucket) reqs /\
      (forall found,
         r = inr found ->
         Forall (fun u => String.prefix prefix (u_Key u) = true) multis ->
         Forall (fun u => String.prefix prefix (u_Key u) = true) found).
Proof.
  induction i as [ | i IH ]; intros bucket prefix keyMarker multis t r t';
    cbn [NosClient.ListMulti_loop].
  - intros H; inversion H; subst. exists []. rewrite app_nil_r.
    repeat split; auto; try lia. intros found Hf. inversion Hf; subst. auto.
  - unfold bind, ret.
    destruct (NosClient.ListMultiResult remote bucket keyMarker t) as [[e | result] t1] eqn:Hreq;
      apply ListMultiResult_trace in Hreq; subst t1.
    + intros H; inversion H; subst.
      exists [ReqListMultiResult bucket keyMarker].
      repeat split; cbn [List.length]; try lia.
      * constructor; [ exists keyMarker; reflexivity | constructor ].
      * intros found Hf. discriminate Hf.
    + assert (Hacc : Forall (fun u => String.prefix prefix (u_Key u) = true) multis ->
                     Forall (fun u => String.prefix prefix (u_Key u) = true)
                            (multis ++ filter (fun multi => String.prefix prefix (u_Key multi))
                                              (lmr_Uploads result))).
      { intros Hm. apply Forall_app. split; [ exact Hm | ].
        apply Forall_forall. intros u Hu. apply filter_In in Hu. exact (proj2 Hu). }
      destruct (lmr_IsTruncated result); cbn [negb].
      * intros H. apply IH in H.
        destruct H as (reqs & Ht' & Hlen & _ & Hall & Hfound).
        exists (ReqListMultiResult bucket keyMarker :: reqs).
        rewrite Ht', <- app_assoc. cbn [app List.length].
        repeat split; try lia.
        -- constructor; [ exists keyMarker; reflexivity | exact Hall ].
        -- intros found Hf Hm. apply (Hfound found Hf). apply Hacc. exact Hm.
      * intros H; inversion H; subst.
        exists [ReqListMultiResult bucket keyMarker].
        repeat split; cbn [List.length]; try lia.
        -- constructor; [ exists keyMarker; reflexivity | constructor ].
        -- intros found Hf Hm. inversion Hf; subst. apply Hacc. exact Hm.
Qed.

(** X13.  Whatever the store answers, [ListMulti] sends at least one and at
    most [MAX_TYR_TIMES] = 8 requests, all of them listings of the
    outstanding uploads of the bucket, and every upload it returns has a
    key that starts with the prefix. *)
Theorem ListMulti_sends_at_most_eight_requests :
  forall (bucket prefix delimiter keyMarker : string) (t : Trace),
  exists reqs : Trace,
    snd (NosClient.ListMulti remote bucket prefix delimiter keyMarker t) = t ++ reqs /\
    (1 <= List.length reqs <= 8)%nat /\
    Forall (lists_uploads_of bucket) reqs /\
    (forall found,
       fst (NosClient.ListMulti remote bucket prefix delimiter keyMarker t) = inr found ->
       Forall (fun u => String.prefix prefix (u_Key u) = true) found).
Proof.
  intros bucket prefix delimiter keyMarker t. unfold NosClient.ListMulti.
  destruct (NosClient.ListMulti_loop remote NosClient.MAX_TYR_TIMES bucket prefix keyMarker [] t)
    as [r t'] eqn:Hloop.
  apply ListMulti_loop_bounded in Hloop.
  destruct Hloop as (reqs & Ht' & Hlen & Hpos & Hall & Hfound).
  exists reqs. cbn [fst snd].
  split; [ exact Ht' | ]. split; [ | split; [ exact Hall | ] ].
  - unfold NosClient.MAX_TYR_TIMES in *. lia.
  - intros found Hf. apply (Hfound found Hf). constructor.
Qed.

(** A listing that goes well for [results] and then fails: the error is all
    that [ListMulti_loop] returns. *)
Lemma ListMulti_loop_Paged_then_error bucket prefix t keyMarker results t1 :
  Paged remote bucket t keyMarker results true t1 ->
  forall (i : nat) (multis : list Upload) (next : string) (err : error) (t2 : Trace),
    (List.length results < i)%nat ->
    next = lmr_NextKeyMarker (last results (mkListMultiResult "" [] false)) ->
    NosClient.ListMultiResult remote bucket next t1 = (inl err, t2) ->
    NosClient.ListMulti_loop remote i bucket prefix keyMarker multis t = (inl err, t2).
Proof.
  remember true as more eqn:Hmore.
  induction 1 as [ t keyMarker result t' Hreq
                 | t keyMarker result t1' results more t' Hreq Htrunc Hrest IH ];
    intros i multis next err t2 Hi Hnext Herr.
  - destruct i as [ | i ]; [ cbn in Hi; lia | ].
    destruct i as [ | i ]; [ cbn in Hi; lia | ].
    cbn [NosClient.ListMulti_loop]. rewrite (bind_eq _ _ _ _ _ Hreq).
    rewrite Hmore. cbn [negb]. cbn [last] in Hnext. subst next.
    rewrite (bind_eq _ _ _ _ _ Herr). reflexivity.
  - destruct i as [ | i ]; [ cbn in Hi; lia | ].
    cbn [NosClient.ListMulti_loop]. rewrite (bind_eq _ _ _ _ _ Hreq).
    rewrite Htrunc. cbn [negb].
    apply (IH Hmore i _ next err t2).
    + cbn [List.length] in Hi. lia.
    + rewrite Hnext. inversion Hrest; reflexivity.
    + exact Herr.
Qed.

End ListMultiFacts.

(** ** The errors of Writer(path, true) *)

Section ResolverErrors.

Variable remote : Remote.

(** X14.  [Writer(path, true)] fails as soon as a request for a page of the
    listing fails, on the first page or on a later one, and then it does
    not look at the uploads of the pages it has read, whether or not one of
    them has the key.  The error is the one of the failed request, except
    that a message starting with "404" is turned into [PathNotFoundError]
    for the path. *)
Theorem Writer_append_fails_when_a_page_fails :
  forall (d : driver) (path : string) (t : Trace),
    (forall err t2,
       NosClient.ListMultiResult remote (Bucket d) "" t = (inl err, t2) ->
       Writer remote d path true t = (inl (parseError path err), t2)) /\
    (forall results t1 err t2,
       Paged remote (Bucket d) t "" results true t1 ->
       (List.length results < NosClient.MAX_TYR_TIMES)%nat ->
       NosClient.ListMultiResult remote (Bucket d)
         (lmr_NextKeyMarker (last results (mkListMultiResult "" [] false))) t1
       = (inl err, t2) ->
       Writer remote d path true t = (inl (parseError path err), t2)) /\
    (forall err,
       parseError path err
       = if String.prefix "404" (Error err) then PathNotFoundError path else err).
Proof.
  intros d path t. split; [ | split ].
  - intros err t2 Hreq. unfold Writer, NosClient.ListMulti. cbn [negb].
    unfold NosClient.MAX_TYR_TIMES. cbn [NosClient.ListMulti_loop].
    unfold bind at 1. unfold bind at 1. rewrite Hreq. reflexivity.
  - intros results t1 err t2 Hpaged Hlen Hreq. unfold Writer, NosClient.ListMulti.
    cbn [negb].
    rewrite (bind_eq _ _ _ _ _
               (ListMulti_loop_Paged_then_error remote (Bucket d) (nosPath path) t ""
                  results t1 Hpaged NosClient.MAX_TYR_TIMES [] _ err t2 Hlen eq_refl Hreq)).
    reflexivity.
  - intros err. reflexivity.
Qed.

End ResolverErrors.

(** The upload for ["key"] is on the first page, and the second page is
    answered with 404: path not found. *)
Lemma Writer_append_fails_when_a_page_fails_witness :
  Writer second_page_missing_remote test_driver "/key" true []
  = (inl (PathNotFoundError "/key"),
     [ReqListMultiResult "bucket" ""; ReqListMultiResult "bucket" "next"]).
Proof.
  apply (proj1 (proj2 (Writer_append_fails_when_a_page_fails second_page_missing_remote
                         test_driver "/key" []))
           [mkListMultiResult "next" [mkUpload "key" 7] true]
           [ReqListMultiResult "bucket" ""] (Errorf "404 Not Found")).
  - exact (Paged_last second_page_missing_remote "bucket" [] ""
             (mkListMultiResult "next" [mkUpload "key" 7] true)
             [ReqListMultiResult "bucket" ""] eq_refl).
  - cbn. unfold NosClient.MAX_TYR_TIMES. lia.
  - reflexivity.
Defined.

(** ** nosPath *)

Lemma nosPath_slashes (path : string) :
  exists k, path = String.append (slashes k) (nosPath path).
Proof.
  unfold nosPath. induction path as [ | c rest IH ].
  - exists O. reflexivity.
  - cbn [TrimLeft_slash]. destruct (Ascii.eqb_spec c "/"%char) as [ Hc | Hc ].
    + destruct IH as (k & Hk). exists (S k). cbn [slashes String.append].
      rewrite <- Hk, Hc. reflexivity.
    + exists O. reflexivity.
Qed.

Lemma nosPath_no_leading_slash (path rest : string) :
  nosPath path <> String "/"%char rest.
Proof.
  unfold nosPath. induction path as [ | c path IH ]; cbn [TrimLeft_slash].
  - discriminate.
  - destruct (Ascii.eqb_spec c "/"%char) as [ Hc | Hc ]; [ exact IH | ].
    intros H. inversion H. contradiction.
Qed.

(** X15.  [nosPath] removes the leading slashes of a path and nothing else:
    the path is some slashes followed by the key, the key does not start
    with a slash, and a key is its own key. *)
Theorem nosPath_strips_exactly_the_leading_slashes :
  forall path : string,
    (exists k, path = String.append (slashes k) (nosPath path)) /\
    (forall rest, nosPath path <> String "/"%char rest) /\
    nosPath (nosPath path) = nosPath path.
Proof.
  intros path. split; [ apply nosPath_slashes | ].
  split; [ apply nosPath_no_leading_slash | ].
  pose proof (nosPath_no_leading_slash path) as Hno.
  unfold nosPath in *. destruct (TrimLeft_slash path) as [ | c rest ]; [ reflexivity | ].
  cbn [TrimLeft_slash]. destruct (Ascii.eqb_spec c "/"%char) as [ Hc | Hc ];
    [ | reflexivity ].
  subst c. exfalso. apply (Hno rest). reflexivity.
Qed.

(** ** The size of a resumed writer *)

Lemma sum_sizes_from parts :
  forall acc,
    0 <= acc ->
    Forall (fun part => 0 <= upr_Size part) parts ->
    acc + sum_Z (map upr_Size parts) < 2 ^ 63 ->
    fold_left (fun size part => int64 (size + int64 (upr_Size part))) parts acc
    = acc + sum_Z (map upr_Size parts).
Proof.
  induction parts as [ | part parts IH ]; intros acc Hacc Hall Hsum;
    cbn [fold_left map sum_Z fold_right] in *.
  - lia.
  - fold (sum_Z (map upr_Size parts)) in *.
    inversion Hall as [ | part' parts' Hpart Hrest ]; subst.
    assert (Hnonneg : 0 <= sum_Z (map upr_Size parts)).
    { clear - Hrest. induction Hrest as [ | q qs Hq _ IHq ];
        cbn [map sum_Z fold_right]; [ lia | ].
      fold (sum_Z (map upr_Size qs)). lia. }
    rewrite (int64_small (upr_Size part)) by lia.
    rewrite (int64_small (acc + upr_Size part)) by lia.
    rewrite IH; [ lia | lia | exact Hrest | lia ].
Qed.

(** X16.  A writer that resumes a session starts with [Size()] equal to the
    sum of the sizes of the parts listed, when no size is negative and the
    sum fits in an [int64]; it starts open, with empty buffers. *)
Theorem newWriter_size_is_the_sum_of_the_parts :
  forall (d : driver) (key : string) (multi : Multi) (parts : list UploadPartRet),
    Forall (fun part => 0 <= upr_Size part) parts ->
    sum_Z (map upr_Size parts) < 2 ^ 63 ->
    Size (newWriter d key multi parts) = sum_Z (map upr_Size parts) /\
    terminal (newWriter d key multi parts) = false /\
    w_readyPart (newWriter d key multi parts) = [] /\
    w_pendingPart (newWriter d key multi parts) = [].
Proof.
  intros d key multi parts Hall Hsum.
  split; [ | repeat split ].
  unfold Size. cbn [newWriter w_size]. unfold sum_sizes.
  rewrite sum_sizes_from; [ lia | lia | exact Hall | lia ].
Qed.

Lemma newWriter_size_witness :
  Size (newWriter test_driver "key" (mkMulti "key" 7)
          [mkUploadPartRet 1 "" "e1" 10; mkUploadPartRet 2 "" "e2" 3]) = 13.
Proof.
  apply (newWriter_size_is_the_sum_of_the_parts test_driver "key" (mkMulti "key" 7)
           [mkUploadPartRet 1 "" "e1" 10; mkUploadPartRet 2 "" "e2" 3]).
  - repeat constructor; cbn; lia.
  - cbn. lia.
Defined.


(* ========================================================================= *)
(** * Further properties of Stat, List and Delete *)

Lemma last_byte_append_slash (s : string) :
  last_byte (String.append s "/") = Some "/"%char.
Proof.
  induction s as [|c s IH]; [reflexivity|].
  cbn [String.append last_byte].
  destruct (String.append s "/") eqn:E; [destruct s; discriminate|].
  exact IH.
Qed.

Lemma Objects_List_loop_trace remote fuel d path :
  forall res files directories t,
    exists reqs,
      snd (Objects.List_loop remote fuel d path res files directories t) = t ++ reqs.
Proof.
  induction fuel as [|fuel IH]; intros res files directories t.
  - exists []. cbn. now rewrite app_nil_r.
  - cbn [Objects.List_loop].
    destruct (Objects.directory_names (Objects.lor_CommonPrefixes res)) as [dirs|].
    2:{ exists []. cbn. now rewrite app_nil_r. }
    destruct (Objects.lor_IsTruncated res).
    2:{ exists []. cbn. now rewrite app_nil_r. }
    unfold Objects.bind, Objects.ListObjects at 1.
    match goal with
    | |- context [match ?x with DoError _ => _ | Response _ _ _ _ => _ end] =>
        destruct x as [err|code status etag [err|res']]
    end.
    + eexists. cbn. reflexivity.
    + destruct (code =? StatusOK); eexists; cbn; reflexivity.
    + destruct (code =? StatusOK).
      * match goal with
        | |- context [Objects.List_loop remote fuel d path res' ?f ?ds ?t0] =>
            destruct (IH res' f ds t0) as [reqs Hreqs]
        end.
        eexists. rewrite Hreqs, <- app_assoc. reflexivity.
      * eexists. cbn. reflexivity.
Qed.

Lemma file_names_slash contents :
  Forall starts_with_slash (Objects.file_names contents).
Proof.
  unfold Objects.file_names. apply Forall_forall. intros name Hin.
  apply in_map_iff in Hin. destruct Hin as [c [<- _]]. eexists. reflexivity.
Qed.

Lemma directory_names_slash commonPrefixes :
  forall dirs,
    Objects.directory_names commonPrefixes = Some dirs -> Forall starts_with_slash dirs.
Proof.
  induction commonPrefixes as [|cp rest IH]; intros dirs H; cbn in H.
  - inversion H. constructor.
  - destruct (drop_last_byte (Objects.cp_Prefix cp)) as [dir|]; [|discriminate].
    destruct (Objects.directory_names rest) as [dirs'|]; [|discriminate].
    inversion H; subst. constructor; [eexists; reflexivity | now apply IH].
Qed.

Lemma directory_names_app xs :
  forall ys dxs dys,
    Objects.directory_names xs = Some dxs ->
    Objects.directory_names ys = Some dys ->
    Objects.directory_names (xs ++ ys) = Some (dxs ++ dys).
Proof.
  induction xs as [|cp xs IH]; intros ys dxs dys Hx Hy; cbn in *.
  - inversion Hx. exact Hy.
  - destruct (drop_last_byte (Objects.cp_Prefix cp)) as [dir|]; [|discriminate].
    destruct (Objects.directory_names xs) as [dxs'|] eqn:E; [|discriminate].
    inversion Hx; subst. rewrite (IH ys dxs' dys eq_refl Hy). reflexivity.
Qed.

Lemma directory_names_app_inv xs :
  forall ys ds,
    Objects.directory_names (xs ++ ys) = Some ds ->
    exists dxs dys,
      Objects.directory_names xs = Some dxs /\
      Objects.directory_names ys = Some dys /\ ds = dxs ++ dys.
Proof.
  induction xs as [|cp xs IH]; intros ys ds H; cbn in *.
  - exists [], ds. auto.
  - destruct (drop_last_byte (Objects.cp_Prefix cp)) as [dir|]; [|discriminate].
    destruct (Objects.directory_names (xs ++ ys)) as [ds'|] eqn:E; [|discriminate].
    destruct (IH ys ds' E) as [dxs [dys [Hx [Hy ->]]]].
    inversion H; subst. rewrite Hx. exists (Replace_empty_by_slash_once dir :: dxs), dys.
    auto.
Qed.

Lemma Objects_List_loop_names remote fuel d path :
  forall res files directories t names,
    Forall starts_with_slash files ->
    Forall starts_with_slash directories ->
    fst (Objects.List_loop remote fuel d path res files directories t) = Some (Ok names) ->
    Forall starts_with_slash names.
Proof.
  induction fuel as [|fuel IH]; intros res files directories t names Hf Hd H.
  - discriminate.
  - cbn [Objects.List_loop] in H.
    destruct (Objects.directory_names (Objects.lor_CommonPrefixes res)) as [dirs|] eqn:Edirs;
      [|discriminate].
    assert (Hf' : Forall starts_with_slash
                    (files ++ Objects.file_names (Objects.lor_Contents res)))
      by (apply Forall_app; split; [exact Hf | apply file_names_slash]).
    assert (Hd' : Forall starts_with_slash (directories ++ dirs))
      by (apply Forall_app; split; [exact Hd | now apply (directory_names_slash _ _ Edirs)]).
    destruct (Objects.lor_IsTruncated res).
    + unfold Objects.bind in H.
      destruct (Objects.ListObjects remote (Bucket d) (nosPath path) "/"
                  (Objects.lor_NextMarker res) Objects.listMax t) as [[err|res'] t1];
        [discriminate|].
      exact (IH _ _ _ _ _ Hf' Hd' H).
    + cbn in H. inversion H; subst. apply Forall_app; split; assumption.
Qed.

Lemma Objects_List_loop_Listed remote d path :
  forall pages t marker t',
    Objects.Listed remote (Bucket d) (nosPath path) "/" Objects.listMax t marker pages t' ->
    forall first files directories dirs fuel,
      Objects.lor_IsTruncated first = true ->
      Objects.lor_NextMarker first = marker ->
      Objects.directory_names
        (Objects.lor_CommonPrefixes first ++ flat_map Objects.lor_CommonPrefixes pages)
        = Some dirs ->
      (List.length pages < fuel)%nat ->
      Objects.List_loop remote fuel d path first files directories t =
      (Some (Ok ((files ++ Objects.file_names
                    (Objects.lor_Contents first ++ flat_map Objects.lor_Contents pages))
                 ++ directories ++ dirs)), t').
Proof.
  intros pages t marker t' HL.
  induction HL as [t marker res t' Hres Hlast | t marker res t1 pages t' Hres Hmore HL IH];
    intros first files directories dirs fuel Htr Hmk Hdirs Hfuel.
  - destruct fuel as [|[|fuel]]; [cbn in Hfuel; lia | cbn in Hfuel; lia |].
    cbn [flat_map] in *. rewrite app_nil_r in *.
    apply directory_names_app_inv in Hdirs.
    destruct Hdirs as [d1 [d2 [H1 [H2 ->]]]].
    cbn [Objects.List_loop]. rewrite H1, Htr, Hmk.
    unfold Objects.bind at 1. rewrite Hres. rewrite H2, Hlast.
    unfold Objects.ret, Objects.file_names. rewrite !map_app, <- !app_assoc. reflexivity.
  - destruct fuel as [|fuel]; [cbn in Hfuel; lia|].
    cbn [flat_map] in *.
    apply directory_names_app_inv in Hdirs.
    destruct Hdirs as [d1 [d2 [H1 [H2 ->]]]].
    cbn [Objects.List_loop]. rewrite H1, Htr, Hmk.
    unfold Objects.bind at 1. rewrite Hres.
    rewrite (IH res _ _ d2 fuel Hmore eq_refl H2) by (cbn in Hfuel; lia).
    unfold Objects.file_names. rewrite !map_app, <- !app_assoc. reflexivity.
Qed.

Lemma Append_keys_Objects contents :
  forall dmo,
    Objects.Append_keys dmo contents =
    Objects.mkDeleteMultiObjects (Objects.dmo_Quiet dmo)
      (Objects.dmo_Objects dmo
       ++ map (fun key => Objects.mkDeleteObject (Objects.c_Key key)) contents).
Proof.
  unfold Objects.Append_keys.
  induction contents as [|c contents IH]; intros dmo; cbn [fold_left map].
  - rewrite app_nil_r. now destruct dmo.
  - rewrite IH. unfold Objects.DeleteMultiObjects_Append. cbn.
    now rewrite <- app_assoc.
Qed.

Lemma sent_deletes_app t1 t2 :
  Objects.sent_deletes (t1 ++ t2) = Objects.sent_deletes t1 ++ Objects.sent_deletes t2.
Proof.
  induction t1 as [|r t1 IH]; [reflexivity|].
  destruct r; cbn; now rewrite IH.
Qed.

Lemma Objects_Delete_loop_grows remote fuel d path :
  forall res dmo t,
    exists reqs,
      snd (Objects.Delete_loop remote fuel d path res dmo t) = t ++ reqs /\
      Objects.each_extends (Objects.dmo_Objects dmo) (Objects.sent_deletes reqs) /\
      Forall (fun r => match r with
                       | Objects.ReqDeleteMultiObjects _ sent =>
                           Objects.dmo_Quiet sent = Objects.dmo_Quiet dmo
                       | _ => True
                       end) reqs.
Proof.
  induction fuel as [|fuel IH]; intros res dmo t.
  - exists []. cbn. rewrite app_nil_r. auto.
  - cbn [Objects.Delete_loop].
    destruct (Objects.lor_Contents res) as [|c contents] eqn:Econtents.
    { exists []. cbn. rewrite app_nil_r. auto. }
    rewrite Append_keys_Objects.
    set (dmo' := Objects.mkDeleteMultiObjects _ _).
    assert (Hext : exists more, more <> [] /\
                     Objects.dmo_Objects dmo' = Objects.dmo_Objects dmo ++ more).
    { eexists. split; [|reflexivity]. discriminate. }
    unfold Objects.bind at 1. unfold Objects.DeleteMultiObjects_ at 1.
    set (answer := match Objects.reply_DeleteMultiObjects remote t (Bucket d) dmo' with
                   | DoError err => Some err
                   | Response code status _ _ =>
                       if code =? StatusOK then None else Some (Errorf status)
                   end).
    destruct answer as [err|].
    { exists [Objects.ReqDeleteMultiObjects (Bucket d) dmo']. cbn.
      repeat split; auto. }
    destruct (Objects.lor_IsTruncated res); cbn [negb].
    2:{ exists [Objects.ReqDeleteMultiObjects (Bucket d) dmo']. cbn.
        repeat split; auto. }
    unfold Objects.bind at 1.
    destruct (Objects.ListObjects remote (Bucket d) (nosPath path) "" "" Objects.listMax
                (t ++ [Objects.ReqDeleteMultiObjects (Bucket d) dmo']))
      as [[err|res'] t1] eqn:EL.
    + assert (Ht1 : t1 = (t ++ [Objects.ReqDeleteMultiObjects (Bucket d) dmo'])
                         ++ [Objects.ReqListObjects (Bucket d) (nosPath path) "" ""
                               Objects.listMax])
        by (unfold Objects.ListObjects in EL; inversion EL; reflexivity).
      subst t1. eexists. rewrite <- app_assoc. cbn. repeat split; auto.
    + assert (Ht1 : t1 = (t ++ [Objects.ReqDeleteMultiObjects (Bucket d) dmo'])
                         ++ [Objects.ReqListObjects (Bucket d) (nosPath path) "" ""
                               Objects.listMax])
        by (unfold Objects.ListObjects in EL; inversion EL; reflexivity).
      subst t1.
      destruct (IH res' dmo'
                  ((t ++ [Objects.ReqDeleteMultiObjects (Bucket d) dmo'])
                   ++ [Objects.ReqListObjects (Bucket d) (nosPath path) "" ""
                         Objects.listMax])) as [reqs [Htrace [Hgrow Hquiet]]].
      exists (Objects.ReqDeleteMultiObjects (Bucket d) dmo'
              :: Objects.ReqListObjects (Bucket d) (nosPath path) "" "" Objects.listMax
              :: reqs).
      rewrite Htrace, <- !app_assoc. cbn. repeat split; auto.
Qed.


Ltac trace_longer H :=
  try unfold Objects.ret in H;
  apply (f_equal snd) in H; cbn [snd] in H;
  apply (f_equal (@List.length _)) in H;
  rewrite ?length_app in H; cbn [List.length] in H; lia.

Lemma last_byte_None (s : string) : last_byte s = None -> s = "".
Proof.
  induction s as [|c s IH]; [reflexivity|].
  destruct s as [|c' s']; [discriminate|].
  intros H. cbn [last_byte] in H. specialize (IH H). discriminate.
Qed.

Lemma List_path_Some (path : string) :
  path <> "" -> exists p, Objects.List_path path = Some p.
Proof.
  intros Hne. unfold Objects.List_path.
  destruct (String.eqb path "/"); [eauto|].
  destruct (last_byte path) as [c|] eqn:E.
  - destruct (Ascii.eqb c "/"); eauto.
  - apply last_byte_None in E. contradiction.
Qed.

Lemma List_path_add_slash (path : string) (c : ascii) :
  last_byte path = Some c -> c <> "/"%char ->
  Objects.List_path path = Some (String.append path "/") /\
  Objects.List_path (String.append path "/") = Some (String.append path "/").
Proof.
  intros Hlast Hc. unfold Objects.List_path. split.
  - destruct (String.eqb path "/") eqn:E.
    + apply String.eqb_eq in E. subst. cbn in Hlast. congruence.
    + rewrite Hlast. apply Ascii.eqb_neq in Hc. rewrite Hc. reflexivity.
  - destruct (String.eqb (String.append path "/") "/"); [reflexivity|].
    rewrite last_byte_append_slash. reflexivity.
Qed.

(** Destructs the scrutinee of an innermost [match] or [if] of the goal. *)
Ltac break_inner :=
  match goal with
  | |- context [match ?x with _ => _ end] =>
      lazymatch x with
      | context [match _ with _ => _ end] => fail
      | _ => destruct x eqn:?
      end
  end; cbv beta iota.

Lemma fetchFileInfo_cases
    (Time : Type) (time_Parse : string -> string -> error + Time)
    (strconv_ParseInt : string -> error + Z)
    (remote : Objects.Remote) (d : driver) (path : string) (t : Objects.Trace) :
  exists r,
    Objects.fetchFileInfo Time time_Parse strconv_ParseInt remote d path t =
      (r, t ++ [Objects.ReqHeadObject (Bucket d) (nosPath path)]) /\
    (r = inr None <->
     existsb (fun suffix => HasSuffix path suffix) Objects.filePathSuffix = true /\
     exists status contentLength lastModified,
       Objects.reply_HeadObject remote t (Bucket d) (nosPath path) =
       Objects.HeadResponse 404 status contentLength lastModified) /\
    (forall fi, r = inr (Some fi) ->
                Objects.fi_Path fi = path /\ Objects.fi_IsDir fi = false).
Proof.
  unfold Objects.fetchFileInfo, Objects.HeadObject, Objects.bind, Objects.ret.
  destruct (Objects.reply_HeadObject remote t (Bucket d) (nosPath path))
    as [err|code status contentLength lastModified].
  - eexists. split; [reflexivity|]. split.
    + split; [discriminate|]. intros [_ [? [? [? H]]]]. discriminate.
    + discriminate.
  - destruct (code =? StatusOK) eqn:Eok.
    + apply Z.eqb_eq in Eok. subst code.
      repeat break_inner; (eexists; split; [reflexivity|]; split;
        [ split; [discriminate|]; intros [_ [? [? [? H]]]]; discriminate
        | intros fi H; inversion H; subst; auto ]).
    + destruct (code =? 404) eqn:E404.
      * apply Z.eqb_eq in E404. subst code.
        destruct (existsb (fun suffix => HasSuffix path suffix) Objects.filePathSuffix).
        -- eexists. split; [reflexivity|]. split; [|discriminate].
           split; eauto.
        -- eexists. split; [reflexivity|]. split; [|discriminate].
           split; [discriminate|]. intros [H _]. discriminate.
      * eexists. split; [reflexivity|]. split; [|discriminate].
        split; [discriminate|]. intros [_ [? [? [? H]]]]. inversion H; subst.
        discriminate.
Qed.

(** X17.  [Stat] asks the store once or twice: a HEAD of the object, and
    after it at most one listing, of at most one key under the same name. *)
Theorem Stat_sends_a_head_and_at_most_one_listing
    (Time : Type) (zeroTime : Time) (time_Parse : string -> string -> error + Time)
    (strconv_ParseInt : string -> error + Z)
    (remote : Objects.Remote) (d : driver) (path : string) (t : Objects.Trace) :
  let sent := snd (Objects.Stat Time zeroTime time_Parse strconv_ParseInt remote d path t) in
  sent = t ++ [Objects.ReqHeadObject (Bucket d) (nosPath path)] \/
  sent = t ++ [Objects.ReqHeadObject (Bucket d) (nosPath path);
               Objects.ReqListObjects (Bucket d) (nosPath path) "" "" 1].
Proof.
  cbv zeta.
  destruct (fetchFileInfo_cases Time time_Parse strconv_ParseInt remote d path t)
    as [r [Hfetch _]].
  unfold Objects.Stat, Objects.bind. rewrite Hfetch.
  destruct r as [err|[fi|]]; [|left; reflexivity|left; reflexivity].
  right. unfold Objects.bind, Objects.ListObjects, Objects.ret.
  repeat break_inner; cbn [snd]; rewrite <- app_assoc; reflexivity.
Qed.

(** X18.  [Stat] answers [PathNotFoundError] after the HEAD alone exactly
    when the store answered the HEAD with status 404 and the path ends in
    [/data], [/link] or [/startedat]. *)
Theorem Stat_not_found_without_listing
    (Time : Type) (zeroTime : Time) (time_Parse : string -> string -> error + Time)
    (strconv_ParseInt : string -> error + Z)
    (remote : Objects.Remote) (d : driver) (path : string) (t : Objects.Trace) :
  Objects.Stat Time zeroTime time_Parse strconv_ParseInt remote d path t =
    (inl (PathNotFoundError path), t ++ [Objects.ReqHeadObject (Bucket d) (nosPath path)])
  <->
  (existsb (fun suffix => HasSuffix path suffix) Objects.filePathSuffix = true /\
   exists status contentLength lastModified,
     Objects.reply_HeadObject remote t (Bucket d) (nosPath path) =
     Objects.HeadResponse 404 status contentLength lastModified).
Proof.
  destruct (fetchFileInfo_cases Time time_Parse strconv_ParseInt remote d path t)
    as [r [Hfetch [Habsent _]]].
  rewrite <- Habsent.
  unfold Objects.Stat, Objects.bind. rewrite Hfetch.
  destruct r as [err|[fi|]].
  - split; [|discriminate]. intros H. exfalso.
    pose proof (f_equal snd H) as Hsnd. cbn [snd] in Hsnd.
    unfold Objects.bind, Objects.ListObjects, Objects.ret in Hsnd.
    revert Hsnd. repeat break_inner; cbn [snd]; intros Hsnd;
      apply (f_equal (@List.length _)) in Hsnd;
      rewrite !length_app in Hsnd; cbn [List.length] in Hsnd; lia.
  - split; discriminate.
  - split; reflexivity.
Qed.

(** X19.  What [Stat] returns names the path it was asked about, and a
    directory is only ever reported from the listing, with size 0 and the
    zero time. *)
Theorem Stat_directory_comes_from_the_listing
    (Time : Type) (zeroTime : Time) (time_Parse : string -> string -> error + Time)
    (strconv_ParseInt : string -> error + Z)
    (remote : Objects.Remote) (d : driver) (path : string) (t : Objects.Trace)
    (fi : Objects.FileInfoFields Time) :
  fst (Objects.Stat Time zeroTime time_Parse strconv_ParseInt remote d path t) = inr fi ->
  Objects.fi_Path fi = path /\
  (Objects.fi_IsDir fi = true ->
   Objects.fi_Size fi = 0 /\ Objects.fi_ModTime fi = zeroTime /\
   snd (Objects.Stat Time zeroTime time_Parse strconv_ParseInt remote d path t) =
     t ++ [Objects.ReqHeadObject (Bucket d) (nosPath path);
           Objects.ReqListObjects (Bucket d) (nosPath path) "" "" 1]).
Proof.
  destruct (fetchFileInfo_cases Time time_Parse strconv_ParseInt remote d path t)
    as [r [Hfetch [_ Hfile]]].
  unfold Objects.Stat, Objects.bind. rewrite Hfetch.
  destruct r as [err|[fi'|]].
  - unfold Objects.bind, Objects.ListObjects, Objects.ret.
    repeat break_inner; cbn [fst snd]; intros H; try discriminate;
      inversion H; subst; cbn;
      (split; [reflexivity|]); intros Hdir; try discriminate;
      rewrite <- app_assoc; auto.
  - cbn. intros H. inversion H; subst.
    destruct (Hfile fi eq_refl) as [Hpath Hdir].
    split; [exact Hpath|]. rewrite Hdir. discriminate.
  - discriminate.
Qed.

Lemma Stat_directory_witness :
  fst (Objects.Stat Z 0 refuse_time refuse_int listing_remote test_driver "/a" []) =
    inr (Objects.mkFileInfoFields "/a" 0 0 true) /\
  Objects.fi_Path (Objects.mkFileInfoFields "/a" 0 0 true) = "/a" /\
  (Objects.fi_IsDir (Objects.mkFileInfoFields "/a" 0 0 true) = true ->
   Objects.fi_Size (Objects.mkFileInfoFields "/a" 0 0 true) = 0 /\
   Objects.fi_ModTime (Objects.mkFileInfoFields "/a" 0 0 true) = 0 /\
   snd (Objects.Stat Z 0 refuse_time refuse_int listing_remote test_driver "/a" []) =
     [] ++ [Objects.ReqHeadObject (Bucket test_driver) (nosPath "/a");
            Objects.ReqListObjects (Bucket test_driver) (nosPath "/a") "" "" 1]).
Proof.
  split; [reflexivity|].
  apply (Stat_directory_comes_from_the_listing Z 0 refuse_time refuse_int listing_remote
           test_driver "/a" []).
  reflexivity.
Defined.

(** X20.  [List] ends in a panic without having sent a request exactly when
    the path is empty. *)
Theorem List_panics_before_any_request_iff_path_is_empty
    (remote : Objects.Remote) (fuel : nat) (d : driver) (path : string) (t : Objects.Trace) :
  Objects.List_ remote fuel d path t = (Some Panic, t) <-> path = "".
Proof.
  split.
  - intros H. destruct path as [|c path]; [reflexivity|]. exfalso.
    destruct (List_path_Some (String c path)) as [p Hp]; [discriminate|].
    unfold Objects.List_ in H. rewrite Hp in H.
    unfold Objects.bind, Objects.ListObjects at 1 in H.
    match type of H with
    | context [match ?x with DoError _ => _ | Response _ _ _ _ => _ end] =>
        destruct x as [err|code status etag [err|res]]
    end.
    + trace_longer H.
    + destruct (code =? StatusOK); trace_longer H.
    + destruct (code =? StatusOK); [|trace_longer H].
      match type of H with
      | context [Objects.List_loop remote fuel d p res ?f ?ds ?t0] =>
          destruct (Objects_List_loop_trace remote fuel d p res f ds t0) as [reqs Hreqs]
      end.
      apply (f_equal snd) in H. rewrite Hreqs in H. cbn [snd] in H.
      apply (f_equal (@List.length _)) in H.
      rewrite !length_app in H. cbn [List.length] in H. lia.
  - intros ->. reflexivity.
Qed.

(** X21.  A trailing slash makes no difference to [List]: a path that does
    not end in a slash is listed as the same path with a slash behind it. *)
Theorem List_adds_the_trailing_slash
    (remote : Objects.Remote) (fuel : nat) (d : driver) (path : string) (c : ascii)
    (t : Objects.Trace) :
  last_byte path = Some c -> c <> "/"%char ->
  Objects.List_ remote fuel d path t =
  Objects.List_ remote fuel d (String.append path "/") t.
Proof.
  intros Hlast Hc.
  destruct (List_path_add_slash path c Hlast Hc) as [H1 H2].
  unfold Objects.List_. rewrite H1, H2. reflexivity.
Qed.

Lemma List_adds_the_trailing_slash_witness :
  last_byte "/a" = Some "a"%char /\ "a"%char <> "/"%char /\
  Objects.List_ listing_remote 1 test_driver "/a" [] =
  Objects.List_ listing_remote 1 test_driver "/a/" [].
Proof.
  split; [reflexivity|]. split; [discriminate|].
  apply (List_adds_the_trailing_slash listing_remote 1 test_driver "/a" "a"%char []);
    [reflexivity | discriminate].
Defined.

(** X22.  When the store answers the listing page by page, [List] returns,
    given an iteration per page, the keys of all the pages, each behind a
    slash, and after them the common prefixes of all the pages, each without
    its last byte and behind a slash. *)
Theorem List_returns_files_then_directories
    (remote : Objects.Remote) (fuel : nat) (d : driver) (path p : string)
    (pages : list Objects.ListObjectsResult) (dirs : list string)
    (t t' : Objects.Trace) :
  Objects.List_path path = Some p ->
  Objects.Listed remote (Bucket d) (nosPath p) "/" Objects.listMax t "" pages t' ->
  Objects.directory_names (flat_map Objects.lor_CommonPrefixes pages) = Some dirs ->
  (List.length pages <= fuel)%nat ->
  Objects.List_ remote fuel d path t =
  (Some (Ok (Objects.file_names (flat_map Objects.lor_Contents pages) ++ dirs)), t').
Proof.
  intros Hp HL Hdirs Hfuel.
  unfold Objects.List_. rewrite Hp.
  inversion HL as [t0 marker res t0' Hres Hlast | t0 marker res t1 rest t0' Hres Hmore HL'];
    subst.
  - unfold Objects.bind. rewrite Hres.
    destruct fuel as [|fuel]; [cbn in Hfuel; lia|].
    cbn [flat_map] in *. rewrite app_nil_r in *.
    cbn [Objects.List_loop]. rewrite Hdirs, Hlast. reflexivity.
  - unfold Objects.bind. rewrite Hres.
    cbn [flat_map] in Hdirs. cbn [List.length] in Hfuel.
    rewrite (Objects_List_loop_Listed remote d p rest t1 _ t' HL' res [] [] dirs fuel
               Hmore eq_refl Hdirs) by lia.
    reflexivity.
Qed.

Lemma List_returns_files_then_directories_witness :
  Objects.List_ listing_remote 1 test_driver "/a" [] =
  (Some (Ok ["/a/b"; "/a/c"; "/a/d"]),
   [Objects.ReqListObjects "bucket" "a/" "/" "" 1000]).
Proof.
  apply (List_returns_files_then_directories listing_remote 1 test_driver "/a" "/a/"
           [listed_page] ["/a/d"] []
           [Objects.ReqListObjects "bucket" "a/" "/" "" 1000]).
  - reflexivity.
  - apply Objects.Listed_last; reflexivity.
  - reflexivity.
  - cbn. lia.
Defined.

(** X23.  Every name [List] returns starts with a slash, whatever the store
    answers. *)
Theorem List_names_start_with_a_slash
    (remote : Objects.Remote) (fuel : nat) (d : driver) (path : string)
    (t : Objects.Trace) (names : list string) :
  fst (Objects.List_ remote fuel d path t) = Some (Ok names) ->
  Forall starts_with_slash names.
Proof.
  unfold Objects.List_. intros H.
  destruct (Objects.List_path path) as [p|]; [|discriminate].
  unfold Objects.bind in H.
  destruct (Objects.ListObjects remote (Bucket d) (nosPath p) "/" "" Objects.listMax t)
    as [[err|res] t1]; [discriminate|].
  apply (Objects_List_loop_names remote fuel d p res [] [] t1 names); auto.
Qed.

Lemma List_names_start_with_a_slash_witness :
  fst (Objects.List_ listing_remote 1 test_driver "/a" []) =
    Some (Ok ["/a/b"; "/a/c"; "/a/d"]) /\
  Forall starts_with_slash ["/a/b"; "/a/c"; "/a/d"].
Proof.
  split; [reflexivity|].
  apply (List_names_start_with_a_slash listing_remote 1 test_driver "/a" []).
  reflexivity.
Defined.

(** X24.  [Delete] answers [PathNotFoundError] after the first listing
    alone, with no delete sent, exactly when that listing failed, whatever
    the failure, or listed no object. *)
Theorem Delete_not_found_iff_nothing_listed
    (remote : Objects.Remote) (fuel : nat) (d : driver) (path : string) (t : Objects.Trace) :
  Objects.Delete remote fuel d path t =
    (Some (Some (PathNotFoundError path)),
     t ++ [Objects.ReqListObjects (Bucket d) (nosPath path) "" "" Objects.listMax])
  <->
  match fst (Objects.ListObjects remote (Bucket d) (nosPath path) "" "" Objects.listMax t) with
  | inl _ => True
  | inr listObjectsResult => Objects.lor_Contents listObjectsResult = []
  end.
Proof.
  unfold Objects.Delete, Objects.bind.
  destruct (Objects.ListObjects remote (Bucket d) (nosPath path) "" "" Objects.listMax t)
    as [[err|res] t1] eqn:EL.
  - assert (Ht1 : t1 = t ++ [Objects.ReqListObjects (Bucket d) (nosPath path) "" ""
                               Objects.listMax])
      by (unfold Objects.ListObjects in EL; inversion EL; reflexivity).
    subst t1. cbn [fst]. split; auto.
  - assert (Ht1 : t1 = t ++ [Objects.ReqListObjects (Bucket d) (nosPath path) "" ""
                               Objects.listMax])
      by (unfold Objects.ListObjects in EL; inversion EL; reflexivity).
    subst t1. cbn [fst].
    destruct (Objects.lor_Contents res) as [|c contents] eqn:Econtents.
    + split; auto.
    + split; [|discriminate]. intros H. exfalso.
      destruct fuel as [|fuel]; [discriminate|].
      cbn [Objects.Delete_loop] in H. rewrite Econtents in H.
      unfold Objects.bind, Objects.DeleteMultiObjects_ at 1 in H.
      match type of H with
      | context [match ?x with DoError _ => _ | Response _ _ _ _ => _ end] =>
          destruct x as [err|code status etag []]
      end.
      * trace_longer H.
      * destruct (code =? StatusOK); [|trace_longer H].
        destruct (negb (Objects.lor_IsTruncated res)); [trace_longer H|].
        unfold Objects.ListObjects at 1 in H.
        match type of H with
        | context [match ?x with DoError _ => _ | Response _ _ _ _ => _ end] =>
            destruct x as [err|code' status' etag' [err|res']]
        end.
        -- trace_longer H.
        -- destruct (code' =? StatusOK); trace_longer H.
        -- destruct (code' =? StatusOK); [|trace_longer H].
           match type of H with
           | context [Objects.Delete_loop remote fuel d path res' ?dmo ?t0] =>
               destruct (Objects_Delete_loop_grows remote fuel d path res' dmo t0)
                 as [reqs [Hreqs _]]
           end.
           apply (f_equal snd) in H. rewrite Hreqs in H. cbn [snd] in H.
           apply (f_equal (@List.length _)) in H.
           rewrite !length_app in H. cbn [List.length] in H. lia.
Qed.

(** X25.  The delete requests of one [Delete] only grow: each is a quiet
    delete whose object list is the list of the one before it with at least
    one more object behind it. *)
Theorem Delete_requests_only_grow
    (remote : Objects.Remote) (fuel : nat) (d : driver) (path : string) (t : Objects.Trace) :
  exists reqs,
    snd (Objects.Delete remote fuel d path t) = t ++ reqs /\
    Objects.each_extends [] (Objects.sent_deletes reqs) /\
    Forall (fun r => match r with
                     | Objects.ReqDeleteMultiObjects _ sent => Objects.dmo_Quiet sent = true
                     | _ => True
                     end) reqs.
Proof.
  unfold Objects.Delete, Objects.bind.
  destruct (Objects.ListObjects remote (Bucket d) (nosPath path) "" "" Objects.listMax t)
    as [[err|res] t1] eqn:EL;
    assert (Ht1 : t1 = t ++ [Objects.ReqListObjects (Bucket d) (nosPath path) "" ""
                               Objects.listMax])
      by (unfold Objects.ListObjects in EL; inversion EL; reflexivity);
    subst t1.
  - eexists. cbn. repeat split; auto.
  - destruct (Objects.lor_Contents res) as [|c contents] eqn:Econtents.
    + eexists. cbn. repeat split; auto.
    + destruct (Objects_Delete_loop_grows remote fuel d path res
                  (Objects.mkDeleteMultiObjects true [])
                  (t ++ [Objects.ReqListObjects (Bucket d) (nosPath path) "" ""
                           Objects.listMax])) as [reqs [Hreqs [Hgrow Hquiet]]].
      exists (Objects.ReqListObjects (Bucket d) (nosPath path) "" "" Objects.listMax :: reqs).
      rewrite Hreqs, <- app_assoc. cbn. repeat split; auto.
Qed.

(** X26.  When the first listing is a whole, not truncated page with at
    least one object, [Delete] sends one quiet delete of the listed keys, in
    the order listed, and returns what the store answers to it. *)
Theorem Delete_of_one_page
    (remote : Objects.Remote) (fuel : nat) (d : driver) (path : string)
    (t t1 : Objects.Trace) (listObjectsResult : Objects.ListObjectsResult) :
  Objects.ListObjects remote (Bucket d) (nosPath path) "" "" Objects.listMax t =
    (inr listObjectsResult, t1) ->
  Objects.lor_Contents listObjectsResult <> [] ->
  Objects.lor_IsTruncated listObjectsResult = false ->
  let deleteMultiObjects :=
    Objects.mkDeleteMultiObjects true
      (map (fun key => Objects.mkDeleteObject (Objects.c_Key key))
           (Objects.lor_Contents listObjectsResult)) in
  Objects.Delete remote (S fuel) d path t =
  (Some (fst (Objects.DeleteMultiObjects_ remote (Bucket d) deleteMultiObjects t1)),
   t1 ++ [Objects.ReqDeleteMultiObjects (Bucket d) deleteMultiObjects]).
Proof.
  intros HL Hne Hlast. cbv zeta.
  unfold Objects.Delete, Objects.bind. rewrite HL.
  destruct (Objects.lor_Contents listObjectsResult) as [|c contents] eqn:Econtents;
    [contradiction|].
  cbn [Objects.Delete_loop]. rewrite Econtents, Hlast.
  rewrite Append_keys_Objects. cbn [Objects.dmo_Quiet Objects.dmo_Objects app negb].
  unfold Objects.bind, Objects.DeleteMultiObjects_, Objects.ret.
  cbn [fst].
  match goal with
  | |- context [match ?x with DoError _ => _ | Response _ _ _ _ => _ end] =>
      destruct x as [err|code status etag []]
  end; [reflexivity|].
  destruct (code =? StatusOK); reflexivity.
Qed.

Lemma Delete_of_one_page_witness :
  Objects.Delete listing_remote 1 test_driver "/a" [] =
  (Some None,
   [Objects.ReqListObjects "bucket" "a" "" "" 1000;
    Objects.ReqDeleteMultiObjects "bucket"
      (Objects.mkDeleteMultiObjects true
         [Objects.mkDeleteObject "a/b"; Objects.mkDeleteObject "a/c"])]).
Proof.
  apply (Delete_of_one_page listing_remote 0 test_driver "/a" []
           [Objects.ReqListObjects "bucket" "a" "" "" 1000] listed_page).
  - reflexivity.
  - discriminate.
  - reflexivity.
Defined.


(* ========================================================================= *)
(** * Further properties of the factory and of the signed resource *)

Lemma FromParameters_chunkSize_floor Sprintf ParseInt chunkSizeParam chunkSize :
  FromParameters_chunkSize Sprintf ParseInt chunkSizeParam = inr chunkSize ->
  minChunkSize_NOS <= chunkSize /\
  (chunkSizeParam = None -> chunkSize = defaultChunkSize).
Proof.
  unfold FromParameters_chunkSize. intros H.
  destruct chunkSizeParam as [p|].
  - split; [|discriminate].
    match type of H with
    | (match ?x with _ => _ end) = _ => destruct x as [err|v]; [discriminate|]
    end.
    destruct (v <? minChunkSize_NOS) eqn:E; [discriminate|].
    inversion H; subst. now apply Z.ltb_ge in E.
  - inversion H; subst. split; [|reflexivity].
    unfold defaultChunkSize, minChunkSize_NOS. cbn. lia.
Qed.

Lemma FromParameters_driver Sprint Sprintf ParseInt parameters d :
  FromParameters Sprint Sprintf ParseInt parameters = inr d ->
  minChunkSize_NOS <= ChunkSize d /\
  Bucket d <> "" /\
  (parameters "chunksize" = None -> ChunkSize d = defaultChunkSize).
Proof.
  unfold FromParameters. intros H.
  destruct (parameters "accessKey") as [accessKey|]; [|discriminate].
  destruct (parameters "secretKey") as [secretKey|]; [|discriminate].
  destruct (parameters "bucket") as [bucket|]; [|discriminate].
  destruct (String.eqb (Sprint bucket) "") eqn:Ebucket; [discriminate|].
  destruct (FromParameters_chunkSize Sprintf ParseInt (parameters "chunksize"))
    as [err|chunkSize] eqn:Echunk; [discriminate|].
  destruct (FromParameters_ncdnRepo Sprint Sprintf (parameters "ncdn_repo"))
    as [err|ncdnRepo]; [discriminate|].
  inversion H; subst. cbn.
  destruct (FromParameters_chunkSize_floor _ _ _ _ Echunk) as [Hfloor Hdefault].
  split; [exact Hfloor|]. split; [|exact Hdefault].
  now apply String.eqb_neq.
Qed.

(** X27.  Every driver [FromParameters] builds has a chunk size of at least
    [minChunkSize] (5 MB) and a bucket name that is not empty; without a
    [chunksize] parameter the chunk size is [defaultChunkSize]. *)
Theorem FromParameters_chunk_size_is_not_below_the_floor
    (Sprint : param -> string) (Sprintf : string -> list param -> string)
    (ParseInt : string -> error + Z) (parameters : string -> option param) (d : driver) :
  FromParameters Sprint Sprintf ParseInt parameters = inr d ->
  minChunkSize_NOS <= ChunkSize d /\
  Bucket d <> "" /\
  (parameters "chunksize" = None -> ChunkSize d = defaultChunkSize).
Proof. exact (FromParameters_driver Sprint Sprintf ParseInt parameters d). Qed.

Lemma FromParameters_chunk_size_witness :
  FromParameters example_Sprint example_Sprintf refuse_int example_parameters =
    inr (mkDriver "bucket" (Z.shiftl 8 20)) /\
  minChunkSize_NOS <= ChunkSize (mkDriver "bucket" (Z.shiftl 8 20)) /\
  Bucket (mkDriver "bucket" (Z.shiftl 8 20)) <> "" /\
  (example_parameters "chunksize" = None ->
   ChunkSize (mkDriver "bucket" (Z.shiftl 8 20)) = defaultChunkSize).
Proof.
  split; [reflexivity|].
  apply (FromParameters_chunk_size_is_not_below_the_floor example_Sprint example_Sprintf
           refuse_int example_parameters).
  reflexivity.
Defined.





